(** * Verification model of the market-data order book and stream managers

    Shallow embedding of [backend-sse/src/order_book.rs] and of the two
    stream managers ([backend/src/stream_manager.rs] and
    [backend-sse/src/stream_manager.rs]).

    Modelling choices:
    - the order index [HashMap<String, Order>] is a stdpp [gmap string Order];
    - a price ladder [BTreeMap<OrderedFloat, Vec<String>>] is an association
      list kept in ascending key order, searched with the key type's [Ord]
      comparator exactly as a search tree is;
    - the order book is generic in its price type [P] through the [Ord] class
      (the Rust [Ord for OrderedFloat]); the f64 instance is [PrimFloat.float]
      with [partial_cmp(..).unwrap_or(Equal)];
    - [u64] / [u32] arithmetic is [Z] with the wrap-around of a release build
      written out;
    - [Utc::now()] is an explicit [now] argument (milliseconds), and the random
      number generator is an explicit function from the draw index and the
      requested range to the drawn value;
    - a [DashMap] of the stream managers is an association list in its
      iteration order. *)

From Stdlib Require Import ZArith Lia Floats Sorted.
From Stdlib Require Import Ascii.
From stdpp Require Import base gmap strings list pretty.

Set Warnings "-inexact-float".

Open Scope Z_scope.

Definition u64_wrap (z : Z) : Z := z mod 2 ^ 64.
Definition u32_wrap (z : Z) : Z := z mod 2 ^ 32.

(** The Rust [Ord] trait: a three-way comparison. *)
Class Ord (P : Type) := cmp : P -> P -> comparison.

(** The laws of a total order, which [Ord] implementations must satisfy
    for [BTreeMap] to behave as documented. The [Ord] of [OrderedFloat]
    satisfies them only on the floats that are neither NaN nor -0.0 (see
    [OrdinaryFloat]); the f64 book is treated on its own in [FloatBook]. *)
Class OrdLaws (P : Type) `{Ord P} := {
  cmp_eq_iff : forall x y, cmp x y = Eq <-> x = y;
  cmp_antisym : forall x y, cmp y x = CompOpp (cmp x y);
  cmp_lt_trans : forall x y z, cmp x y = Lt -> cmp y z = Lt -> cmp x z = Lt
}.

#[export] Instance Z_Ord : Ord Z := Z.compare.

#[export] Instance Z_OrdLaws : OrdLaws Z.
Proof.
  split.
  - intros x y. apply Z.compare_eq_iff.
  - intros x y. apply Z.compare_antisym.
  - intros x y z H1 H2. unfold cmp, Z_Ord in *. rewrite Z.compare_lt_iff in *. lia.
Qed.

Module Book.

Inductive Side := Bid | Ask.

#[export] Instance Side_eq_dec : EqDecision Side.
Proof. solve_decision. Defined.

Section Generic.
Context {P : Type} `{Ord P}.

Record Order := mkOrder {
  id : string;
  price : P;
  quantity : Z;
  side : Side;
  timestamp : Z;
  original_quantity : Z
}.

(** [Order::new]: the timestamp is [Utc::now()]. *)
Definition Order_new (id0 : string) (price0 : P) (quantity0 : Z) (side0 : Side)
    (now : Z) : Order :=
  mkOrder id0 price0 quantity0 side0 now quantity0.

(** [Order::update_quantity]. *)
Definition update_quantity (o : Order) (new_quantity now : Z) : Order :=
  mkOrder (id o) (price o) new_quantity (side o) now (original_quantity o).

(** [Order::age_ms]: [(now - timestamp).num_milliseconds().max(0)]. *)
Definition age_ms (o : Order) (now : Z) : Z := Z.max 0 (now - timestamp o).

(** A [BTreeMap<OrderedFloat, Vec<String>>], in ascending key order. *)
Definition Ladder := list (P * list string).

Record OrderBook := mkBook {
  symbol : string;
  orders : gmap string Order;
  bids_by_price : Ladder;
  asks_by_price : Ladder;
  sequence : Z
}.

Definition OrderBook_new (s : string) : OrderBook := mkBook s ∅ [] [] 0.

(** [entry(k).or_insert_with(Vec::new).push(x)]; an existing key equal to
    [k] is kept. *)
Fixpoint ladder_push (l : Ladder) (k : P) (x : string) : Ladder :=
  match l with
  | [] => [(k, [x])]
  | (k', v) :: r =>
      match cmp k k' with
      | Lt => (k, [x]) :: l
      | Eq => (k', v ++ [x]) :: r
      | Gt => (k', v) :: ladder_push r k x
      end
  end.

(** [if let Some(v) = get_mut(&k) { v.retain(|id| id != x);
    if v.is_empty() { remove(&k) } }]. *)
Fixpoint ladder_retain (l : Ladder) (k : P) (x : string) : Ladder :=
  match l with
  | [] => []
  | (k', v) :: r =>
      match cmp k k' with
      | Lt => l
      | Eq =>
          match filter (fun i => i <> x) v with
          | [] => r
          | v' => (k', v') :: r
          end
      | Gt => (k', v) :: ladder_retain r k x
      end
  end.

Definition ladder_of (b : OrderBook) (s : Side) : Ladder :=
  match s with Bid => bids_by_price b | Ask => asks_by_price b end.

Definition with_ladder (b : OrderBook) (s : Side) (l : Ladder) : OrderBook :=
  match s with
  | Bid => mkBook (symbol b) (orders b) l (asks_by_price b) (sequence b)
  | Ask => mkBook (symbol b) (orders b) (bids_by_price b) l (sequence b)
  end.

Definition with_orders (b : OrderBook) (m : gmap string Order) : OrderBook :=
  mkBook (symbol b) m (bids_by_price b) (asks_by_price b) (sequence b).

Definition bump (b : OrderBook) : OrderBook :=
  mkBook (symbol b) (orders b) (bids_by_price b) (asks_by_price b)
    (u64_wrap (sequence b + 1)).

(** [OrderBook::remove_order]. *)
Definition remove_order (b : OrderBook) (order_id : string) : OrderBook * bool :=
  match orders b !! order_id with
  | Some o =>
      let b1 := with_orders b (delete order_id (orders b)) in
      let b2 := with_ladder b1 (side o)
                  (ladder_retain (ladder_of b1 (side o)) (price o) order_id) in
      (bump b2, true)
  | None => (b, false)
  end.

(** [OrderBook::add_order]. *)
Definition add_order (b : OrderBook) (o : Order) : OrderBook * bool :=
  let b0 := match orders b !! id o with
            | Some _ => fst (remove_order b (id o))
            | None => b
            end in
  let b1 := with_orders b0 (<[id o := o]> (orders b0)) in
  let b2 := with_ladder b1 (side o) (ladder_push (ladder_of b1 (side o)) (price o) (id o)) in
  (bump b2, true).

(** [OrderBook::update_order]; [now] is the [Utc::now()] read by
    [update_quantity]. *)
Definition update_order (b : OrderBook) (order_id : string) (new_quantity now : Z)
    : OrderBook * bool :=
  if Z.eqb new_quantity 0 then remove_order b order_id
  else match orders b !! order_id with
       | Some o =>
           (bump (with_orders b (<[order_id := update_quantity o new_quantity now]> (orders b))), true)
       | None => (b, false)
       end.

(** [MBOLevel]. *)
Record MBOLevel := mkMBO {
  mbo_order_id : string;
  mbo_price : P;
  mbo_quantity : Z;
  mbo_side : Side;
  mbo_timestamp : Z;
  mbo_age_ms : Z
}.

(** [MBPLevel]. *)
Record MBPLevel := mkMBP {
  mbp_price : P;
  mbp_quantity : Z;
  mbp_order_count : Z;
  mbp_side : Side;
  mbp_total_quantity : Z;
  mbp_avg_age_ms : Z
}.

(** The price levels of one side in rendering order: bids from the highest
    key ([iter().rev()]), asks from the lowest ([iter()]). *)
Definition side_prices (b : OrderBook) (s : Side) : Ladder :=
  match s with Bid => rev (bids_by_price b) | Ask => asks_by_price b end.

Definition mbo_of (o : Order) (now : Z) : MBOLevel :=
  mkMBO (id o) (price o) (quantity o) (side o) (timestamp o) (age_ms o now).

(** The inner loop of [get_mbo_side]: one entry per id found in the index. *)
Fixpoint mbo_orders (m : gmap string Order) (ids : list string) (now : Z)
    : list MBOLevel :=
  match ids with
  | [] => []
  | i :: r =>
      match m !! i with
      | Some o => mbo_of o now :: mbo_orders m r now
      | None => mbo_orders m r now
      end
  end.

(** The outer loop of [get_mbo_side], with its [levels_count] and [break]. *)
Fixpoint mbo_levels (m : gmap string Order) (prices : Ladder)
    (levels_count max_levels now : Z) : list MBOLevel :=
  match prices with
  | [] => []
  | (_, ids) :: r =>
      if Z.leb max_levels levels_count then []
      else mbo_orders m ids now ++ mbo_levels m r (levels_count + 1) max_levels now
  end.

(** [OrderBook::get_mbo_side]; [result.truncate((max_levels * 3) as usize)]
    with the [u32] product wrapping. *)
Definition get_mbo_side (b : OrderBook) (s : Side) (max_levels now : Z)
    : list MBOLevel :=
  take (Z.to_nat (u32_wrap (max_levels * 3)))
    (mbo_levels (orders b) (side_prices b s) 0 max_levels now).

Definition get_mbo_data (b : OrderBook) (max_levels now : Z)
    : list MBOLevel * list MBOLevel :=
  (get_mbo_side b Bid max_levels now, get_mbo_side b Ask max_levels now).

(** [order_ids.iter().filter_map(|id| self.orders.get(id))]. *)
Fixpoint found_orders (m : gmap string Order) (ids : list string) : list Order :=
  match ids with
  | [] => []
  | i :: r =>
      match m !! i with
      | Some o => o :: found_orders m r
      | None => found_orders m r
      end
  end.

(** [Iterator::sum] over [u64]. *)
Definition u64_sum (l : list Z) : Z := fold_left (fun acc q => u64_wrap (acc + q)) l 0.

(** The loop of [get_mbp_side] over [prices.take(max_levels)]. *)
Fixpoint mbp_levels (m : gmap string Order) (s : Side) (prices : Ladder)
    (cumulative_quantity now : Z) : list MBPLevel :=
  match prices with
  | [] => []
  | (k, ids) :: r =>
      match found_orders m ids with
      | [] => mbp_levels m s r cumulative_quantity now
      | os =>
          let q := u64_sum (map quantity os) in
          let n := Z.of_nat (length os) in
          let avg := u64_sum (map (fun o => age_ms o now) os) / n in
          let c := u64_wrap (cumulative_quantity + q) in
          mkMBP k q (u32_wrap n) s c avg :: mbp_levels m s r c now
      end
  end.

(** [OrderBook::get_mbp_side]. *)
Definition get_mbp_side (b : OrderBook) (s : Side) (max_levels now : Z)
    : list MBPLevel :=
  mbp_levels (orders b) s (take (Z.to_nat max_levels) (side_prices b s)) 0 now.

Definition get_mbp_data (b : OrderBook) (max_levels now : Z)
    : list MBPLevel * list MBPLevel :=
  (get_mbp_side b Bid max_levels now, get_mbp_side b Ask max_levels now).

Fixpoint last_key (l : Ladder) : option P :=
  match l with
  | [] => None
  | [(k, _)] => Some k
  | _ :: r => last_key r
  end.

Definition first_key (l : Ladder) : option P :=
  match l with [] => None | (k, _) :: _ => Some k end.

(** [OrderBook::get_best_bid_ask]: [keys().next_back()] of the bids,
    [keys().next()] of the asks. *)
Definition get_best_bid_ask (b : OrderBook) : option P * option P :=
  (last_key (bids_by_price b), first_key (asks_by_price b)).

(** ** Sequences of mutations and the book invariant *)

Inductive Op :=
  | OpAdd (o : Order)
  | OpUpdate (order_id : string) (new_quantity now : Z)
  | OpRemove (order_id : string).

Definition apply_op (b : OrderBook) (op : Op) : OrderBook * bool :=
  match op with
  | OpAdd o => add_order b o
  | OpUpdate x q now => update_order b x q now
  | OpRemove x => remove_order b x
  end.

Fixpoint run (b : OrderBook) (ops : list Op) : OrderBook :=
  match ops with
  | [] => b
  | op :: r => run (fst (apply_op b op)) r
  end.

(** Whether a mutation is applied: every add, and an update or removal of
    an id present in the index. *)
Definition applies (b : OrderBook) (op : Op) : bool :=
  match op with
  | OpAdd _ => true
  | OpUpdate x _ _ | OpRemove x => bool_decide (is_Some (orders b !! x))
  end.

Fixpoint applied_count (b : OrderBook) (ops : list Op) : Z :=
  match ops with
  | [] => 0
  | op :: r => (if applies b op then 1 else 0) + applied_count (fst (apply_op b op)) r
  end.

Definition ladder_ids (l : Ladder) : list string := concat (map snd l).

Definition all_ids (b : OrderBook) : list string :=
  ladder_ids (bids_by_price b) ++ ladder_ids (asks_by_price b).

(** Ascending keys, as in a [BTreeMap]. *)
Fixpoint sorted_keys (l : Ladder) : Prop :=
  match l with
  | [] => True
  | (k, _) :: r => Forall (fun kv => cmp k kv.1 = Lt) r /\ sorted_keys r
  end.

Definition slots_nonempty (l : Ladder) : Prop := Forall (fun kv => kv.2 <> []) l.

(** Every id in the ladder of side [s] at key [k] is indexed with that side
    and that price. *)
Definition ladder_index_ok (b : OrderBook) : Prop :=
  forall s k v x, In (k, v) (ladder_of b s) -> In x v ->
    exists o, orders b !! x = Some o /\ side o = s /\ price o = k.

Definition Inv (b : OrderBook) : Prop :=
  sorted_keys (bids_by_price b) /\ sorted_keys (asks_by_price b) /\
  slots_nonempty (bids_by_price b) /\ slots_nonempty (asks_by_price b) /\
  ladder_index_ok b /\ NoDup (all_ids b).

(** The sequence increments an operation causes: an add of an id already
    in the index removes the old order first (one increment) and then
    inserts (another); an update or removal of an indexed id, one. *)
Definition seq_weight (b : OrderBook) (op : Op) : Z :=
  match op with
  | OpAdd o => if bool_decide (is_Some (orders b !! id o)) then 2 else 1
  | OpUpdate x _ _ | OpRemove x => if bool_decide (is_Some (orders b !! x)) then 1 else 0
  end.

Fixpoint weighted_count (b : OrderBook) (ops : list Op) : Z :=
  match ops with
  | [] => 0
  | op :: r => seq_weight b op + weighted_count (fst (apply_op b op)) r
  end.

(** [add_order] in two steps: the removal of an order with the same id,
    then the insertion of an id that is not indexed. *)
Definition add_prep (b : OrderBook) (o : Order) : OrderBook :=
  match orders b !! id o with
  | Some _ => fst (remove_order b (id o))
  | None => b
  end.

Definition add_fresh (b : OrderBook) (o : Order) : OrderBook :=
  bump (with_ladder (with_orders b (<[id o := o]> (orders b))) (side o)
          (ladder_push (ladder_of b (side o)) (price o) (id o))).

(** What the ladders of a book depend on: the price and side of each
    indexed order, and the ladders themselves. *)
Definition shape (b : OrderBook) : gmap string (P * Side) * Ladder * Ladder :=
  ((fun o => (price o, side o)) <$> orders b, bids_by_price b, asks_by_price b).

(** Every index entry is stored under its own id. *)
Definition index_ids_ok (b : OrderBook) : Prop :=
  forall x o, orders b !! x = Some o -> id o = x.

(** Unbounded sum. *)
Definition zsum (l : list Z) : Z := fold_right Z.add 0 l.

End Generic.

Arguments Order : clear implicits.
Arguments OrderBook : clear implicits.
Arguments Ladder : clear implicits.
Arguments MBOLevel : clear implicits.
Arguments MBPLevel : clear implicits.
Arguments Op : clear implicits.

(** ** The f64 instance *)

Open Scope float_scope.

(** [impl Ord for OrderedFloat]: [partial_cmp(..).unwrap_or(Equal)]. *)
#[export] Instance OrderedFloat_Ord : Ord float := fun a b =>
  match PrimFloat.compare a b with
  | FEq => Eq
  | FLt => Lt
  | FGt => Gt
  | FNotComparable => Eq
  end.

(** Leibniz equality of floats is decidable through their specification. *)
#[export] Instance spec_float_eq_dec : EqDecision spec_float.
Proof. solve_decision. Defined.

#[export] Instance float_eq_dec : EqDecision float := fun x y =>
  match decide (Prim2SF x = Prim2SF y) with
  | left E => left (Prim2SF_inj x y E)
  | right N => right (fun E => N (f_equal Prim2SF E))
  end.

(** [OrderBook::get_spread_info]. *)
Definition get_spread_info (b : OrderBook float)
    : option float * option float * option float :=
  match get_best_bid_ask b with
  | (Some bid, Some ask) =>
      let spread := ask - bid in
      let mid_price := (bid + ask) / 2.0 in
      (Some spread, Some mid_price, Some (spread / mid_price * 10000.0))
  | _ => (None, None, None)
  end.

Definition two52 : float := 4503599627370496.0.

(** [f64::round]: to the nearest integer, halves away from zero. Below
    2^52, [(a + 2^52) - 2^52] is [a] rounded to an integer, from which the
    floor follows; from 2^52 on (and for infinities and NaN) every float is
    its own rounding. *)
Definition f64_round (x : float) : float :=
  let a := PrimFloat.abs x in
  if PrimFloat.ltb a two52 then
    let y := (a + two52) - two52 in
    let fl := if PrimFloat.ltb a y then y - 1.0 else y in
    let r := if PrimFloat.ltb (a - fl) 0.5 then fl else fl + 1.0 in
    if get_sign x then - r else r
  else x.

Definition f64_of_nat (i : nat) : float := PrimFloat.of_uint63 (Uint63.of_Z (Z.of_nat i)).

Close Scope float_scope.

(** The random number generator: [rng k lo hi] is the [k]-th draw of
    [gen_range(lo..hi)] (upper bound exclusive). *)
Definition Rng := nat -> Z -> Z -> Z.

Definition rng_ok (rng : Rng) : Prop :=
  forall k lo hi, lo < hi -> lo <= rng k lo hi < hi.

Definition fmt_id (prefix : string) (i : nat) : string := prefix +:+ pretty i.

Definition base_price : float := 100.0%float.

(** The [i]-th initial bid: draws [2i] ([quantity]) and [2i+1] (backdate). *)
Definition sample_bid (rng : Rng) (now : Z) (i : nat) : Order float :=
  let p := (base_price - 0.05 - f64_of_nat i * 0.01)%float in
  let q := rng (2 * i)%nat 1000 10001 in
  mkOrder (fmt_id "bid_" i) (f64_round (p * 100.0) / 100.0)%float q Bid
    (now - rng (2 * i + 1)%nat 0 60000) q.

(** The [i]-th initial ask: draws [60+2i] and [61+2i]. *)
Definition sample_ask (rng : Rng) (now : Z) (i : nat) : Order float :=
  let p := (base_price + f64_of_nat i * 0.01)%float in
  let q := rng (60 + 2 * i)%nat 1000 10001 in
  mkOrder (fmt_id "ask_" i) (f64_round (p * 100.0) / 100.0)%float q Ask
    (now - rng (61 + 2 * i)%nat 0 60000) q.

(** [OrderBook::initialize_with_sample_data]. *)
Definition initialize_with_sample_data (b : OrderBook float) (rng : Rng) (now : Z)
    : OrderBook float :=
  let b1 := fold_left (fun b i => fst (add_order b (sample_bid rng now i))) (seq 0 30) b in
  fold_left (fun b i => fst (add_order b (sample_ask rng now i))) (seq 0 30) b1.

(** The sixty orders [initialize_with_sample_data] adds, in order. *)
Definition sample_orders (rng : Rng) (now : Z) : list (Order float) :=
  map (sample_bid rng now) (seq 0 30) ++ map (sample_ask rng now) (seq 0 30).

End Book.

(** ** Association lists: the [DashMap]s of the stream managers, in
    iteration order *)
Module Assoc.
Section A.
Context {K V : Type} `{EqDecision K}.

Fixpoint lookup (l : list (K * V)) (k : K) : option V :=
  match l with
  | [] => None
  | (k', v) :: r => if decide (k = k') then Some v else lookup r k
  end.

Definition contains_key (l : list (K * V)) (k : K) : bool :=
  match lookup l k with Some _ => true | None => false end.

(** [insert]: replaces the value of an existing key, or adds the key. *)
Fixpoint insert (l : list (K * V)) (k : K) (v : V) : list (K * V) :=
  match l with
  | [] => [(k, v)]
  | (k', v') :: r => if decide (k = k') then (k', v) :: r else (k', v') :: insert r k v
  end.

(** [retain]. *)
Definition retain (f : K -> V -> bool) (l : list (K * V)) : list (K * V) :=
  filter (fun kv => f kv.1 kv.2 = true) l.

End A.

(** [entry(k).or_insert_with(Vec::new).push(x)]. *)
Fixpoint push {K V : Type} `{EqDecision K} (l : list (K * list V)) (k : K) (x : V)
    : list (K * list V) :=
  match l with
  | [] => [(k, [x])]
  | (k', v) :: r => if decide (k = k') then (k', v ++ [x]) :: r else (k', v) :: push r k x
  end.
End Assoc.

Inductive result (T E : Type) := Ok (t : T) | Err (e : E).
Arguments Ok {T E} t.
Arguments Err {T E} e.

Inductive DataType := MBO | MBP.

Inductive MarketDataUpdate :=
  | MD_MBO (bids asks : list (Book.MBOLevel float))
  | MD_MBP (bids asks : list (Book.MBPLevel float)).

(** The projection rendered for a subscription. *)
Definition market_data (ob : Book.OrderBook float) (dt : DataType) (max_levels now : Z)
    : MarketDataUpdate :=
  match dt with
  | MBO => let (b, a) := Book.get_mbo_data ob max_levels now in MD_MBO b a
  | MBP => let (b, a) := Book.get_mbp_data ob max_levels now in MD_MBP b a
  end.

(** ** [backend/src/stream_manager.rs] *)
Module Registry.

(** [Subscription]; a client [Uuid] is an integer. *)
Record Subscription := mkSub {
  stream_id : string;
  symbol : string;
  data_type : DataType;
  max_levels : Z;
  client_id : Z
}.

Definition Subscription_new (stream_id0 symbol0 : string) (dt : DataType)
    (max_levels0 : option Z) (client_id0 : Z) : Subscription :=
  mkSub stream_id0 symbol0 dt (default 20 max_levels0) client_id0.

Inductive ServerMessage :=
  | MarketData (stream_id symbol : string) (data : MarketDataUpdate) (sequence timestamp : Z)
  | HeartBeat (timestamp : Z).

(** An [mpsc::UnboundedSender]: [send] succeeds, appending to the queue,
    exactly while the receiving side is open. *)
Record Channel := mkChan { ch_open : bool; ch_queue : list ServerMessage }.

Definition ch_send (c : Channel) (m : ServerMessage) : option Channel :=
  if ch_open c then Some (mkChan true (ch_queue c ++ [m])) else None.

Record StreamManager := mkSM {
  order_books : list (string * Book.OrderBook float);
  subscriptions : list (string * list Subscription);
  clients : list (Z * Channel)
}.

(** [initialize_symbol]. *)
Definition initialize_symbol (sm : StreamManager) (sym : string) (rng : Book.Rng) (now : Z)
    : StreamManager :=
  let ob := Book.initialize_with_sample_data (Book.OrderBook_new sym) rng now in
  mkSM (Assoc.insert (order_books sm) sym ob) (subscriptions sm) (clients sm).

Definition register_client (sm : StreamManager) (cid : Z) (c : Channel) : StreamManager :=
  mkSM (order_books sm) (subscriptions sm) (Assoc.insert (clients sm) cid c).

(** [StreamManager::subscribe]. *)
Definition subscribe (sm : StreamManager) (rng : Book.Rng) (now : Z) (cid : Z)
    (sid sym : string) (dt : DataType) (ml : option Z)
    : StreamManager * result unit string :=
  let sm1 := if Assoc.contains_key (order_books sm) sym then sm
             else initialize_symbol sm sym rng now in
  let sub := Subscription_new sid sym dt ml cid in
  let sm2 := mkSM (order_books sm1) (Assoc.push (subscriptions sm1) sym sub) (clients sm1) in
  match Assoc.lookup (order_books sm2) sym with
  | Some ob =>
      match Assoc.lookup (clients sm2) cid with
      | Some c =>
          let msg := MarketData sid sym (market_data ob dt (default 20 ml) now)
                       (Book.sequence ob) now in
          match ch_send c msg with
          | Some c' =>
              (mkSM (order_books sm2) (subscriptions sm2) (Assoc.insert (clients sm2) cid c'),
               Ok tt)
          | None => (sm2, Err "Failed to send initial snapshot")
          end
      | None => (sm2, Ok tt)
      end
  | None => (sm2, Ok tt)
  end.

Definition matches (cid : Z) (sid : string) (s : Subscription) : bool :=
  bool_decide (client_id s = cid /\ stream_id s = sid).

(** The loop of [StreamManager::unsubscribe] over [iter_mut()], with its
    early [return true]. *)
Fixpoint unsubscribe_go (l : list (string * list Subscription)) (cid : Z) (sid : string)
    : list (string * list Subscription) * bool :=
  match l with
  | [] => ([], false)
  | (k, v) :: r =>
      let v' := filter (fun s => matches cid sid s = false) v in
      if negb (Nat.eqb (length v') (length v)) then ((k, v') :: r, true)
      else let (r', found) := unsubscribe_go r cid sid in ((k, v') :: r', found)
  end.

(** [StreamManager::unsubscribe]. *)
Definition unsubscribe (sm : StreamManager) (cid : Z) (sid : string)
    : StreamManager * bool :=
  let (l, found) := unsubscribe_go (subscriptions sm) cid sid in
  (mkSM (order_books sm) l (clients sm), found).

End Registry.

(** ** [backend-sse/src/stream_manager.rs] *)
Module SSE.

Record SSESubscription := mkSub {
  stream_id : string;
  symbol : string;
  data_type : DataType;
  max_levels : Z;
  client_id : Z
}.

Inductive SSEMessage :=
  | MarketData (stream_id symbol : string) (data : MarketDataUpdate) (sequence timestamp : Z)
  | HeartBeat (timestamp : Z).

Record Channel := mkChan { ch_open : bool; ch_queue : list SSEMessage }.

Definition ch_send (c : Channel) (m : SSEMessage) : option Channel :=
  if ch_open c then Some (mkChan true (ch_queue c ++ [m])) else None.

Record SSEStreamManager := mkSM {
  order_books : list (string * Book.OrderBook float);
  subscriptions : list (string * list SSESubscription);
  clients : list (Z * Channel);
  client_streams : list (Z * list string)
}.

Definition initialize_symbol (sm : SSEStreamManager) (sym : string) (rng : Book.Rng) (now : Z)
    : SSEStreamManager :=
  let ob := Book.initialize_with_sample_data (Book.OrderBook_new sym) rng now in
  mkSM (Assoc.insert (order_books sm) sym ob) (subscriptions sm) (clients sm)
    (client_streams sm).

Definition data_type_debug (dt : DataType) : string :=
  match dt with MBO => "MBO" | MBP => "MBP" end.

(** [format!("{}_{:?}_{}", symbol, data_type, max_levels)]. *)
Definition stream_name (sym : string) (dt : DataType) (ml : Z) : string :=
  sym +:+ "_" +:+ data_type_debug dt +:+ "_" +:+ pretty ml.

(** One iteration of the loop of [subscribe_to_streams]. *)
Definition subscribe_one (sm : SSEStreamManager) (rng : Book.Rng) (now : Z) (cid : Z)
    (sym : string) (dt : DataType) (ml : Z) : SSEStreamManager * result unit string :=
  let sm1 := if Assoc.contains_key (order_books sm) sym then sm
             else initialize_symbol sm sym rng now in
  let sid := stream_name sym dt ml in
  let sub := mkSub sid sym dt ml cid in
  let sm2 := mkSM (order_books sm1) (Assoc.push (subscriptions sm1) sym sub) (clients sm1)
               (Assoc.push (client_streams sm1) cid sid) in
  match Assoc.lookup (order_books sm2) sym with
  | Some ob =>
      match Assoc.lookup (clients sm2) cid with
      | Some c =>
          let msg := MarketData sid sym (market_data ob dt ml now) (Book.sequence ob) now in
          match ch_send c msg with
          | Some c' =>
              (mkSM (order_books sm2) (subscriptions sm2) (Assoc.insert (clients sm2) cid c')
                 (client_streams sm2), Ok tt)
          | None => (sm2, Err "Failed to send initial snapshot")
          end
      | None => (sm2, Ok tt)
      end
  | None => (sm2, Ok tt)
  end.

(** [SSEStreamManager::subscribe_to_streams]: the first failed send returns
    its error at once. *)
Fixpoint subscribe_to_streams (sm : SSEStreamManager) (rng : Book.Rng) (now : Z) (cid : Z)
    (defs : list (string * DataType * Z)) : SSEStreamManager * result unit string :=
  match defs with
  | [] => (sm, Ok tt)
  | (sym, dt, ml) :: r =>
      match subscribe_one sm rng now cid sym dt ml with
      | (sm', Ok _) => subscribe_to_streams sm' rng now cid r
      | (sm', Err e) => (sm', Err e)
      end
  end.

(** [SSEStreamManager::remove_subscription]: the loop with its [break],
    then [retain(|_, v| !v.is_empty())]. *)
Fixpoint remove_go (l : list (string * list SSESubscription)) (cid : Z) (sid : string)
    : list (string * list SSESubscription) :=
  match l with
  | [] => []
  | (k, v) :: r =>
      let v' := filter (fun s => bool_decide (client_id s = cid /\ stream_id s = sid) = false) v in
      if negb (Nat.eqb (length v') (length v)) then (k, v') :: r
      else (k, v') :: remove_go r cid sid
  end.

Definition remove_subscription (sm : SSEStreamManager) (cid : Z) (sid : string)
    : SSEStreamManager :=
  let l := remove_go (subscriptions sm) cid sid in
  mkSM (order_books sm)
    (Assoc.retain (fun _ v => negb (Nat.eqb (length v) 0)) l)
    (clients sm) (client_streams sm).

End SSE.

(** ** Derived notions on the order book *)
Module BookExt.
Import Book.

Section G.
Context {P : Type} `{Ord P}.

(** Every indexed order rests, under its key, in the slot of its side at
    its price. *)
Definition index_complete (b : OrderBook P) : Prop :=
  forall x o, orders b !! x = Some o ->
    exists v, In (price o, v) (ladder_of b (side o)) /\ In x v.

(** The best price of a side, as [get_best_bid_ask] reports it. *)
Definition best_of (b : OrderBook P) (sd : Side) : option P :=
  match sd with Bid => fst (get_best_bid_ask b) | Ask => snd (get_best_bid_ask b) end.

(** The comparison that makes a price worse than the best one of a side. *)
Definition worse (sd : Side) : comparison := match sd with Bid => Lt | Ask => Gt end.

End G.
End BookExt.

(** ** [OrderActivity] and the market simulation of [order_book.rs] *)
Module Activity.
Import Book.

Inductive ActivityType := Add | Update | Cancel.

(** [OrderActivity] of [backend-sse/src/message.rs]. *)
Record OrderActivity := mkActivity {
  activity_type : ActivityType;
  order_id : string;
  symbol : string;
  price : option float;
  quantity : option Z;
  side : option Side;
  timestamp : Z
}.

(** [OrderBook::execute_activity]; [now] is the [Utc::now()] read by
    [Order::new] and by [update_order]. *)
Definition execute_activity (b : OrderBook float) (a : OrderActivity) (now : Z)
    : OrderBook float :=
  match activity_type a with
  | Add =>
      match price a, quantity a, side a with
      | Some p, Some q, Some sd => fst (add_order b (Order_new (order_id a) p q sd now))
      | _, _, _ => b
      end
  | Update =>
      match quantity a with
      | Some q => fst (update_order b (order_id a) q now)
      | None => b
      end
  | Cancel => fst (remove_order b (order_id a))
  end.

Open Scope float_scope.

(** [f64::max]: a NaN operand yields the other one. *)
Definition f64_max (x y : float) : float :=
  if PrimFloat.is_nan x then y
  else if PrimFloat.is_nan y then x
  else if PrimFloat.ltb x y then y else x.

(** A draw of [rng.gen::<f64>()], in [0, 1). *)
Definition unit_draw (r : float) : Prop := (0 <=? r) = true /\ (r <? 1) = true.

(** [mid_price] of [generate_random_activity]. *)
Definition mid_price (b : OrderBook float) : float :=
  match get_best_bid_ask b with
  | (Some bid, Some ask) => (bid + ask) / 2.0
  | _ => 100.0
  end.

(** [base_price] of the new-order branch. *)
Definition add_base_price (b : OrderBook float) (sd : Side) : float :=
  match sd, get_best_bid_ask b with
  | Bid, (Some bid, _) => bid
  | Ask, (_, Some ask) => ask
  | _, _ => mid_price b
  end.

Close Scope float_scope.

(** [format!("order_{}_{}", Utc::now().timestamp_millis(), rng.gen::<u32>())]. *)
Definition fresh_order_id (now u : Z) : string := "order_" +:+ pretty now +:+ "_" +:+ pretty u.

(** The new-order branch, from the draws [v] ([price_variation]), [q]
    ([quantity]) and [u] (the id suffix). *)
Definition add_activity (b : OrderBook float) (sd : Side) (v : float) (q now u : Z)
    : OrderActivity :=
  let price_variation := ((v - 0.5) * 0.2)%float in
  let p := f64_max (add_base_price b sd + price_variation)%float 0.01%float in
  mkActivity Add (fresh_order_id now u) (Book.symbol b)
    (Some (f64_round (p * 100.0) / 100.0)%float) (Some q) (Some sd) now.

(** [order.quantity as i64]: a [u64] reinterpreted as a two's complement
    [i64]. *)
Definition u64_as_i64 (q : Z) : Z := if Z.ltb q (2 ^ 63) then q else q - 2 ^ 64.

(** [i64] addition of a release build. *)
Definition i64_wrap (z : Z) : Z := (z + 2 ^ 63) mod 2 ^ 64 - 2 ^ 63.

(** The update branch, from the draw [delta] of [gen_range(-2000..=1000)]. *)
Definition update_activity (b : OrderBook float) (x : string) (o : Order float) (delta now : Z)
    : OrderActivity :=
  let new_quantity := Z.max (i64_wrap (u64_as_i64 (Book.quantity o) + delta)) 0 in
  mkActivity (if Z.ltb 0 new_quantity then Update else Cancel) x (Book.symbol b) None
    (if Z.ltb 0 new_quantity then Some new_quantity else None) None now.

(** The cancellation branch. *)
Definition cancel_activity (b : OrderBook float) (x : string) (now : Z) : OrderActivity :=
  mkActivity Cancel x (Book.symbol b) None None None now.

Definition side_of_bit (bit : bool) : Side := if bit then Bid else Ask.

(** [OrderBook::generate_random_activity] as the relation between the book,
    the time and the activities a run of the generator can return. The
    draws are the constructors' arguments, each within the range of its
    [gen] call; [ids] is [self.orders.keys().cloned().collect()], the keys
    in the (unspecified) iteration order of the [HashMap]; the two
    recursive calls may read a later clock. *)
Inductive generate_random_activity (b : OrderBook float) : Z -> OrderActivity -> Prop :=
  | gen_add now r bit v q u :
      unit_draw r -> (r <? 0.4)%float = true ->
      unit_draw v -> 1000 <= q <= 10000 -> 0 <= u < 2 ^ 32 ->
      generate_random_activity b now (add_activity b (side_of_bit bit) v q now u)
  | gen_update now r (bit : bool) (ids : list string) i x o delta :
      unit_draw r -> (r <? 0.4)%float = false ->
      (r <? 0.7)%float = true -> orders b <> ∅ ->
      ids ≡ₚ (map_to_list (orders b)).*1 -> ids !! i = Some x ->
      orders b !! x = Some o -> -2000 <= delta <= 1000 ->
      generate_random_activity b now (update_activity b x o delta now)
  | gen_update_retry now r (bit : bool) (ids : list string) i x now' a :
      unit_draw r -> (r <? 0.4)%float = false ->
      (r <? 0.7)%float = true -> orders b <> ∅ ->
      ids ≡ₚ (map_to_list (orders b)).*1 -> ids !! i = Some x ->
      orders b !! x = None -> now <= now' ->
      generate_random_activity b now' a -> generate_random_activity b now a
  | gen_cancel now r (bit : bool) (ids : list string) i x :
      unit_draw r -> (r <? 0.4)%float = false ->
      (r <? 0.7)%float = false -> orders b <> ∅ ->
      ids ≡ₚ (map_to_list (orders b)).*1 -> ids !! i = Some x ->
      generate_random_activity b now (cancel_activity b x now)
  | gen_retry now r (bit : bool) now' a :
      unit_draw r -> (r <? 0.4)%float = false -> orders b = ∅ -> now <= now' ->
      generate_random_activity b now' a -> generate_random_activity b now a.

(** The loop of [OrderBook::simulate_activity]: each activity is generated
    from the current book and then executed on it. *)
Inductive simulate_loop : OrderBook float -> list OrderActivity -> OrderBook float -> Prop :=
  | sim_done b : simulate_loop b [] b
  | sim_step b t t' a acts b' :
      generate_random_activity b t a ->
      simulate_loop (execute_activity b a t') acts b' ->
      simulate_loop b (a :: acts) b'.

(** [OrderBook::simulate_activity]: [num_activities] is drawn from
    [1..=8]. *)
Definition simulate_activity (b : OrderBook float) (acts : list OrderActivity)
    (b' : OrderBook float) : Prop :=
  (1 <= length acts <= 8)%nat /\ simulate_loop b acts b'.

End Activity.

(** ** Key removal in the [DashMap]s: [DashMap::remove] *)
Module AssocExt.
Definition remove {K V : Type} `{EqDecision K} (l : list (K * V)) (k : K) : list (K * V) :=
  filter (fun kv => kv.1 <> k) l.
End AssocExt.

(** ** [backend/src/stream_manager.rs], continued *)
Module RegistryExt.
Import Registry.

(** [StreamManager::unregister_client]. *)
Definition unregister_client (sm : StreamManager) (cid : Z) : StreamManager :=
  let cl := AssocExt.remove (clients sm) cid in
  let l := map (fun kv => (kv.1, filter (fun s => client_id s <> cid) kv.2)) (subscriptions sm) in
  mkSM (order_books sm) (Assoc.retain (fun _ v => negb (Nat.eqb (length v) 0)) l) cl.

(** The [ServerMessage::MarketData] that [start_market_simulation] builds for
    a subscription of [sym], from the book after the round of activity. *)
Definition update_message (sym : string) (ob : Book.OrderBook float) (now : Z)
    (s : Subscription) : ServerMessage :=
  MarketData (stream_id s) sym (market_data ob (data_type s) (max_levels s) now)
    (Book.sequence ob) now.

(** The send loop over [symbol_subscriptions]: a subscription of an
    unregistered client is skipped, a failed send is only logged. The
    [Utc::now()] readings of the loop are the one argument [now]. *)
Fixpoint send_updates (cl : list (Z * Channel)) (sym : string) (ob : Book.OrderBook float)
    (now : Z) (subs : list Subscription) : list (Z * Channel) :=
  match subs with
  | [] => cl
  | s :: r =>
      let cl' := match Assoc.lookup cl (client_id s) with
                 | Some c =>
                     match ch_send c (update_message sym ob now s) with
                     | Some c' => Assoc.insert cl (client_id s) c'
                     | None => cl
                     end
                 | None => cl
                 end in
      send_updates cl' sym ob now r
  end.

(** One pass of the loop of [start_market_simulation] over the entries of
    [order_books], in iteration order: a round of [simulate_activity] on the
    entry's book, then the send loop over the symbol's subscriptions. The
    broadcast of the activities ([activity_broadcast.send]) has no receiver
    in this model; its result is ignored by the code. *)
Inductive market_pass : list (string * Book.OrderBook float) -> StreamManager ->
    StreamManager -> Prop :=
  | pass_done sm : market_pass [] sm sm
  | pass_step sym b rest sm acts b' now sm' :
      Activity.simulate_activity b acts b' ->
      market_pass rest
        (mkSM (Assoc.insert (order_books sm) sym b') (subscriptions sm)
           (send_updates (clients sm) sym b' now
              (default [] (Assoc.lookup (subscriptions sm) sym)))) sm' ->
      market_pass ((sym, b) :: rest) sm sm'.

(** The stream id a [ServerMessage::MarketData] is sent for. *)
Definition update_stream (m : ServerMessage) : option string :=
  match m with MarketData sid _ _ _ _ => Some sid | HeartBeat _ => None end.

(** One tick of the simulation interval. *)
Definition market_tick (sm sm' : StreamManager) : Prop := market_pass (order_books sm) sm sm'.

End RegistryExt.

(** ** [backend-sse/src/stream_manager.rs], continued *)
Module SSEExt.
Import SSE.

(** [SSEStreamManager::register_client]. *)
Definition register_client (sm : SSEStreamManager) (cid : Z) (c : Channel) : SSEStreamManager :=
  mkSM (order_books sm) (subscriptions sm) (Assoc.insert (clients sm) cid c)
    (Assoc.insert (client_streams sm) cid []).

(** [SSEStreamManager::unregister_client]: the client's entry of
    [client_streams] is removed, each of its tracked streams goes through
    [remove_subscription], then the client is removed. *)
Definition unregister_client (sm : SSEStreamManager) (cid : Z) : SSEStreamManager :=
  let sm0 := mkSM (order_books sm) (subscriptions sm) (clients sm)
               (AssocExt.remove (client_streams sm) cid) in
  let sm1 := match Assoc.lookup (client_streams sm) cid with
             | Some streams => fold_left (fun s sid => remove_subscription s cid sid) streams sm0
             | None => sm0
             end in
  mkSM (order_books sm1) (subscriptions sm1) (AssocExt.remove (clients sm1) cid)
    (client_streams sm1).

(** The managers the server can reach from [SSEStreamManager::new] and
    [start]: [sse_handler] registers a fresh [Uuid::new_v4()] (one that
    [client_streams] does not hold) and subscribes it, [SSEStream] unregisters
    it at the end of its stream; the remaining operations (initialize_symbol,
    the market simulation and heartbeat loops, send_connection_info, a client
    dropping its receiver) change only the books and the channels. *)
Inductive reachable : SSEStreamManager -> Prop :=
  | reach_new obs : reachable (mkSM obs [] [] [])
  | reach_register sm cid c :
      reachable sm -> Assoc.lookup (client_streams sm) cid = None ->
      reachable (register_client sm cid c)
  | reach_subscribe sm rng now cid defs :
      reachable sm -> reachable (fst (subscribe_to_streams sm rng now cid defs))
  | reach_unregister sm cid : reachable sm -> reachable (unregister_client sm cid)
  | reach_books_clients sm obs cl :
      reachable sm -> reachable (mkSM obs (subscriptions sm) cl (client_streams sm)).

(** The number of entries of [subscriptions] that hold a subscription of
    client [cid] to stream [sid]. *)
Definition held (l : list (string * list SSESubscription)) (cid : Z) (sid : string) : nat :=
  length (filter (fun kv => existsb (fun s => bool_decide (client_id s = cid /\ stream_id s = sid))
                              kv.2 = true) l).

(** The number of times [sid] is tracked for [cid] in [client_streams]. *)
Definition tracked (cs : list (Z * list string)) (cid : Z) (sid : string) : nat :=
  length (filter (fun x => x = sid) (default [] (Assoc.lookup cs cid))).

(** Every subscription is tracked: each entry holding a subscription of
    [cid] to [sid] is matched by an occurrence of [sid] among the streams
    tracked for [cid]. *)
Definition all_tracked (sm : SSEStreamManager) : Prop :=
  forall cid sid, (held (subscriptions sm) cid sid <= tracked (client_streams sm) cid sid)%nat.

(** The [SSEMessage::MarketData] stream id of a message. *)
Definition message_stream (m : SSEMessage) : option string :=
  match m with MarketData sid _ _ _ _ => Some sid | HeartBeat _ => None end.

End SSEExt.

(** ** [backend-sse/src/message.rs]: [StreamQuery] *)
Module Query.

Record StreamQuery := mkQuery {
  streams : option string;
  symbols : option string;
  data_type : option string;
  max_levels : option Z
}.

(** [str::split] on a one-character pattern. *)
Fixpoint split_on (c : ascii) (s : string) : list string :=
  match s with
  | EmptyString => [EmptyString]
  | String a r =>
      let ws := split_on c r in
      if decide (a = c) then EmptyString :: ws
      else match ws with
           | w :: ws' => String a w :: ws'
           | [] => [String a EmptyString]
           end
  end.

(** Strings are the UTF-8 bytes of Rust's [&str]. [char::is_whitespace] is
    the Unicode White_Space property: the one-byte characters U+0009 to
    U+000D and U+0020 ([Ascii.is_space]), the two-byte U+0085 and U+00A0,
    and the three-byte U+1680, U+2000 to U+200A, U+2028, U+2029, U+202F,
    U+205F and U+3000. *)
Definition ws2 (a b : ascii) : bool :=
  let x := Ascii.nat_of_ascii a in
  let y := Ascii.nat_of_ascii b in
  (x =? 194)%nat && ((y =? 133)%nat || (y =? 160)%nat).

Definition ws3 (a b c : ascii) : bool :=
  let x := Ascii.nat_of_ascii a in
  let y := Ascii.nat_of_ascii b in
  let z := Ascii.nat_of_ascii c in
  ((x =? 225)%nat && (y =? 154)%nat && (z =? 128)%nat) ||
  ((x =? 226)%nat && (y =? 128)%nat &&
     ((128 <=? z)%nat && (z <=? 138)%nat || (z =? 168)%nat || (z =? 169)%nat || (z =? 175)%nat)) ||
  ((x =? 226)%nat && (y =? 129)%nat && (z =? 159)%nat) ||
  ((x =? 227)%nat && (y =? 128)%nat && (z =? 128)%nat).

(** [str::trim_start]: drops leading white-space characters. *)
Fixpoint trim_start (s : string) : string :=
  match s with
  | String a r =>
      if Ascii.is_space a then trim_start r else
      match r with
      | String b r2 =>
          if ws2 a b then trim_start r2 else
          match r2 with
          | String c r3 => if ws3 a b c then trim_start r3 else s
          | EmptyString => s
          end
      | EmptyString => s
      end
  | EmptyString => EmptyString
  end.

(** The same on a reversed string, whose first bytes are the last bytes
    of a character, in reverse order. *)
Fixpoint trim_rev_start (s : string) : string :=
  match s with
  | String x r =>
      if Ascii.is_space x then trim_rev_start r else
      match r with
      | String y r2 =>
          if ws2 y x then trim_rev_start r2 else
          match r2 with
          | String z r3 => if ws3 z y x then trim_rev_start r3 else s
          | EmptyString => s
          end
      | EmptyString => s
      end
  | EmptyString => EmptyString
  end.

(** [str::trim]: drops leading and trailing white-space characters. *)
Definition trim (s : string) : string := String.rev (trim_rev_start (String.rev (trim_start s))).

Definition ascii_upper (a : ascii) : ascii :=
  let n := Ascii.nat_of_ascii a in
  if (97 <=? n)%nat && (n <=? 122)%nat then Ascii.ascii_of_nat (n - 32) else a.

(** [str::to_uppercase] on ASCII letters (no other character upper-cases to
    one of the letters of "MBO", the only string it is compared with). *)
Fixpoint to_uppercase (s : string) : string :=
  match s with
  | EmptyString => EmptyString
  | String a r => String (ascii_upper a) (to_uppercase r)
  end.

Fixpoint digits_go (acc : Z) (s : string) : option Z :=
  match s with
  | EmptyString => Some acc
  | String a r =>
      match Ascii.is_nat a with
      | Some d => digits_go (acc * 10 + Z.of_nat d) r
      | None => None
      end
  end.

(** [str::parse::<u32>]: an optional [+], then at least one decimal digit,
    with a value below [2^32]. *)
Definition parse_u32 (s : string) : option Z :=
  let body := match s with
              | String a r => if decide (a = "+"%char) then r else s
              | EmptyString => s
              end in
  match body with
  | EmptyString => None
  | _ =>
      match digits_go 0 body with
      | Some v => if Z.leb v (2 ^ 32 - 1) then Some v else None
      | None => None
      end
  end.

(** [StreamQuery::get_default_data_type]: an exact match. *)
Definition get_default_data_type (q : StreamQuery) : DataType :=
  match data_type q with
  | Some s => if decide (s = "MBO") then MBO else MBP
  | None => MBP
  end.

(** [match parts[1].to_uppercase().as_str() { "MBO" => MBO, _ => MBP }]. *)
Definition parse_data_type (p1 : string) : DataType :=
  if decide (to_uppercase p1 = "MBO") then MBO else MBP.

(** The body of the loop over [stream_str.split(',')]. *)
Definition stream_entry (q : StreamQuery) (stream_def : string)
    : option (string * DataType * Z) :=
  match split_on ":" (trim stream_def) with
  | [] => None
  | sym :: rest =>
      let dt := match rest with
                | p1 :: _ => parse_data_type p1
                | [] => get_default_data_type q
                end in
      let ml := match rest with
                | _ :: p2 :: _ => default (default 20 (max_levels q)) (parse_u32 p2)
                | _ => default 20 (max_levels q)
                end in
      Some (sym, dt, ml)
  end.

(** [StreamQuery::parse_streams]. *)
Definition parse_streams (q : StreamQuery) : list (string * DataType * Z) :=
  match streams q with
  | Some stream_str => omap (stream_entry q) (split_on "," stream_str)
  | None =>
      match symbols q with
      | Some symbols_str =>
          let dt := get_default_data_type q in
          let ml := default 20 (max_levels q) in
          map (fun sym => (trim sym, dt, ml)) (split_on "," symbols_str)
      | None => []
      end
  end.

(** The stream definitions [sse_handler] subscribes a new client to. *)
Definition handler_streams (q : StreamQuery) : list (string * DataType * Z) :=
  match parse_streams q with
  | [] => [("BTCUSD", MBP, 20)]
  | defs => defs
  end.

(** The number of occurrences of a character. *)
Fixpoint count_char (c : ascii) (s : string) : nat :=
  match s with
  | EmptyString => 0
  | String a r => (if decide (a = c) then 1 else 0) + count_char c r
  end.

(** Whether every character of a string satisfies [f]. *)
Fixpoint all_chars (f : ascii -> bool) (s : string) : bool :=
  match s with
  | EmptyString => true
  | String a r => f a && all_chars f r
  end.

(** A character that may appear in a symbol or type of a stream
    definition: neither of the separators. *)
Definition plain_char (a : ascii) : bool :=
  negb (bool_decide (a = ","%char)) && negb (bool_decide (a = ":"%char)).

(** A stream definition written in the documented [symbol:type:levels]
    form, here with any spelling of the type, and a list of them joined by
    commas. *)
Definition render_def (d : string * string * Z) : string :=
  let '(sym, tok, ml) := d in sym +:+ ":" +:+ tok +:+ ":" +:+ pretty ml.

Fixpoint render_defs (defs : list (string * string * Z)) : string :=
  match defs with
  | [] => ""
  | [d] => render_def d
  | d :: r => render_def d +:+ "," +:+ render_defs r
  end.

End Query.

(** ** The f64 prices on which [OrderedFloat] is a total order

    [partial_cmp(..).unwrap_or(Equal)] makes a NaN equal to every float,
    and -0.0 equal to 0.0 although the two floats differ. On the floats that
    are neither NaN nor -0.0 the comparison is a total order whose equality
    is that of the floats ([OrdLaws]): these are the prices for which the
    ladders are the sorted maps the code expects. The results on the book
    that need such an order are proved for any price type that has one and
    carried over to the f64 book through the subtype [OFloat] of these
    floats, for books whose added prices are all of them. On every float
    the comparison is still antisymmetric and [Lt] is transitive, which is
    all the sortedness of the ladder keys needs. *)
Module OrdinaryFloat.
Import Book.

(** Neither NaN nor -0.0. *)
Definition ordinary (x : float) : bool :=
  match Prim2SF x with
  | S754_nan => false
  | S754_zero true => false
  | _ => true
  end.

Definition OFloat : Type := {x : float | ordinary x = true}.

Definition oval (a : OFloat) : float := proj1_sig a.

#[export] Instance OFloat_Ord : Ord OFloat := fun a b => cmp (oval a) (oval b).

(** Every price the operations add is ordinary. *)
Definition op_ordinary (op : Op float) : bool :=
  match op with OpAdd o => ordinary (price o) | OpUpdate _ _ _ | OpRemove _ => true end.

Definition ops_ordinary (ops : list (Op float)) : bool := forallb op_ordinary ops.

(** A book over one price type seen over another, through [f]. *)
Section M.
Context {P Q : Type} (f : P -> Q).

Definition map_order (o : Order P) : Order Q :=
  mkOrder (id o) (f (price o)) (quantity o) (side o) (timestamp o) (original_quantity o).

Definition map_ladder (l : Ladder P) : Ladder Q := map (fun kv => (f kv.1, kv.2)) l.

Definition map_book (b : OrderBook P) : OrderBook Q :=
  mkBook (symbol b) (map_order <$> orders b) (map_ladder (bids_by_price b))
    (map_ladder (asks_by_price b)) (sequence b).

Definition map_op (op : Op P) : Op Q :=
  match op with
  | OpAdd o => OpAdd (map_order o)
  | OpUpdate x q now => OpUpdate x q now
  | OpRemove x => OpRemove x
  end.

Definition map_mbp (e : MBPLevel P) : MBPLevel Q :=
  mkMBP (f (mbp_price e)) (mbp_quantity e) (mbp_order_count e) (mbp_side e)
    (mbp_total_quantity e) (mbp_avg_age_ms e).

Definition map_mbo (e : MBOLevel P) : MBOLevel Q :=
  mkMBO (mbo_order_id e) (f (mbo_price e)) (mbo_quantity e) (mbo_side e)
    (mbo_timestamp e) (mbo_age_ms e).

End M.

(** The lexicographic comparison of triples, and an order-preserving key
    of the specification floats, for the proofs about [SFcompare]. *)
Definition cmp3 (a b : Z * Z * Z) : comparison :=
  let '(a1, a2, a3) := a in
  let '(b1, b2, b3) := b in
  match Z.compare a1 b1 with
  | Eq => match Z.compare a2 b2 with Eq => Z.compare a3 b3 | c => c end
  | c => c
  end.

Definition sf_key (x : spec_float) : Z * Z * Z :=
  match x with
  | S754_infinity true => (0, 0, 0)
  | S754_finite true m e => (1, - e, Z.neg m)
  | S754_zero _ => (2, 0, 0)
  | S754_finite false m e => (3, e, Z.pos m)
  | S754_infinity false => (4, 0, 0)
  | S754_nan => (5, 0, 0)
  end.

(** Both ladders have strictly ascending keys. *)
Definition ladders_sorted {P : Type} `{Ord P} (b : OrderBook P) : Prop :=
  sorted_keys (bids_by_price b) /\ sorted_keys (asks_by_price b).

End OrdinaryFloat.

(** ** Concrete inputs *)

Module Samples.
Import Book.

Definition o_b1 : Order Z := mkOrder "b1" 10000 500 Bid 0 500.
Definition o_b1' : Order Z := mkOrder "b1" 10002 700 Bid 0 700.
Definition o_a1 : Order Z := mkOrder "a1" 10005 300 Ask 0 300.

Definition ops_small : list (Op Z) :=
  [OpAdd o_b1; OpAdd o_a1; OpUpdate "a1" 250 10; OpRemove "zz"].

(** Two bids of 2^63 each: their level quantities fit in [u64], their sum
    does not. *)
Definition big_bids : list (Op float) :=
  [OpAdd (mkOrder "b1" 2.0%float (2 ^ 63) Bid 0 (2 ^ 63));
   OpAdd (mkOrder "b2" 1.0%float (2 ^ 63) Bid 0 (2 ^ 63))].

(** The same mutations over f64 prices. *)
Definition o_b1f : Order float := mkOrder "b1" 100.0%float 500 Bid 0 500.
Definition o_b1f' : Order float := mkOrder "b1" 100.02%float 700 Bid 0 700.
Definition o_a1f : Order float := mkOrder "a1" 100.05%float 300 Ask 0 300.

Definition ops_small_f : list (Op float) :=
  [OpAdd o_b1f; OpAdd o_a1f; OpUpdate "a1" 250 10; OpRemove "zz"].

(** A bid at 99.75, then a bid with a NaN price. *)
Definition o_bn : Order float := mkOrder "bn" PrimFloat.nan 100 Bid 0 100.

Definition ops_nan : list (Op float) :=
  [OpAdd (mkOrder "b1" 99.75%float 500 Bid 0 500); OpAdd o_bn].

(** An order [X] at 99.5 and its replacement at a NaN price. *)
Definition o_x1 : Order float := mkOrder "X" 99.5%float 10 Bid 0 10.
Definition o_xn : Order float := mkOrder "X" PrimFloat.nan 20 Bid 0 20.

Definition ops_a : list (Op float) := [OpAdd (mkOrder "a" 99.75%float 500 Bid 0 500)].

(** A generator that always draws the lower bound of the range. *)
Definition rng0 : Rng := fun _ lo _ => lo.

(** The sample book it produces, at time 0. *)
Definition book0 : OrderBook float :=
  initialize_with_sample_data (OrderBook_new "") rng0 0.

End Samples.

(** * Proofs *)

Module BookFacts.
Import Book.

Section Laws.
Context {P : Type} `{OrdLaws P}.

Lemma cmp_refl (x : P) : cmp x x = Eq.
Proof. apply cmp_eq_iff. reflexivity. Qed.

Lemma cmp_gt_lt (x y : P) : cmp x y = Gt -> cmp y x = Lt.
Proof. intros Hg. rewrite cmp_antisym, Hg. reflexivity. Qed.

Lemma cmp_lt_neq (x y : P) : cmp x y = Lt -> x <> y.
Proof. intros Hl ->. rewrite cmp_refl in Hl. discriminate. Qed.

Lemma push_keys (l : Ladder P) k x kv :
  In kv (ladder_push l k x) -> kv.1 = k \/ exists v, In (kv.1, v) l.
Proof.
  induction l as [|[k' v] r IH]; simpl.
  - intros [<-|[]]. left; reflexivity.
  - destruct (cmp k k') eqn:Hc; simpl.
    + apply cmp_eq_iff in Hc. subst k'.
      intros [<-|Hin]; [left; reflexivity|right; exists kv.2; right; destruct kv; exact Hin].
    + intros [<-|[<-|Hin]]; [left; reflexivity|right; exists v; left; reflexivity|].
      right. exists kv.2. right. destruct kv. exact Hin.
    + intros [<-|Hin]; [right; exists v; left; reflexivity|].
      destruct (IH Hin) as [Hk|[v' Hv']]; [left; exact Hk|right; exists v'; right; exact Hv'].
Qed.

Lemma retain_keys (l : Ladder P) k x kv :
  In kv (ladder_retain l k x) -> exists v, In (kv.1, v) l.
Proof.
  induction l as [|[k' v] r IH]; simpl; [intros []|].
  destruct (cmp k k'); simpl.
  - destruct (filter _ v) as [|i v'] eqn:Hf; simpl.
    + intros Hin. exists kv.2. right. destruct kv; exact Hin.
    + intros [<-|Hin]; [exists v; left; reflexivity|].
      exists kv.2. right. destruct kv; exact Hin.
  - intros [<-|Hin]; [exists v; left; reflexivity|].
    exists kv.2. right. destruct kv; exact Hin.
  - intros [<-|Hin]; [exists v; left; reflexivity|].
    destruct (IH Hin) as [v' Hv']. exists v'. right. exact Hv'.
Qed.

Lemma sorted_keys_forall (l : Ladder P) (Q : P -> Prop) :
  (forall kv, In kv l -> Q kv.1) -> Forall (fun kv => Q kv.1) l.
Proof. intros Hq. apply Forall_forall. intros kv Hin. apply list_elem_of_In in Hin. auto. Qed.

Lemma forall_keys (l : Ladder P) (Q : P -> Prop) :
  Forall (fun kv => Q kv.1) l -> forall k v, In (k, v) l -> Q k.
Proof.
  intros Hf k v Hin. rewrite Forall_forall in Hf.
  apply (Hf (k, v)). apply list_elem_of_In. exact Hin.
Qed.

Lemma push_sorted (l : Ladder P) k x :
  sorted_keys l -> sorted_keys (ladder_push l k x).
Proof.
  induction l as [|[k' v] r IH]; simpl.
  - intros _. split; [constructor|exact I].
  - intros [Hf Hs]. destruct (cmp k k') eqn:Hc; simpl.
    + split; assumption.
    + split; [|split; assumption].
      constructor; [exact Hc|].
      apply (sorted_keys_forall r (fun y => cmp k y = Lt)). intros kv Hin. apply (cmp_lt_trans _ k').
      * exact Hc.
      * apply (forall_keys r (fun y => cmp k' y = Lt) Hf kv.1 kv.2). destruct kv; exact Hin.
    + split; [|apply IH; exact Hs].
      apply (sorted_keys_forall (ladder_push r k x) (fun y => cmp k' y = Lt)). intros kv Hin.
      destruct (push_keys r k x kv Hin) as [Hk|[v' Hv']].
      * rewrite Hk. apply cmp_gt_lt. exact Hc.
      * exact (forall_keys r (fun y => cmp k' y = Lt) Hf _ _ Hv').
Qed.

Lemma retain_sorted (l : Ladder P) k x :
  sorted_keys l -> sorted_keys (ladder_retain l k x).
Proof.
  induction l as [|[k' v] r IH]; simpl; [auto|].
  intros [Hf Hs]. destruct (cmp k k'); simpl.
  - destruct (filter _ v); simpl; [exact Hs|split; assumption].
  - split; assumption.
  - split; [|apply IH; exact Hs].
    apply (sorted_keys_forall (ladder_retain r k x) (fun y => cmp k' y = Lt)). intros kv Hin.
    destruct (retain_keys r k x kv Hin) as [v' Hv'].
    exact (forall_keys r (fun y => cmp k' y = Lt) Hf _ _ Hv').
Qed.

Lemma push_nonempty (l : Ladder P) k x :
  slots_nonempty l -> slots_nonempty (ladder_push l k x).
Proof.
  unfold slots_nonempty. induction l as [|[k' v] r IH]; simpl; intros Hf.
  - constructor; [discriminate|constructor].
  - inversion Hf as [|? ? Hv Hr]; subst. destruct (cmp k k').
    + constructor; [simpl; destruct v; discriminate|exact Hr].
    + constructor; [discriminate|exact Hf].
    + constructor; [exact Hv|apply IH; exact Hr].
Qed.

Lemma retain_nonempty (l : Ladder P) k x :
  slots_nonempty l -> slots_nonempty (ladder_retain l k x).
Proof.
  unfold slots_nonempty. induction l as [|[k' v] r IH]; simpl; intros Hf; [exact Hf|].
  inversion Hf as [|? ? Hv Hr]; subst. destruct (cmp k k').
  - destruct (filter _ v); [exact Hr|constructor; [discriminate|exact Hr]].
  - exact Hf.
  - constructor; [exact Hv|apply IH; exact Hr].
Qed.

Lemma sorted_tail_lt (k0 : P) v0 (r : Ladder P) k' v' :
  sorted_keys ((k0, v0) :: r) -> In (k', v') r -> cmp k0 k' = Lt.
Proof.
  intros [Hf _] Hin. exact (forall_keys r (fun y => cmp k0 y = Lt) Hf _ _ Hin).
Qed.

(** An id found in a slot after [ladder_push] is the pushed one, at the
    pushed key, or was already in the slot with that key. *)
Lemma push_in (l : Ladder P) k x k' v' y :
  In (k', v') (ladder_push l k x) -> In y v' ->
  (y = x /\ k' = k) \/ exists v, In (k', v) l /\ In y v.
Proof.
  induction l as [|[k0 v0] r IH]; simpl.
  - intros [Heq|[]] Hy. injection Heq as <- <-. destruct Hy as [<-|[]]. left; auto.
  - destruct (cmp k k0) eqn:Hc.
    + apply cmp_eq_iff in Hc. subst k0. intros [Heq|Hin] Hy.
      * injection Heq as <- <-. apply in_app_or in Hy as [Hy|[<-|[]]].
        -- right. exists v0. split; [left; reflexivity|exact Hy].
        -- left; auto.
      * right. exists v'. split; [right; exact Hin|exact Hy].
    + intros [Heq|Hin] Hy.
      * injection Heq as <- <-. destruct Hy as [<-|[]]. left; auto.
      * right. exists v'. split; [exact Hin|exact Hy].
    + intros [Heq|Hin] Hy.
      * injection Heq as <- <-. right. exists v0. split; [left; reflexivity|exact Hy].
      * destruct (IH Hin Hy) as [Hx|[v Hv]]; [left; exact Hx|].
        right. exists v. split; [right; apply Hv|apply Hv].
Qed.

(** [ladder_push] leaves the pushed id in the slot of the pushed key. *)
Lemma push_contains (l : Ladder P) k x :
  exists v, In (k, v) (ladder_push l k x) /\ In x v.
Proof.
  induction l as [|[k0 v0] r IH]; simpl.
  - exists [x]. split; left; reflexivity.
  - destruct (cmp k k0) eqn:Hc.
    + apply cmp_eq_iff in Hc. subst k0. exists (v0 ++ [x]).
      split; [left; reflexivity|apply in_or_app; right; left; reflexivity].
    + exists [x]. split; left; reflexivity.
    + destruct IH as [v [Hv Hx]]. exists v. split; [right; exact Hv|exact Hx].
Qed.

(** An id found in a slot after [ladder_retain] was in the slot with that
    key, and is not the removed id if the key is the one retained. *)
Lemma retain_in (l : Ladder P) k x k' v' y :
  sorted_keys l -> In (k', v') (ladder_retain l k x) -> In y v' ->
  exists v, In (k', v) l /\ In y v /\ (k' = k -> y <> x).
Proof.
  induction l as [|[k0 v0] r IH]; simpl; [intros _ []|].
  intros Hs. destruct (cmp k k0) eqn:Hc.
  - apply cmp_eq_iff in Hc. subst k0.
    assert (Hr : forall v1, In (k', v1) r -> k' <> k).
    { intros v1 Hin Heq. subst k'. pose proof (sorted_tail_lt k v0 r _ _ Hs Hin) as Hl.
      rewrite cmp_refl in Hl. discriminate. }
    destruct (filter _ v0) as [|i f] eqn:Hf.
    + intros Hin Hy. exists v'. split; [right; exact Hin|].
      split; [exact Hy|]. intros Heq. exfalso. exact (Hr v' Hin Heq).
    + intros [Heq|Hin] Hy.
      * injection Heq as <- <-. exists v0. split; [left; reflexivity|].
        assert (Hy' : y ∈ filter (fun i => i <> x) v0) by (rewrite Hf; apply list_elem_of_In; exact Hy).
        apply list_elem_of_filter in Hy' as [Hne Hy'].
        split; [apply list_elem_of_In; exact Hy'|intros _; exact Hne].
      * exists v'. split; [right; exact Hin|]. split; [exact Hy|].
        intros Heq. exfalso. exact (Hr v' Hin Heq).
  - intros Hin Hy. exists v'. split; [exact Hin|]. split; [exact Hy|].
    intros ->. destruct Hin as [Heq|Hin].
    + injection Heq as -> _. rewrite cmp_refl in Hc. discriminate.
    + pose proof (sorted_tail_lt k0 v0 r _ _ Hs Hin) as Hl.
      pose proof (cmp_lt_trans _ _ _ Hc Hl) as Hkk. rewrite cmp_refl in Hkk. discriminate.
  - intros [Heq|Hin] Hy.
    + injection Heq as <- <-. exists v0. split; [left; reflexivity|]. split; [exact Hy|].
      intros ->. rewrite cmp_refl in Hc. discriminate.
    + destruct Hs as [_ Hs]. destruct (IH Hs Hin Hy) as [v [Hv Hrest]].
      exists v. split; [right; exact Hv|exact Hrest].
Qed.

Lemma push_ids (l : Ladder P) k x :
  Permutation (ladder_ids (ladder_push l k x)) (x :: ladder_ids l).
Proof.
  unfold ladder_ids. induction l as [|[k0 v0] r IH]; simpl; [reflexivity|].
  destruct (cmp k k0); simpl.
  - rewrite <- app_assoc. simpl. apply Permutation_sym, Permutation_middle.
  - reflexivity.
  - rewrite IH. apply Permutation_sym, Permutation_middle.
Qed.

Lemma retain_ids (l : Ladder P) k x :
  ladder_ids (ladder_retain l k x) `sublist_of` ladder_ids l.
Proof.
  unfold ladder_ids. induction l as [|[k0 v0] r IH]; simpl; [reflexivity|].
  destruct (cmp k k0); simpl.
  - pose proof (sublist_filter (fun i => i <> x) v0) as Hsub.
    destruct (filter _ v0) as [|i f]; simpl.
    + apply sublist_inserts_l. reflexivity.
    + apply (sublist_app (i :: f) v0); [exact Hsub|reflexivity].
  - reflexivity.
  - apply sublist_app; [reflexivity|exact IH].
Qed.

Lemma ladder_ids_in (l : Ladder P) x :
  In x (ladder_ids l) -> exists k v, In (k, v) l /\ In x v.
Proof.
  unfold ladder_ids. intros Hin. apply in_concat in Hin as [v [Hv Hx]].
  apply in_map_iff in Hv as [[k v'] [Heq Hin]]. simpl in Heq. subst v'.
  exists k, v. auto.
Qed.

Lemma not_in_ladders (b : OrderBook P) x :
  ladder_index_ok b -> orders b !! x = None -> ~ In x (all_ids b).
Proof.
  intros Hok Hx Hin. unfold all_ids in Hin. apply in_app_or in Hin as [Hin|Hin].
  - apply ladder_ids_in in Hin as [k [v [Hkv Hxv]]].
    destruct (Hok Bid k v x Hkv Hxv) as [o [Ho _]]. congruence.
  - apply ladder_ids_in in Hin as [k [v [Hkv Hxv]]].
    destruct (Hok Ask k v x Hkv Hxv) as [o [Ho _]]. congruence.
Qed.

Lemma Inv_new (s : string) : Inv (OrderBook_new (P := P) s).
Proof.
  repeat split; try constructor.
  intros [|] k v x [].
Qed.

Lemma remove_inv (b : OrderBook P) x : Inv b -> Inv (fst (remove_order b x)).
Proof.
  intros (Sb & Sa & Nb & Na & Hok & Hnd). unfold remove_order.
  destruct (orders b !! x) as [o|] eqn:Hx; [|exact (conj Sb (conj Sa (conj Nb (conj Na (conj Hok Hnd)))))].
  destruct (side o) eqn:Hs; unfold Inv, ladder_index_ok, all_ids; simpl.
  - split; [apply retain_sorted; exact Sb|]. split; [exact Sa|].
    split; [apply retain_nonempty; exact Nb|]. split; [exact Na|]. split.
    + intros [|] k v y Hin Hy; simpl in Hin.
      * destruct (retain_in _ _ _ _ _ _ Sb Hin Hy) as [v0 [Hin0 [Hy0 Hne]]].
        destruct (Hok Bid k v0 y Hin0 Hy0) as [o' [Ho' [Hs' Hp']]].
        assert (y <> x) as Hyx.
        { intros ->. rewrite Hx in Ho'. injection Ho' as <-. exact (Hne (eq_sym Hp') eq_refl). }
        exists o'. rewrite lookup_delete_ne by congruence. auto.
      * destruct (Hok Ask k v y Hin Hy) as [o' [Ho' [Hs' Hp']]].
        assert (y <> x) as Hyx by (intros ->; congruence).
        exists o'. rewrite lookup_delete_ne by congruence. auto.
    + eapply sublist_NoDup; [exact Hnd|].
      apply sublist_app; [apply retain_ids|reflexivity].
  - split; [exact Sb|]. split; [apply retain_sorted; exact Sa|].
    split; [exact Nb|]. split; [apply retain_nonempty; exact Na|]. split.
    + intros [|] k v y Hin Hy; simpl in Hin.
      * destruct (Hok Bid k v y Hin Hy) as [o' [Ho' [Hs' Hp']]].
        assert (y <> x) as Hyx by (intros ->; congruence).
        exists o'. rewrite lookup_delete_ne by congruence. auto.
      * destruct (retain_in _ _ _ _ _ _ Sa Hin Hy) as [v0 [Hin0 [Hy0 Hne]]].
        destruct (Hok Ask k v0 y Hin0 Hy0) as [o' [Ho' [Hs' Hp']]].
        assert (y <> x) as Hyx.
        { intros ->. rewrite Hx in Ho'. injection Ho' as <-. exact (Hne (eq_sym Hp') eq_refl). }
        exists o'. rewrite lookup_delete_ne by congruence. auto.
    + eapply sublist_NoDup; [exact Hnd|].
      apply sublist_app; [reflexivity|apply retain_ids].
Qed.

Lemma remove_orders (b : OrderBook P) x :
  orders (fst (remove_order b x)) = delete x (orders b).
Proof.
  unfold remove_order. destruct (orders b !! x) as [o|] eqn:Hx.
  - destruct (side o); reflexivity.
  - simpl. symmetry. apply delete_id. exact Hx.
Qed.

Lemma add_order_eq (b : OrderBook P) o :
  fst (add_order b o) = add_fresh (add_prep b o) o.
Proof.
  unfold add_order, add_fresh, add_prep.
  destruct (orders b !! id o); destruct (side o); reflexivity.
Qed.

Lemma add_prep_inv (b : OrderBook P) o :
  Inv b -> Inv (add_prep b o) /\ orders (add_prep b o) !! id o = None.
Proof.
  intros Hi. unfold add_prep. destruct (orders b !! id o) eqn:Hx.
  - split; [apply remove_inv; exact Hi|]. rewrite remove_orders. apply lookup_delete_eq.
  - split; [exact Hi|exact Hx].
Qed.

Lemma add_fresh_inv (b : OrderBook P) o :
  Inv b -> orders b !! id o = None -> Inv (add_fresh b o).
Proof.
  intros (Sb & Sa & Nb & Na & Hok & Hnd) Hx.
  pose proof (not_in_ladders b (id o) Hok Hx) as Hnot.
  unfold add_fresh. destruct (side o) eqn:Hs; unfold Inv, ladder_index_ok, all_ids in *; simpl.
  - split; [apply push_sorted; exact Sb|]. split; [exact Sa|].
    split; [apply push_nonempty; exact Nb|]. split; [exact Na|]. split.
    + intros [|] k v y Hin Hy; simpl in Hin.
      * destruct (push_in _ _ _ _ _ _ Hin Hy) as [[-> ->]|[v0 [Hin0 Hy0]]].
        -- exists o. rewrite lookup_insert_eq. auto.
        -- destruct (Hok Bid k v0 y Hin0 Hy0) as [o' [Ho' [Hs' Hp']]].
           exists o'. rewrite lookup_insert_ne by congruence. auto.
      * destruct (Hok Ask k v y Hin Hy) as [o' [Ho' [Hs' Hp']]].
        exists o'. rewrite lookup_insert_ne by congruence. auto.
    + rewrite push_ids. simpl. apply NoDup_cons.
      split; [rewrite list_elem_of_In; exact Hnot|exact Hnd].
  - split; [exact Sb|]. split; [apply push_sorted; exact Sa|].
    split; [exact Nb|]. split; [apply push_nonempty; exact Na|]. split.
    + intros [|] k v y Hin Hy; simpl in Hin.
      * destruct (Hok Bid k v y Hin Hy) as [o' [Ho' [Hs' Hp']]].
        exists o'. rewrite lookup_insert_ne by congruence. auto.
      * destruct (push_in _ _ _ _ _ _ Hin Hy) as [[-> ->]|[v0 [Hin0 Hy0]]].
        -- exists o. rewrite lookup_insert_eq. auto.
        -- destruct (Hok Ask k v0 y Hin0 Hy0) as [o' [Ho' [Hs' Hp']]].
           exists o'. rewrite lookup_insert_ne by congruence. auto.
    + rewrite push_ids, <- Permutation_middle. apply NoDup_cons.
      split; [rewrite list_elem_of_In; exact Hnot|exact Hnd].
Qed.

Lemma add_inv (b : OrderBook P) o : Inv b -> Inv (fst (add_order b o)).
Proof.
  intros Hi. rewrite add_order_eq. destruct (add_prep_inv b o Hi) as [Hi' Hx].
  apply add_fresh_inv; assumption.
Qed.

Lemma update_inv (b : OrderBook P) x q now : Inv b -> Inv (fst (update_order b x q now)).
Proof.
  intros Hi. unfold update_order. destruct (Z.eqb q 0); [apply remove_inv; exact Hi|].
  destruct (orders b !! x) as [o|] eqn:Hx; [|exact Hi].
  destruct Hi as (Sb & Sa & Nb & Na & Hok & Hnd).
  unfold Inv, ladder_index_ok, all_ids in *; simpl.
  split; [exact Sb|]. split; [exact Sa|]. split; [exact Nb|]. split; [exact Na|].
  split; [|exact Hnd].
  intros s k v y Hin Hy. destruct (Hok s k v y Hin Hy) as [o' [Ho' [Hs' Hp']]].
  destruct (decide (y = x)) as [->|Hne].
  - rewrite Hx in Ho'. injection Ho' as <-.
    exists (update_quantity o q now). rewrite lookup_insert_eq. auto.
  - exists o'. rewrite lookup_insert_ne by congruence. auto.
Qed.

Lemma apply_inv (b : OrderBook P) op : Inv b -> Inv (fst (apply_op b op)).
Proof.
  destruct op; simpl; [apply add_inv|apply update_inv|apply remove_inv].
Qed.

Lemma run_inv (b : OrderBook P) ops : Inv b -> Inv (run b ops).
Proof.
  revert b. induction ops as [|op r IH]; simpl; intros b Hi; [exact Hi|].
  apply IH. apply apply_inv. exact Hi.
Qed.

Lemma reachable_inv (s : string) ops : Inv (run (OrderBook_new (P := P) s) ops).
Proof. apply run_inv. apply Inv_new. Qed.

Lemma filter_eq_single (l : list string) x :
  NoDup l -> In x l -> length (filter (fun y => y = x) l) = 1%nat.
Proof.
  induction l as [|a r IH]; simpl; [intros _ []|].
  intros Hnd Hin. apply NoDup_cons in Hnd as [Hna Hnd]. rewrite filter_cons.
  destruct (decide (a = x)) as [->|Hne].
  - simpl. f_equal. destruct (filter (fun y => y = x) r) as [|y f] eqn:Hf; [reflexivity|].
    exfalso. assert (Hy : y ∈ filter (fun y => y = x) r)
      by (rewrite Hf; apply list_elem_of_In; left; reflexivity).
    apply list_elem_of_filter in Hy as [-> Hy]. exact (Hna Hy).
  - destruct Hin as [->|Hin]; [congruence|]. apply IH; assumption.
Qed.

(** For a totally ordered price type, on every book reached from a fresh
    book by adds, updates and removals: an id in the ladder of side [s] at key [k] is indexed with
    side [s] and price [k]; the ids of both ladders together have no
    duplicate, so an id occupies exactly one slot, once; and no key of
    either ladder holds an empty slot. *)
Theorem reachable_book_invariant_ord (s : string) (ops : list (Op P)) :
  let b := run (OrderBook_new s) ops in
  (forall sd k v x, In (k, v) (ladder_of b sd) -> In x v ->
     exists o, orders b !! x = Some o /\ side o = sd /\ price o = k) /\
  NoDup (all_ids b) /\
  (forall sd k v, In (k, v) (ladder_of b sd) -> v <> []).
Proof.
  intros b. destruct (reachable_inv s ops) as (Sb & Sa & Nb & Na & Hok & Hnd).
  split; [exact Hok|]. split; [exact Hnd|].
  intros [|] k v Hin; simpl in Hin.
  - unfold slots_nonempty in Nb. rewrite Forall_forall in Nb.
    apply (Nb (k, v)). apply list_elem_of_In. exact Hin.
  - unfold slots_nonempty in Na. rewrite Forall_forall in Na.
    apply (Na (k, v)). apply list_elem_of_In. exact Hin.
Qed.

(** For a totally ordered price type, upsert: on a reachable book, adding [o1] and then [o2] with the
    same id leaves [o2] as the only resting order with that id: the index
    maps the id to [o2] (its price and quantity), the id rests in the slot
    of [o2]'s side at [o2]'s price, and it occurs exactly once over both
    ladders. *)
Theorem add_order_upsert_ord (s : string) (ops : list (Op P)) (o1 o2 : Order P) :
  id o1 = id o2 ->
  let b := fst (add_order (fst (add_order (run (OrderBook_new s) ops) o1)) o2) in
  orders b !! id o2 = Some o2 /\
  (exists v, In (price o2, v) (ladder_of b (side o2)) /\ In (id o2) v) /\
  length (filter (fun y => y = id o2) (all_ids b)) = 1%nat.
Proof.
  intros _ b.
  assert (Hi : Inv b) by (apply add_inv, add_inv, reachable_inv).
  destruct Hi as (_ & _ & _ & _ & _ & Hnd).
  assert (Hb : b = add_fresh (add_prep (fst (add_order (run (OrderBook_new s) ops) o1)) o2) o2)
    by apply add_order_eq.
  assert (Hslot : exists v, In (price o2, v) (ladder_of b (side o2)) /\ In (id o2) v).
  { rewrite Hb. unfold add_fresh. destruct (side o2); simpl; apply push_contains. }
  split; [rewrite Hb; unfold add_fresh; destruct (side o2); apply lookup_insert_eq|].
  split; [exact Hslot|].
  apply filter_eq_single; [exact Hnd|].
  destruct Hslot as [v [Hv Hx]]. unfold all_ids, ladder_ids. apply in_or_app.
  assert (Hc : forall l : Ladder P, In (price o2, v) l -> In (id o2) (concat (map snd l))).
  { intros l Hl. apply in_concat. exists v. split; [|exact Hx].
    apply in_map_iff. exists (price o2, v). auto. }
  destruct (side o2); simpl in Hv; [left|right]; apply Hc; exact Hv.
Qed.

End Laws.

Lemma apply_seq {P : Type} `{Ord P} (b : OrderBook P) op :
  sequence (fst (apply_op b op)) =
  if bool_decide (seq_weight b op = 2) then u64_wrap (u64_wrap (sequence b + 1) + 1)
  else if bool_decide (seq_weight b op = 1) then u64_wrap (sequence b + 1)
  else sequence b.
Proof.
  destruct op as [o|x q now|x]; simpl.
  - unfold add_order, remove_order, seq_weight.
    destruct (orders b !! id o) as [o'|] eqn:Hx; simpl.
    + destruct (side o'), (side o); reflexivity.
    + destruct (side o); reflexivity.
  - unfold update_order, remove_order, seq_weight.
    destruct (Z.eqb q 0); destruct (orders b !! x) as [o'|] eqn:Hx; simpl;
      try destruct (side o'); reflexivity.
  - unfold remove_order, seq_weight.
    destruct (orders b !! x) as [o'|] eqn:Hx; simpl; try destruct (side o'); reflexivity.
Qed.

Lemma seq_weight_range {P : Type} `{Ord P} (b : OrderBook P) op :
  seq_weight b op = 0 \/ seq_weight b op = 1 \/ seq_weight b op = 2.
Proof.
  destruct op; simpl; repeat case_bool_decide; auto.
Qed.

Lemma run_seq {P : Type} `{Ord P} (b : OrderBook P) ops :
  0 <= sequence b < 2 ^ 64 ->
  sequence (run b ops) = u64_wrap (sequence b + weighted_count b ops).
Proof.
  revert b. induction ops as [|op r IH]; simpl; intros b Hr.
  - unfold u64_wrap. rewrite Z.add_0_r. symmetry. apply Z.mod_small. exact Hr.
  - pose proof (apply_seq b op) as Hs.
    assert (Hr' : 0 <= sequence (fst (apply_op b op)) < 2 ^ 64).
    { rewrite Hs. unfold u64_wrap. repeat case_bool_decide; try apply Z.mod_pos_bound; try lia. }
    rewrite (IH _ Hr'), Hs. unfold u64_wrap.
    destruct (seq_weight_range b op) as [Hw|[Hw|Hw]]; rewrite Hw; simpl.
    + f_equal; lia.
    + rewrite Zplus_mod_idemp_l. f_equal; lia.
    + rewrite Zplus_mod_idemp_l, <- Z.add_assoc, Zplus_mod_idemp_l. f_equal; lia.
Qed.

(** Claim C2 (as amended). A fresh book has sequence 0; from any book
    reached from a fresh one, a further sequence of mutations adds to the
    sequence (in [u64] arithmetic) one per add of a new id, two per add
    that replaces an indexed order with the same id (its removal counts),
    and one per update or removal of an indexed id. *)
Theorem sequence_counts_mutations {P : Type} `{Ord P} (s : string)
    (ops1 ops2 : list (Op P)) :
  sequence (OrderBook_new (P := P) s) = 0 /\
  let b := run (OrderBook_new s) ops1 in
  sequence (run b ops2) = u64_wrap (sequence b + weighted_count b ops2).
Proof.
  split; [reflexivity|]. intros b. apply run_seq.
  subst b. rewrite (run_seq (OrderBook_new s) ops1) by (simpl; lia).
  apply Z.mod_pos_bound. lia.
Qed.

(** Claim C10. Updating an indexed order to a non-zero quantity succeeds,
    replaces that order in the index by the same order with the new
    quantity and timestamp, keeps every other index entry, both ladders and
    the symbol, and increments the sequence. *)
Theorem update_order_frame {P : Type} `{Ord P} (b : OrderBook P) x o q now :
  orders b !! x = Some o -> q <> 0 ->
  let (b', r) := update_order b x q now in
  r = true /\
  orders b' = <[x := update_quantity o q now]> (orders b) /\
  (forall y, y <> x -> orders b' !! y = orders b !! y) /\
  (exists o', orders b' !! x = Some o' /\ quantity o' = q /\ timestamp o' = now /\
     id o' = id o /\ price o' = price o /\ side o' = side o /\
     original_quantity o' = original_quantity o) /\
  bids_by_price b' = bids_by_price b /\ asks_by_price b' = asks_by_price b /\
  symbol b' = symbol b /\ sequence b' = u64_wrap (sequence b + 1).
Proof.
  intros Hx Hq. unfold update_order.
  destruct (Z.eqb_spec q 0) as [Hq0|_]; [contradiction|]. rewrite Hx. simpl.
  split; [reflexivity|]. split; [reflexivity|].
  split; [intros y Hy; apply lookup_insert_ne; congruence|].
  split; [|auto]. exists (update_quantity o q now).
  rewrite lookup_insert_eq. repeat split.
Qed.

End BookFacts.

(** * The spread, on f64 prices *)

Module SpreadFacts.
Import Book.

(** Claim C9. When both ladders are non-empty, the best bid is the last
    (highest) bid key, the best ask the first (lowest) ask key, and the
    spread information is [ask - bid], [(bid + ask) / 2] and
    [spread / mid * 10000] in f64 arithmetic, whatever the sign of the
    spread; when either ladder is empty all three are absent. *)
Theorem spread_info_spec (b : OrderBook float) :
  match bids_by_price b, asks_by_price b with
  | _ :: _, _ :: _ =>
      exists bid ask,
        get_best_bid_ask b = (Some bid, Some ask) /\
        last_key (bids_by_price b) = Some bid /\ first_key (asks_by_price b) = Some ask /\
        get_spread_info b =
          (Some (ask - bid), Some ((bid + ask) / 2.0),
           Some ((ask - bid) / ((bid + ask) / 2.0) * 10000.0))%float
  | _, _ => get_spread_info b = (None, None, None)
  end.
Proof.
  unfold get_spread_info, get_best_bid_ask.
  destruct (bids_by_price b) as [|[k v] r] eqn:Hb; [destruct (asks_by_price b); reflexivity|].
  destruct (asks_by_price b) as [|[ka va] ra] eqn:Ha.
  - cbn [first_key]. destruct (last_key ((k, v) :: r)); reflexivity.
  - assert (Hl : exists bid, last_key ((k, v) :: r) = Some bid).
    { clear Hb. revert k v. induction r as [|[k' v'] r' IH]; intros k v.
      - exists k. reflexivity.
      - destruct (IH k' v') as [bid Hbid]. exists bid. exact Hbid. }
    destruct Hl as [bid Hbid]. rewrite Hbid. simpl.
    exists bid, ka. auto.
Qed.

End SpreadFacts.

(** * The sample book *)

Module SampleFacts.
Import Book BookFacts.

Section Shape.
Context {P : Type} `{Ord P}.

Lemma run_app (b : OrderBook P) ops1 ops2 :
  run b (ops1 ++ ops2) = run (run b ops1) ops2.
Proof. revert b. induction ops1 as [|op r IH]; intros b; simpl; [reflexivity|apply IH]. Qed.

Lemma fold_adds (b : OrderBook P) (f : nat -> Order P) (l : list nat) :
  fold_left (fun b i => fst (add_order b (f i))) l b = run b (map (fun i => OpAdd (f i)) l).
Proof. revert b. induction l as [|i r IH]; intros b; simpl; [reflexivity|apply IH]. Qed.

Lemma add_order_split (b : OrderBook P) o :
  fst (add_order b o) = add_fresh (add_prep b o) o.
Proof.
  unfold add_order, add_fresh, add_prep.
  destruct (orders b !! id o); destruct (side o); reflexivity.
Qed.

Lemma orders_add_fresh (b : OrderBook P) o :
  orders (add_fresh b o) = <[id o := o]> (orders b).
Proof. unfold add_fresh. destruct (side o); reflexivity. Qed.

Lemma orders_remove (b : OrderBook P) x :
  orders (fst (remove_order b x)) = delete x (orders b).
Proof.
  unfold remove_order. destruct (orders b !! x) as [o|] eqn:Hx.
  - destruct (side o); reflexivity.
  - simpl. symmetry. apply delete_id. exact Hx.
Qed.

Lemma shape_remove (b1 b2 : OrderBook P) x :
  shape b1 = shape b2 -> shape (fst (remove_order b1 x)) = shape (fst (remove_order b2 x)).
Proof.
  unfold shape. intros E. injection E as Em Eb Ea.
  assert (Ex : (fun o => (price o, side o)) <$> orders b1 !! x =
               (fun o => (price o, side o)) <$> orders b2 !! x).
  { rewrite <- !lookup_fmap, Em. reflexivity. }
  unfold remove_order.
  destruct (orders b1 !! x) as [o1|], (orders b2 !! x) as [o2|]; simpl in Ex; try discriminate.
  - injection Ex as Ep Es. rewrite <- Es.
    destruct (side o1); simpl; rewrite !fmap_delete; congruence.
  - simpl. congruence.
Qed.

Lemma shape_add (b1 b2 : OrderBook P) o1 o2 :
  shape b1 = shape b2 -> id o1 = id o2 -> price o1 = price o2 -> side o1 = side o2 ->
  shape (fst (add_order b1 o1)) = shape (fst (add_order b2 o2)).
Proof.
  intros E Ei Ep Es. rewrite !add_order_split.
  assert (E' : shape (add_prep b1 o1) = shape (add_prep b2 o2)).
  { unfold add_prep. rewrite <- Ei.
    assert (Ex : (fun o => (price o, side o)) <$> orders b1 !! id o1 =
                 (fun o => (price o, side o)) <$> orders b2 !! id o1).
    { rewrite <- !lookup_fmap. unfold shape in E. injection E as Em _ _. rewrite Em. reflexivity. }
    destruct (orders b1 !! id o1), (orders b2 !! id o1); simpl in Ex; try discriminate.
    - apply shape_remove. exact E.
    - exact E. }
  revert E'. generalize (add_prep b1 o1) (add_prep b2 o2). intros c1 c2 E'.
  unfold shape in *. rewrite !orders_add_fresh. injection E' as Em Eb Ea.
  rewrite !fmap_insert, Em. simpl. rewrite <- Ei, <- Ep, <- Es.
  unfold add_fresh. destruct (side o1); simpl; rewrite ?Eb, ?Ea; reflexivity.
Qed.

Lemma shape_run_adds (b1 b2 : OrderBook P) os1 os2 :
  shape b1 = shape b2 ->
  Forall2 (fun o1 o2 => id o1 = id o2 /\ price o1 = price o2 /\ side o1 = side o2) os1 os2 ->
  shape (run b1 (map OpAdd os1)) = shape (run b2 (map OpAdd os2)).
Proof.
  intros E HF. revert b1 b2 E.
  induction HF as [|o1 o2 r1 r2 [Ei [Ep Es]] _ IH]; intros b1 b2 E; simpl; [exact E|].
  apply IH. apply shape_add; assumption.
Qed.

Lemma shape_eq_inv (b1 b2 : OrderBook P) :
  shape b1 = shape b2 ->
  (fun o => (price o, side o)) <$> orders b1 = (fun o => (price o, side o)) <$> orders b2 /\
  bids_by_price b1 = bids_by_price b2 /\ asks_by_price b1 = asks_by_price b2.
Proof. unfold shape. intros E. injection E. auto. Qed.

Lemma index_of_shape (b b0 : OrderBook P) :
  shape b = shape b0 ->
  Forall (fun kv => Forall (fun x =>
    ((fun o => (price o, side o)) <$> orders b0) !! x = Some (kv.1, Bid)) kv.2) (bids_by_price b0) ->
  Forall (fun kv => Forall (fun x =>
    ((fun o => (price o, side o)) <$> orders b0) !! x = Some (kv.1, Ask)) kv.2) (asks_by_price b0) ->
  ladder_index_ok b.
Proof.
  intros E Hb Ha sd k v x Hin Hx.
  destruct (shape_eq_inv _ _ E) as (Em & Eb & Ea).
  assert (Hl : ((fun o => (price o, side o)) <$> orders b) !! x = Some (k, sd)).
  { rewrite Em. destruct sd; simpl in Hin; rewrite ?Eb, ?Ea in Hin.
    - rewrite Forall_forall in Hb. specialize (Hb _ (proj2 (list_elem_of_In _ _) Hin)).
      rewrite Forall_forall in Hb. apply (Hb x). apply list_elem_of_In. exact Hx.
    - rewrite Forall_forall in Ha. specialize (Ha _ (proj2 (list_elem_of_In _ _) Hin)).
      rewrite Forall_forall in Ha. apply (Ha x). apply list_elem_of_In. exact Hx. }
  rewrite lookup_fmap in Hl. destruct (orders b !! x) as [o|]; simpl in Hl; [|discriminate].
  injection Hl as Hp Hs. exists o. auto.
Qed.

Lemma run_adds_lookup (b : OrderBook P) os x o :
  orders (run b (map OpAdd os)) !! x = Some o -> orders b !! x = Some o \/ In o os.
Proof.
  revert b. induction os as [|o' r IH]; simpl; intros b Hx; [left; exact Hx|].
  destruct (IH _ Hx) as [H1|H1]; [|right; right; exact H1].
  change (orders (fst (add_order b o')) !! x = Some o) in H1.
  rewrite add_order_split, orders_add_fresh in H1.
  apply lookup_insert_Some in H1. destruct H1 as [[_ <-]|[_ H1]]; [right; left; reflexivity|].
  left. unfold add_prep in H1. destruct (orders b !! id o'); [|exact H1].
  rewrite orders_remove in H1. apply lookup_delete_Some in H1. apply H1.
Qed.

End Shape.

Lemma Forall2_map_same {A B C : Type} (R : B -> C -> Prop) (f : A -> B) (g : A -> C) l :
  (forall a, R (f a) (g a)) -> Forall2 R (map f l) (map g l).
Proof. intros Hr. induction l as [|a r IH]; simpl; constructor; [apply Hr|exact IH]. Qed.

Lemma init_run (b : OrderBook float) rng now :
  initialize_with_sample_data b rng now = run b (map OpAdd (sample_orders rng now)).
Proof.
  unfold initialize_with_sample_data, sample_orders.
  rewrite !fold_adds, map_app, !map_map, run_app. reflexivity.
Qed.

(** The price and side of each sample order, and so the ladders, do not
    depend on the generator or the clock. *)
Lemma init_shape s rng now :
  shape (initialize_with_sample_data (OrderBook_new s) rng now) =
  shape Samples.book0.
Proof.
  unfold Samples.book0. rewrite (init_run (OrderBook_new s) rng now), (init_run (OrderBook_new "") Samples.rng0 0).
  apply shape_run_adds; [reflexivity|].
  unfold sample_orders. apply Forall2_app; apply Forall2_map_same; intros i; auto.
Qed.

Lemma sample_order_fields rng now o :
  rng_ok rng -> In o (sample_orders rng now) ->
  now - 60000 < timestamp o <= now /\ 1000 <= quantity o <= 10000 /\
  original_quantity o = quantity o.
Proof.
  intros Hr Hin. unfold sample_orders in Hin. apply in_app_or in Hin.
  destruct Hin as [Hin|Hin]; apply in_map_iff in Hin; destruct Hin as [i [<- _]];
    unfold sample_bid, sample_ask; cbn [timestamp quantity original_quantity].
  - pose proof (Hr (2 * i)%nat 1000 10001 ltac:(lia)).
    pose proof (Hr (2 * i + 1)%nat 0 60000 ltac:(lia)). lia.
  - pose proof (Hr (60 + 2 * i)%nat 1000 10001 ltac:(lia)).
    pose proof (Hr (61 + 2 * i)%nat 0 60000 ltac:(lia)). lia.
Qed.

Lemma book0_bids :
  map snd (bids_by_price Samples.book0) = map (fun i => [fmt_id "bid_" i]) (rev (seq 0 30)) /\
  NoDup (map fst (bids_by_price Samples.book0)) /\
  Forall (fun kv => cmp kv.1 base_price = Lt) (bids_by_price Samples.book0) /\
  Forall (fun kv => Forall (fun x =>
    ((fun o => (price o, side o)) <$> orders Samples.book0) !! x = Some (kv.1, Bid)) kv.2)
    (bids_by_price Samples.book0).
Proof.
  split; [vm_compute; reflexivity|].
  split; [apply (bool_decide_unpack _); vm_compute; reflexivity|].
  split; apply (bool_decide_unpack _); vm_compute; reflexivity.
Qed.

Lemma book0_asks :
  map snd (asks_by_price Samples.book0) = map (fun i => [fmt_id "ask_" i]) (seq 0 30) /\
  NoDup (map fst (asks_by_price Samples.book0)) /\
  first_key (asks_by_price Samples.book0) = Some base_price /\
  Forall (fun kv => cmp kv.1 base_price = Gt) (tail (asks_by_price Samples.book0)) /\
  Forall (fun kv => Forall (fun x =>
    ((fun o => (price o, side o)) <$> orders Samples.book0) !! x = Some (kv.1, Ask)) kv.2)
    (asks_by_price Samples.book0).
Proof.
  split; [vm_compute; reflexivity|].
  split; [apply (bool_decide_unpack _); vm_compute; reflexivity|].
  split; [vm_compute; reflexivity|].
  split; apply (bool_decide_unpack _); vm_compute; reflexivity.
Qed.

Lemma book0_dom :
  dom ((fun o => (price o, side o)) <$> orders Samples.book0) =
  list_to_set (all_ids Samples.book0).
Proof. apply (bool_decide_unpack _). vm_compute. reflexivity. Qed.

(** Claim C8 (as amended). On a fresh book, the sample data leaves 30
    single-order bid slots [bid_29 .. bid_0] (ascending), all at distinct
    prices strictly below the reference price 100.0, and 30 single-order
    ask slots [ask_0 .. ask_29] at distinct prices, of which the first,
    [ask_0], is exactly at the reference price and the other 29 strictly
    above. The index holds exactly the 60 ladder ids, each with the side
    and price of its slot; every order has a quantity in 1000..10000, its
    original quantity equal to it, and a timestamp backdated by 0 to
    59.999 seconds. *)
Theorem sample_book_spec (s : string) (rng : Rng) (now : Z) :
  rng_ok rng ->
  let b := initialize_with_sample_data (OrderBook_new s) rng now in
  map snd (bids_by_price b) = map (fun i => [fmt_id "bid_" i]) (rev (seq 0 30)) /\
  NoDup (map fst (bids_by_price b)) /\
  Forall (fun kv => cmp kv.1 base_price = Lt) (bids_by_price b) /\
  map snd (asks_by_price b) = map (fun i => [fmt_id "ask_" i]) (seq 0 30) /\
  NoDup (map fst (asks_by_price b)) /\
  first_key (asks_by_price b) = Some base_price /\
  Forall (fun kv => cmp kv.1 base_price = Gt) (tail (asks_by_price b)) /\
  dom (orders b) = list_to_set (all_ids b) /\
  ladder_index_ok b /\
  (forall x o, orders b !! x = Some o ->
     now - 60000 < timestamp o <= now /\ 1000 <= quantity o <= 10000 /\
     original_quantity o = quantity o).
Proof.
  intros Hr b.
  assert (Hbd : b = initialize_with_sample_data (OrderBook_new s) rng now) by reflexivity.
  clearbody b.
  pose proof (init_shape s rng now) as E. rewrite <- Hbd in E.
  destruct (shape_eq_inv _ _ E) as (Em & Eb & Ea).
  destruct book0_bids as (Bs & Bnd & Blt & Hb).
  destruct book0_asks as (As & And & Af & Agt & Ha).
  assert (Hall : all_ids b = all_ids Samples.book0)
    by (unfold all_ids; rewrite Eb, Ea; reflexivity).
  rewrite Eb, Ea. do 7 (split; [assumption|]).
  split.
  { rewrite Hall, <- (dom_fmap_L (fun o => (price o, side o)) (orders b)), Em.
    exact book0_dom. }
  split.
  - exact (index_of_shape b Samples.book0 E Hb Ha).
  - intros x o Hx. destruct (run_adds_lookup _ _ x o (eq_ind _ (fun c => orders c !! x = Some o) Hx _ (eq_trans Hbd (init_run _ rng now))))
      as [H0|H0].
    + change ((∅ : gmap string (Order float)) !! x = Some o) in H0.
      rewrite lookup_empty in H0. discriminate.
    + apply (sample_order_fields rng now o Hr H0).
Qed.

End SampleFacts.

(** * The projections *)

Module ProjFacts.
Import Book BookFacts SampleFacts.

Section Sorting.
Context {A : Type}.

Lemma SS_app (R : A -> A -> Prop) l1 l2 :
  StronglySorted R l1 -> StronglySorted R l2 ->
  (forall x y, In x l1 -> In y l2 -> R x y) -> StronglySorted R (l1 ++ l2).
Proof.
  induction 1 as [|a l1 H1 IH HF]; intros H2 Hx; simpl; [exact H2|].
  constructor.
  - apply IH; [exact H2|]. intros x y Hx' Hy. apply Hx; [right; exact Hx'|exact Hy].
  - apply Stdlib.Lists.List.Forall_forall. intros y Hy. apply in_app_or in Hy.
    destruct Hy as [Hy|Hy].
    + exact (proj1 (Stdlib.Lists.List.Forall_forall _ _) HF y Hy).
    + apply Hx; [left; reflexivity|exact Hy].
Qed.

Lemma SS_rev (R : A -> A -> Prop) l :
  StronglySorted R l -> StronglySorted (fun a b => R b a) (rev l).
Proof.
  induction 1 as [|a l H1 IH HF]; simpl; [constructor|].
  apply SS_app; [exact IH|repeat constructor|].
  intros x y Hx [<-|[]]. apply in_rev in Hx.
  exact (proj1 (Stdlib.Lists.List.Forall_forall _ _) HF x Hx).
Qed.

Lemma Forall_sub (Q : A -> Prop) l1 l2 :
  sublist l1 l2 -> Forall Q l2 -> Forall Q l1.
Proof.
  induction 1 as [|x l1 l2 Hs IH|x l1 l2 Hs IH]; intros HF; [constructor| |].
  - inversion HF; subst. constructor; [assumption|apply IH; assumption].
  - inversion HF; subst. apply IH. assumption.
Qed.

Lemma SS_sub (R : A -> A -> Prop) l1 l2 :
  sublist l1 l2 -> StronglySorted R l2 -> StronglySorted R l1.
Proof.
  induction 1 as [|x l1 l2 Hs IH|x l1 l2 Hs IH]; intros HS; [constructor| |].
  - inversion HS; subst. constructor; [apply IH; assumption|].
    apply (Forall_sub _ l1 l2); assumption.
  - inversion HS; subst. apply IH. assumption.
Qed.

Lemma SS_consec (R : A -> A -> Prop) l i a b :
  StronglySorted R l -> l !! i = Some a -> l !! S i = Some b -> R a b.
Proof.
  intros HS. revert i. induction HS as [|x l HS IH HF]; intros i Ha Hb; [discriminate|].
  destruct i as [|i].
  - simpl in Ha, Hb. injection Ha as <-. destruct l as [|y l]; [discriminate|].
    simpl in Hb. injection Hb as <-. inversion HF; assumption.
  - apply (IH i); assumption.
Qed.

Lemma lookup_map {B : Type} (f : A -> B) l i : map f l !! i = option_map f (l !! i).
Proof. revert i. induction l as [|x l IH]; intros [|i]; simpl; auto. Qed.

End Sorting.

Lemma zsum_nonneg l : Forall (fun q => 0 <= q) l -> 0 <= zsum l.
Proof. induction 1; simpl; lia. Qed.

Lemma zsum_take_mono l n n' :
  Forall (fun q => 0 <= q) l -> (n <= n')%nat -> zsum (take n l) <= zsum (take n' l).
Proof.
  intros HF. revert n n'. induction HF as [|q l Hq HF IH]; intros n n' Hn;
    [rewrite !take_nil; simpl; lia|].
  destruct n as [|n], n' as [|n']; simpl; try lia.
  - pose proof (zsum_nonneg (take n' l) (Forall_sub _ _ _ (sublist_take l n') HF)). lia.
  - specialize (IH n n' ltac:(lia)). lia.
Qed.

Lemma zsum_take_le l n : Forall (fun q => 0 <= q) l -> zsum (take n l) <= zsum l.
Proof.
  intros HF. rewrite <- (take_ge l (Nat.max n (length l))) at 2 by lia.
  apply zsum_take_mono; [exact HF|lia].
Qed.

Lemma u64_fold_range l a :
  0 <= a < 2 ^ 64 -> 0 <= fold_left (fun acc q => u64_wrap (acc + q)) l a < 2 ^ 64.
Proof.
  revert a. induction l as [|q l IH]; intros a Ha; simpl; [exact Ha|].
  apply IH. unfold u64_wrap. apply Z.mod_pos_bound. lia.
Qed.

Lemma u64_sum_range l : 0 <= u64_sum l < 2 ^ 64.
Proof. apply u64_fold_range. lia. Qed.

Section Proj.
Context {P : Type} `{OrdLaws P}.

Lemma sorted_keys_SS (l : Ladder P) :
  sorted_keys l -> StronglySorted (fun kv1 kv2 => cmp kv1.1 kv2.1 = Lt) l.
Proof.
  induction l as [|[k v] r IH]; simpl; intros Hs; [constructor|].
  destruct Hs as [HF Hr]. constructor; [apply IH; exact Hr|exact HF].
Qed.

(** The levels of a side, in rendering order, are strictly sorted by
    price priority. *)
Definition better (sd : Side) (a b : P) : Prop :=
  cmp a b = match sd with Bid => Gt | Ask => Lt end.

Lemma side_prices_SS (b : OrderBook P) sd :
  Inv b -> StronglySorted (fun kv1 kv2 => better sd kv1.1 kv2.1) (side_prices b sd).
Proof.
  intros (Sb & Sa & _). unfold better. destruct sd; simpl.
  - pose proof (SS_rev _ _ (sorted_keys_SS _ Sb)) as HS.
    revert HS. apply StronglySorted_ind; [constructor|]. intros a l _ IH HF.
    constructor; [exact IH|]. eapply Forall_impl; [exact HF|].
    intros kv Hkv. rewrite cmp_antisym, Hkv. reflexivity.
  - apply sorted_keys_SS. exact Sa.
Qed.

Lemma mbp_levels_length m sd (l : Ladder P) c now :
  (length (mbp_levels m sd l c now) <= length l)%nat.
Proof.
  revert c. induction l as [|[k ids] r IH]; intros c; simpl; [lia|].
  destruct (found_orders m ids) as [|o os]; simpl; [specialize (IH c); lia|].
  match goal with |- context [mbp_levels _ _ r ?c' _] => specialize (IH c') end. lia.
Qed.

Lemma mbp_levels_price_in m sd (l : Ladder P) c now e :
  In e (mbp_levels m sd l c now) -> In (mbp_price e) (map fst l).
Proof.
  revert c. induction l as [|[k ids] r IH]; intros c; simpl; [tauto|].
  destruct (found_orders m ids); simpl.
  - intros Hin. right. exact (IH c Hin).
  - intros [<-|Hin]; [left; reflexivity|]. right. exact (IH _ Hin).
Qed.

Lemma mbp_levels_SS (Q : P -> P -> Prop) m sd (l : Ladder P) c now :
  StronglySorted (fun kv1 kv2 => Q kv1.1 kv2.1) l ->
  StronglySorted Q (map mbp_price (mbp_levels m sd l c now)).
Proof.
  intros HS. revert c. induction HS as [|[k ids] r HS IH HF]; intros c; simpl; [constructor|].
  destruct (found_orders m ids); simpl; [apply IH|].
  constructor; [apply IH|].
  apply Stdlib.Lists.List.Forall_forall. intros p Hp. apply in_map_iff in Hp.
  destruct Hp as [e [<- He]]. apply mbp_levels_price_in in He.
  apply in_map_iff in He. destruct He as [kv [<- Hkv]].
  exact (proj1 (Stdlib.Lists.List.Forall_forall _ _) HF kv Hkv).
Qed.

Lemma mbp_levels_totals m sd (l : Ladder P) c now i e :
  mbp_levels m sd l c now !! i = Some e ->
  mbp_total_quantity e = u64_wrap (c + zsum (map mbp_quantity (take (S i) (mbp_levels m sd l c now)))).
Proof.
  revert c i. induction l as [|[k ids] r IH]; intros c i; simpl; [discriminate|].
  destruct (found_orders m ids) as [|o os]; [apply IH|].
  destruct i as [|i]; simpl.
  - intros He. injection He as <-. simpl. f_equal. lia.
  - intros He. rewrite (IH _ i He). unfold u64_wrap.
    rewrite Zplus_mod_idemp_l. f_equal. simpl. lia.
Qed.

Lemma mbp_levels_quantities m sd (l : Ladder P) c now :
  Forall (fun q => 0 <= q < 2 ^ 64) (map mbp_quantity (mbp_levels m sd l c now)).
Proof.
  revert c. induction l as [|[k ids] r IH]; intros c; simpl; [constructor|].
  destruct (found_orders m ids) as [|o os]; simpl; [apply IH|].
  constructor; [apply u64_sum_range|apply IH].
Qed.

Lemma index_ids_apply (b : OrderBook P) op :
  index_ids_ok b -> index_ids_ok (fst (apply_op b op)).
Proof.
  intros Hb. destruct op as [o|x q now|x]; cbv beta iota delta [apply_op]; intros y o' Hy.
  - rewrite add_order_split, orders_add_fresh in Hy.
    apply lookup_insert_Some in Hy. destruct Hy as [[<- <-]|[_ Hy]]; [reflexivity|].
    unfold add_prep in Hy. destruct (orders b !! id o); [|exact (Hb _ _ Hy)].
    rewrite orders_remove in Hy. apply lookup_delete_Some in Hy. exact (Hb _ _ (proj2 Hy)).
  - unfold update_order in Hy. destruct (Z.eqb q 0).
    + rewrite orders_remove in Hy. apply lookup_delete_Some in Hy. exact (Hb _ _ (proj2 Hy)).
    + destruct (orders b !! x) as [o|] eqn:Hx; [|exact (Hb _ _ Hy)].
      simpl in Hy. apply lookup_insert_Some in Hy.
      destruct Hy as [[<- <-]|[_ Hy]]; [exact (Hb _ _ Hx)|exact (Hb _ _ Hy)].
  - rewrite orders_remove in Hy. apply lookup_delete_Some in Hy. exact (Hb _ _ (proj2 Hy)).
Qed.

Lemma index_ids_run (b : OrderBook P) ops : index_ids_ok b -> index_ids_ok (run b ops).
Proof.
  revert b. induction ops as [|op r IH]; intros b Hb; simpl; [exact Hb|].
  apply IH. apply index_ids_apply. exact Hb.
Qed.

Lemma mbo_levels_concat m (l : Ladder P) c K now :
  mbo_levels m l c K now =
  concat (map (fun kv => mbo_orders m kv.2 now) (take (Z.to_nat (K - c)) l)).
Proof.
  revert c. induction l as [|[k ids] r IH]; intros c; simpl; [rewrite take_nil; reflexivity|].
  destruct (Z.leb_spec K c) as [Hle|Hlt].
  - replace (Z.to_nat (K - c)) with 0%nat by lia. reflexivity.
  - replace (Z.to_nat (K - c)) with (S (Z.to_nat (K - (c + 1)))) by lia.
    simpl. rewrite IH. reflexivity.
Qed.

Lemma mbo_orders_found m (v : list string) now (Q : Order P -> Prop) :
  (forall x, In x v -> exists o, m !! x = Some o /\ id o = x /\ Q o) ->
  Forall (fun e => exists o, Q o /\ e = mbo_of o now) (mbo_orders m v now) /\
  map mbo_order_id (mbo_orders m v now) = v.
Proof.
  induction v as [|x r IH]; intros Hv; simpl; [split; [constructor|reflexivity]|].
  destruct (Hv x (or_introl eq_refl)) as [o [Ho [Hi Hq]]]. rewrite Ho.
  destruct IH as [HF Hm]; [intros y Hy; apply Hv; right; exact Hy|].
  split; [constructor; [exists o; auto|exact HF]|]. simpl. rewrite Hm, Hi. reflexivity.
Qed.

Lemma side_prices_in (b : OrderBook P) sd kv :
  In kv (side_prices b sd) <-> In kv (ladder_of b sd).
Proof. destruct sd; simpl; [split; [apply in_rev|apply in_rev]|reflexivity]. Qed.

(** The block a slot of the ladder renders: its orders, all at the key of
    the slot, with their ids in slot order. *)
Lemma mbo_slot (b : OrderBook P) sd kv now :
  Inv b -> index_ids_ok b -> In kv (ladder_of b sd) ->
  Forall (fun e => mbo_price e = kv.1) (mbo_orders (orders b) kv.2 now) /\
  map mbo_order_id (mbo_orders (orders b) kv.2 now) = kv.2.
Proof.
  intros (_ & _ & _ & _ & Hok & _) Hid Hin. destruct kv as [k v].
  destruct (mbo_orders_found (orders b) v now (fun o => price o = k)) as [HF Hm].
  { intros x Hx. destruct (Hok sd k v x Hin Hx) as [o [Ho [_ Hp]]].
    exists o. split; [exact Ho|]. split; [exact (Hid _ _ Ho)|exact Hp]. }
  split; [|exact Hm].
  eapply Forall_impl; [exact HF|]. intros e [o [Hp ->]]. exact Hp.
Qed.

Definition weakly_better (sd : Side) (a b : P) : Prop := a = b \/ better sd a b.

Lemma SS_const (k : P) (l : list P) (R : P -> P -> Prop) :
  Forall (fun p => p = k) l -> StronglySorted (fun a b => a = b \/ R a b) l.
Proof.
  induction 1 as [|p l Hp HF IH]; constructor; [exact IH|].
  eapply Forall_impl; [exact HF|]. intros y Hy. left. congruence.
Qed.

Lemma concat_blocks_SS sd (blk : P * list string -> list (MBOLevel P)) (L : Ladder P) :
  StronglySorted (fun kv1 kv2 => better sd kv1.1 kv2.1) L ->
  (forall kv, In kv L -> Forall (fun e => mbo_price e = kv.1) (blk kv)) ->
  StronglySorted (weakly_better sd) (map mbo_price (concat (map blk L))).
Proof.
  induction 1 as [|kv r HS IH HF]; intros Hb; simpl; [constructor|].
  rewrite map_app. apply SS_app.
  - apply SS_const with (k := kv.1). apply Forall_map.
    exact (Hb kv (or_introl eq_refl)).
  - apply IH. intros kv' Hkv'. apply Hb. right. exact Hkv'.
  - intros x y Hx Hy. apply in_map_iff in Hx. destruct Hx as [e [<- He]].
    pose proof (proj1 (Stdlib.Lists.List.Forall_forall _ _) (Hb kv (or_introl eq_refl)) e He)
      as Hek.
    apply in_map_iff in Hy. destruct Hy as [e' [<- He']].
    apply in_concat in He'. destruct He' as [bl [Hbl He']].
    apply in_map_iff in Hbl. destruct Hbl as [kv' [<- Hkv']].
    pose proof (proj1 (Stdlib.Lists.List.Forall_forall _ _) (Hb kv' (or_intror Hkv')) e' He')
      as Hek'.
    right. rewrite Hek, Hek'. exact (proj1 (Stdlib.Lists.List.Forall_forall _ _) HF kv' Hkv').
Qed.

Lemma better_neq sd (a b : P) : better sd a b -> a <> b.
Proof. unfold better. intros Hb ->. rewrite cmp_refl in Hb. destruct sd; discriminate. Qed.

Lemma filter_prefix (Q : MBOLevel P -> Prop) `{forall e, Decision (Q e)} l1 l2 :
  l1 `prefix_of` l2 -> filter Q l1 `prefix_of` filter Q l2.
Proof. intros [r ->]. rewrite filter_app. apply prefix_app_r. reflexivity. Qed.

Lemma map_prefix {A B : Type} (f : A -> B) l1 l2 :
  l1 `prefix_of` l2 -> map f l1 `prefix_of` map f l2.
Proof. intros [r ->]. rewrite map_app. apply prefix_app_r. reflexivity. Qed.

Lemma filter_concat (Q : MBOLevel P -> Prop) `{forall e, Decision (Q e)} (ls : list (list (MBOLevel P))) :
  filter Q (concat ls) = concat (map (filter Q) ls).
Proof. induction ls as [|l ls IH]; simpl; [reflexivity|]. rewrite filter_app, IH. reflexivity. Qed.

Lemma filter_all (Q : MBOLevel P -> Prop) `{forall e, Decision (Q e)} l :
  Forall Q l -> filter Q l = l.
Proof.
  induction 1 as [|x l Hx HF IH]; [reflexivity|].
  rewrite filter_cons_True by exact Hx. rewrite IH. reflexivity.
Qed.

Lemma filter_none (Q : MBOLevel P -> Prop) `{forall e, Decision (Q e)} l :
  Forall (fun e => ~ Q e) l -> filter Q l = [].
Proof.
  induction 1 as [|x l Hx HF IH]; [reflexivity|].
  rewrite filter_cons_False by exact Hx. exact IH.
Qed.

(** Within the rendered slots, the entries at key [k] are exactly the
    block of the slot [(k, v)], if it is rendered at all. *)
Lemma filter_blocks sd (blk : P * list string -> list (MBOLevel P)) (L : Ladder P) k v :
  StronglySorted (fun kv1 kv2 => better sd kv1.1 kv2.1) L ->
  (forall kv, In kv L -> Forall (fun e => mbo_price e = kv.1) (blk kv)) ->
  (forall kv, In kv L -> kv.1 = k -> kv = (k, v)) ->
  filter (fun e => cmp (mbo_price e) k = Eq) (concat (map blk L)) = [] \/
  filter (fun e => cmp (mbo_price e) k = Eq) (concat (map blk L)) = blk (k, v).
Proof.
  induction 1 as [|kv r HS IH HF]; intros Hb Hu; simpl; [left; reflexivity|].
  rewrite filter_app.
  assert (Hr : forall kv', In kv' r -> kv'.1 <> k ->
    filter (fun e => cmp (mbo_price e) k = Eq) (blk kv') = []).
  { intros kv' Hkv' Hne. apply filter_none.
    eapply Forall_impl; [exact (Hb kv' (or_intror Hkv'))|].
    intros e He Heq. apply cmp_eq_iff in Heq. congruence. }
  destruct (decide (cmp kv.1 k = Eq)) as [Hk|Hk];
    [apply cmp_eq_iff in Hk|assert (Hk' : kv.1 <> k) by (intros E; apply Hk, cmp_eq_iff, E)].
  - right. pose proof (Hu kv (or_introl eq_refl) Hk) as ->.
    rewrite filter_all.
    2:{ eapply Forall_impl; [exact (Hb (k, v) (or_introl eq_refl))|].
        intros e He. apply cmp_eq_iff. exact He. }
    rewrite filter_concat.
    assert (Hz : concat (map (filter (fun e => cmp (mbo_price e) k = Eq)) (map blk r)) = []).
    { clear IH HS Hu. induction r as [|kv' r IHr]; simpl; [reflexivity|].
      rewrite (Hr kv' (or_introl eq_refl)).
      - apply IHr.
        + inversion HF; assumption.
        + intros kv0 Hkv0. apply Hb. destruct Hkv0 as [<-|Hkv0]; [left; reflexivity|].
          right; right; exact Hkv0.
        + intros kv0 Hkv0 Hne. apply Hr; [right; exact Hkv0|exact Hne].
      - inversion HF as [|? ? Hbt _]. exact (not_eq_sym (better_neq sd _ _ Hbt)). }
    rewrite Hz. apply app_nil_r.
  - rewrite filter_none.
    2:{ eapply Forall_impl; [exact (Hb kv (or_introl eq_refl))|].
        intros e He Heq. apply cmp_eq_iff in Heq. congruence. }
    simpl. apply IH.
    + intros kv' Hkv'. apply Hb. right. exact Hkv'.
    + intros kv' Hkv'. apply Hu. right. exact Hkv'.
Qed.

Lemma SS_keys_unique sd (L : Ladder P) k v v' :
  StronglySorted (fun kv1 kv2 => better sd kv1.1 kv2.1) L ->
  In (k, v) L -> In (k, v') L -> v = v'.
Proof.
  induction 1 as [|kv r HS IH HF]; intros H1 H2; [destruct H1|].
  destruct H1 as [E1|H1], H2 as [E2|H2].
  - rewrite E1 in E2. injection E2. auto.
  - exfalso. subst kv. apply (better_neq sd k k); [|reflexivity].
    exact (proj1 (Stdlib.Lists.List.Forall_forall _ _) HF (k, v') H2).
  - exfalso. subst kv. apply (better_neq sd k k); [|reflexivity].
    exact (proj1 (Stdlib.Lists.List.Forall_forall _ _) HF (k, v) H1).
  - apply IH; assumption.
Qed.

(** For a totally ordered price type, on every reachable book, the MBO side for [max_levels = K]
    renders at most [3 * K] orders ([truncate((K * 3) as usize)], a
    [u32] product, never exceeds [3 * K]); their prices are taken from at
    most [K] price levels; consecutive entries are in price priority (a
    bid is never followed by a higher bid, an ask never by a lower ask);
    and the ids rendered at any one price are a prefix of that ladder
    slot, which keeps ids in the order they were added. *)
Theorem mbo_side_spec_ord (s : string) (ops : list (Op P)) (sd : Side) (K now : Z) :
  let b := run (OrderBook_new s) ops in
  let res := get_mbo_side b sd K now in
  (length res <= 3 * Z.to_nat K)%nat /\
  (exists ks : list P, (length ks <= Z.to_nat K)%nat /\ Forall (fun e => In (mbo_price e) ks) res) /\
  (forall i e1 e2, res !! i = Some e1 -> res !! S i = Some e2 ->
     cmp (mbo_price e1) (mbo_price e2) <> match sd with Bid => Lt | Ask => Gt end) /\
  (forall k v, In (k, v) (ladder_of b sd) ->
     map mbo_order_id (filter (fun e => cmp (mbo_price e) k = Eq) res) `prefix_of` v).
Proof.
  intros b res.
  pose proof (reachable_inv s ops) as Hi. fold b in Hi.
  assert (Hid : index_ids_ok b) by (apply index_ids_run; intros x o Hx; discriminate).
  set (L := take (Z.to_nat K) (side_prices b sd)).
  set (blk := fun kv : P * list string => mbo_orders (orders b) kv.2 now).
  assert (Hres : res = take (Z.to_nat (u32_wrap (K * 3))) (concat (map blk L))).
  { unfold res, get_mbo_side. rewrite mbo_levels_concat, Z.sub_0_r. reflexivity. }
  assert (HL : forall kv, In kv L -> In kv (ladder_of b sd)).
  { intros kv Hkv. apply side_prices_in.
    pose proof (Forall_sub (fun kv => In kv (side_prices b sd)) _ _
      (sublist_take (side_prices b sd) (Z.to_nat K))
      (proj2 (Stdlib.Lists.List.Forall_forall _ _) (fun x Hx => Hx))) as HF.
    exact (proj1 (Stdlib.Lists.List.Forall_forall _ _) HF kv Hkv). }
  assert (Hblk : forall kv, In kv L -> Forall (fun e => mbo_price e = kv.1) (blk kv))
    by (intros kv Hkv; exact (proj1 (mbo_slot b sd kv now Hi Hid (HL kv Hkv)))).
  assert (HSL : StronglySorted (fun kv1 kv2 => better sd kv1.1 kv2.1) L)
    by (apply (SS_sub _ _ _ (sublist_take _ _)); apply side_prices_SS; exact Hi).
  split; [|split; [|split]].
  - rewrite Hres, length_take. destruct (Z.leb_spec K 0) as [HK|HK].
    + assert (HL0 : L = []) by (unfold L; replace (Z.to_nat K) with 0%nat by lia; reflexivity).
      rewrite HL0. simpl. lia.
    + assert (u32_wrap (K * 3) <= K * 3) by (apply Z.mod_le; lia).
      assert (0 <= u32_wrap (K * 3)) by (apply Z.mod_pos_bound; lia). lia.
  - exists (map fst L). split; [rewrite length_map; unfold L; rewrite length_take; lia|].
    rewrite Hres. apply (Forall_sub _ _ _ (sublist_take _ _)).
    apply Forall_concat. apply Forall_map. apply Stdlib.Lists.List.Forall_forall.
    intros kv Hkv. eapply Forall_impl; [exact (Hblk kv Hkv)|].
    intros e ->. apply in_map. exact Hkv.
  - intros i e1 e2 H1 H2.
    assert (HS : StronglySorted (weakly_better sd) (map mbo_price res)).
    { rewrite Hres, <- firstn_map. apply (SS_sub _ _ _ (sublist_take _ _)).
      apply concat_blocks_SS; assumption. }
    assert (Hc : weakly_better sd (mbo_price e1) (mbo_price e2)).
    { apply (SS_consec _ _ i _ _ HS); rewrite lookup_map; [rewrite H1|rewrite H2]; reflexivity. }
    destruct Hc as [->|Hc]; [rewrite cmp_refl; destruct sd; discriminate|].
    unfold better in Hc. rewrite Hc. destruct sd; discriminate.
  - intros k v Hin.
    assert (Hu : forall kv, In kv L -> kv.1 = k -> kv = (k, v)).
    { intros [k' v'] Hkv Hk. simpl in Hk. subst k'. f_equal.
      apply (SS_keys_unique sd (side_prices b sd) k).
      - apply side_prices_SS. exact Hi.
      - apply side_prices_in. exact (HL _ Hkv).
      - apply side_prices_in. exact Hin. }
    etransitivity.
    + apply map_prefix. apply filter_prefix. rewrite Hres. apply prefix_take.
    + destruct (filter_blocks sd blk L k v HSL Hblk Hu) as [E|E]; rewrite E.
      * simpl. apply prefix_nil.
      * pose proof (proj2 (mbo_slot b sd (k, v) now Hi Hid Hin)) as Hm. cbn [snd] in Hm.
        unfold blk. cbn [snd]. rewrite Hm. reflexivity.
Qed.

End Proj.

End ProjFacts.

(** * The stream managers *)

Module RegistryFacts.

Lemma lookup_push {K V : Type} `{EqDecision K} (l : list (K * list V)) k x :
  Assoc.lookup (Assoc.push l k x) k = Some (default [] (Assoc.lookup l k) ++ [x]).
Proof.
  induction l as [|[k' v] r IH]; simpl.
  - rewrite decide_True by reflexivity. reflexivity.
  - destruct (decide (k = k')) as [->|Hne]; simpl.
    + rewrite decide_True by reflexivity. reflexivity.
    + rewrite decide_False by exact Hne. exact IH.
Qed.

Lemma subscribe_one_unknown sm rng now cid sym dt ml :
  Assoc.lookup (SSE.clients sm) cid = None ->
  SSE.clients (fst (SSE.subscribe_one sm rng now cid sym dt ml)) = SSE.clients sm /\
  snd (SSE.subscribe_one sm rng now cid sym dt ml) = Ok tt.
Proof.
  intros Hc. unfold SSE.subscribe_one.
  set (sm1 := if Assoc.contains_key (SSE.order_books sm) sym then sm
              else SSE.initialize_symbol sm sym rng now).
  assert (Hc1 : SSE.clients sm1 = SSE.clients sm)
    by (subst sm1; destruct (Assoc.contains_key _ _); reflexivity).
  simpl. rewrite Hc1, Hc. destruct (Assoc.lookup _ sym); simpl; auto.
Qed.

(** Claim C1 (as amended). Subscribing a client id that is not registered
    succeeds in both stream managers: the call returns [Ok], the client map
    is unchanged (no snapshot is sent) and, in [StreamManager::subscribe],
    the symbol's book is created and seeded with the sample data first if
    the symbol is new (an existing book is kept) and the subscription is
    recorded under the symbol. A failure is returned
    only when the client is registered and the send of the initial snapshot
    on its channel fails. *)
Theorem subscribe_unknown_client_ok (sm : Registry.StreamManager) (sms : SSE.SSEStreamManager)
    (rng : Book.Rng) (now cid : Z) (sid sym : string) (dt : DataType) (ml : option Z)
    (defs : list (string * DataType * Z)) :
  (Assoc.lookup (Registry.clients sm) cid = None ->
     let (sm', r) := Registry.subscribe sm rng now cid sid sym dt ml in
     r = Ok tt /\ Registry.clients sm' = Registry.clients sm /\
     Registry.order_books sm' =
       (if Assoc.contains_key (Registry.order_books sm) sym then Registry.order_books sm
        else Assoc.insert (Registry.order_books sm) sym
               (Book.initialize_with_sample_data (Book.OrderBook_new sym) rng now)) /\
     exists subs, Assoc.lookup (Registry.subscriptions sm') sym = Some subs /\
                  In (Registry.Subscription_new sid sym dt ml cid) subs) /\
  (forall e, snd (Registry.subscribe sm rng now cid sid sym dt ml) = Err e ->
     exists c, Assoc.lookup (Registry.clients sm) cid = Some c /\ Registry.ch_open c = false) /\
  (Assoc.lookup (SSE.clients sms) cid = None ->
     snd (SSE.subscribe_to_streams sms rng now cid defs) = Ok tt).
Proof.
  set (sm1 := if Assoc.contains_key (Registry.order_books sm) sym then sm
              else Registry.initialize_symbol sm sym rng now).
  assert (Hc1 : Registry.clients sm1 = Registry.clients sm)
    by (subst sm1; destruct (Assoc.contains_key _ _); reflexivity).
  assert (Hs1 : Registry.subscriptions sm1 = Registry.subscriptions sm)
    by (subst sm1; destruct (Assoc.contains_key _ _); reflexivity).
  assert (Hb1 : Registry.order_books sm1 =
       (if Assoc.contains_key (Registry.order_books sm) sym then Registry.order_books sm
        else Assoc.insert (Registry.order_books sm) sym
               (Book.initialize_with_sample_data (Book.OrderBook_new sym) rng now)))
    by (subst sm1; destruct (Assoc.contains_key _ _); reflexivity).
  split; [|split].
  - intros Hc. unfold Registry.subscribe. fold sm1. simpl. rewrite Hc1, Hc.
    assert (Hrec : exists subs,
        Assoc.lookup (Assoc.push (Registry.subscriptions sm1) sym
                        (Registry.Subscription_new sid sym dt ml cid)) sym = Some subs /\
        In (Registry.Subscription_new sid sym dt ml cid) subs).
    { rewrite lookup_push. eexists. split; [reflexivity|].
      apply in_or_app. right. left. reflexivity. }
    destruct (Assoc.lookup (Registry.order_books sm1) sym); simpl; rewrite Hb1; auto.
  - intros e. unfold Registry.subscribe. fold sm1. simpl. rewrite Hc1.
    destruct (Assoc.lookup (Registry.order_books sm1) sym); simpl; [|discriminate].
    destruct (Assoc.lookup (Registry.clients sm) cid) as [c|]; simpl; [|discriminate].
    unfold Registry.ch_send. destruct (Registry.ch_open c) eqn:Ho; simpl; [discriminate|].
    intros _. exists c. auto.
  - revert sms. induction defs as [|[[sy d] m] r IH]; intros sms Hc; simpl; [reflexivity|].
    destruct (subscribe_one_unknown sms rng now cid sy d m Hc) as [Hc' Hr].
    destruct (SSE.subscribe_one sms rng now cid sy d m) as [sms' [u|e]] eqn:E;
      simpl in Hr; [|discriminate].
    apply IH. simpl in Hc'. rewrite Hc'. exact Hc.
Qed.

Definition sub7 : Registry.Subscription := Registry.mkSub "s1" "XYZ" MBP 20 7.
Definition sse_sub7 : SSE.SSESubscription := SSE.mkSub "s1" "XYZ" MBP 20 7.

(** Claim C7 (code bug). [StreamManager::unsubscribe] removes the only
    subscription of symbol XYZ and returns [true], but leaves XYZ in the
    subscription map with an empty list; the sibling
    [SSEStreamManager::remove_subscription] prunes it. *)
Theorem unsubscribe_keeps_empty_entry :
  let sm := Registry.mkSM [] [("XYZ", [sub7])] [] in
  Registry.unsubscribe sm 7 "s1" = (Registry.mkSM [] [("XYZ", [])] [], true) /\
  SSE.subscriptions (SSE.remove_subscription (SSE.mkSM [] [("XYZ", [sse_sub7])] [] []) 7 "s1") = [].
Proof. split; vm_compute; reflexivity. Qed.

End RegistryFacts.

(** ** Further properties of the order book *)
Module BookMore.
Import Book BookFacts BookExt.

Lemma filter_keep {A : Type} (Q : A -> Prop) `{forall y, Decision (Q y)} (l : list A) :
  (forall y, In y l -> Q y) -> filter Q l = l.
Proof.
  induction l as [|a r IH]; intros Hl; [reflexivity|].
  rewrite filter_cons_True by (apply Hl; left; reflexivity).
  f_equal. apply IH. intros y Hy. apply Hl. right. exact Hy.
Qed.

Section L.
Context {P : Type} `{OrdLaws P}.

Lemma push_keeps (l : Ladder P) k x k' v' y :
  In (k', v') l -> In y v' -> exists v'', In (k', v'') (ladder_push l k x) /\ In y v''.
Proof.
  induction l as [|[k0 v0] r IH]; simpl; [intros []|].
  intros Hin Hy. destruct (cmp k k0).
  - destruct Hin as [Heq|Hin].
    + injection Heq as <- <-. exists (v0 ++ [x]).
      split; [left; reflexivity|apply in_or_app; left; exact Hy].
    + exists v'. split; [right; exact Hin|exact Hy].
  - exists v'. split; [right; exact Hin|exact Hy].
  - destruct Hin as [Heq|Hin].
    + injection Heq as <- <-. exists v0. split; [left; reflexivity|exact Hy].
    + destruct (IH Hin Hy) as [v'' [Hv Hy']]. exists v''. split; [right; exact Hv|exact Hy'].
Qed.

Lemma retain_keeps (l : Ladder P) k x k' v' y :
  y <> x -> In (k', v') l -> In y v' ->
  exists v'', In (k', v'') (ladder_retain l k x) /\ In y v''.
Proof.
  intros Hyx. induction l as [|[k0 v0] r IH]; simpl; [intros []|].
  intros Hin Hy. destruct (cmp k k0).
  - destruct Hin as [Heq|Hin].
    + injection Heq as <- <-.
      assert (Hf : In y (filter (fun i => i <> x) v0)).
      { apply list_elem_of_In, list_elem_of_filter. split; [exact Hyx|].
        apply list_elem_of_In. exact Hy. }
      destruct (filter (fun i => i <> x) v0) as [|i f] eqn:E; [destruct Hf|].
      exists (i :: f). split; [left; reflexivity|exact Hf].
    + destruct (filter (fun i => i <> x) v0) as [|i f].
      * exists v'. split; [exact Hin|exact Hy].
      * exists v'. split; [right; exact Hin|exact Hy].
  - exists v'. split; [exact Hin|exact Hy].
  - destruct Hin as [Heq|Hin].
    + injection Heq as <- <-. exists v0. split; [left; reflexivity|exact Hy].
    + destruct (IH Hin Hy) as [v'' [Hv Hy']]. exists v''. split; [right; exact Hv|exact Hy'].
Qed.

Lemma remove_ladder (b : OrderBook P) x o sd :
  orders b !! x = Some o ->
  ladder_of (fst (remove_order b x)) sd =
  if decide (sd = side o) then ladder_retain (ladder_of b sd) (price o) x else ladder_of b sd.
Proof.
  intros Hx. unfold remove_order. rewrite Hx.
  destruct (side o), sd; reflexivity.
Qed.

Lemma add_fresh_ladder (b : OrderBook P) o sd :
  ladder_of (add_fresh b o) sd =
  if decide (sd = side o) then ladder_push (ladder_of b sd) (price o) (id o) else ladder_of b sd.
Proof. unfold add_fresh. destruct (side o), sd; reflexivity. Qed.

Lemma add_fresh_orders (b : OrderBook P) o :
  orders (add_fresh b o) = <[id o := o]> (orders b).
Proof. unfold add_fresh. destruct (side o); reflexivity. Qed.

Lemma complete_new (s : string) : index_complete (OrderBook_new (P := P) s).
Proof. intros x o Hx. simpl in Hx. rewrite lookup_empty in Hx. discriminate. Qed.

Lemma complete_remove (b : OrderBook P) x :
  index_complete b -> index_complete (fst (remove_order b x)).
Proof.
  intros Hc. destruct (orders b !! x) as [o|] eqn:Hx.
  - intros y o' Hy. rewrite remove_orders in Hy.
    destruct (decide (y = x)) as [->|Hyx]; [rewrite lookup_delete_eq in Hy; discriminate|].
    rewrite lookup_delete_ne in Hy by congruence.
    destruct (Hc y o' Hy) as [v [Hv Hyv]].
    rewrite (remove_ladder b x o (side o') Hx).
    destruct (decide (side o' = side o)).
    + exact (retain_keeps _ _ _ _ _ _ Hyx Hv Hyv).
    + exists v. auto.
  - unfold remove_order. rewrite Hx. exact Hc.
Qed.

Lemma complete_add (b : OrderBook P) o :
  index_complete b -> index_complete (fst (add_order b o)).
Proof.
  intros Hc. rewrite add_order_eq.
  assert (Hp : index_complete (add_prep b o)).
  { unfold add_prep. destruct (orders b !! id o); [apply complete_remove|]; exact Hc. }
  intros y o' Hy. rewrite add_fresh_orders in Hy.
  destruct (decide (y = id o)) as [->|Hyx].
  - rewrite lookup_insert_eq in Hy. injection Hy as <-.
    rewrite add_fresh_ladder, decide_True by reflexivity. apply push_contains.
  - rewrite lookup_insert_ne in Hy by congruence.
    destruct (Hp y o' Hy) as [v [Hv Hyv]].
    rewrite add_fresh_ladder. destruct (decide (side o' = side o)).
    + exact (push_keeps _ _ _ _ _ _ Hv Hyv).
    + exists v. auto.
Qed.

Lemma complete_update (b : OrderBook P) x q now :
  index_complete b -> index_complete (fst (update_order b x q now)).
Proof.
  intros Hc. unfold update_order. destruct (Z.eqb q 0); [apply complete_remove; exact Hc|].
  destruct (orders b !! x) as [o|] eqn:Hx; [|exact Hc].
  intros y o' Hy. simpl in Hy. simpl.
  destruct (decide (y = x)) as [->|Hyx].
  - rewrite lookup_insert_eq in Hy. injection Hy as <-. exact (Hc x o Hx).
  - rewrite lookup_insert_ne in Hy by congruence. exact (Hc y o' Hy).
Qed.

Lemma complete_run (b : OrderBook P) ops : index_complete b -> index_complete (run b ops).
Proof.
  revert b. induction ops as [|[o|x q now|x] r IH]; intros b Hb; simpl; [exact Hb| | |];
    apply IH; [apply complete_add|apply complete_update|apply complete_remove]; exact Hb.
Qed.

Lemma complete_reach (s : string) ops : index_complete (run (OrderBook_new (P := P) s) ops).
Proof. apply complete_run, complete_new. Qed.

Lemma ids_reach (s : string) ops : index_ids_ok (run (OrderBook_new (P := P) s) ops).
Proof.
  apply ProjFacts.index_ids_run. intros x o Hx. simpl in Hx.
  rewrite lookup_empty in Hx. discriminate.
Qed.

Lemma in_all_ids (b : OrderBook P) sd k v x :
  In (k, v) (ladder_of b sd) -> In x v -> In x (all_ids b).
Proof.
  intros Hkv Hx. unfold all_ids, ladder_ids. apply in_or_app.
  assert (Hc : forall l : Ladder P, In (k, v) l -> In x (concat (map snd l))).
  { intros l Hl. apply in_concat. exists v. split; [|exact Hx].
    apply in_map_iff. exists (k, v). auto. }
  destruct sd; [left|right]; apply Hc; exact Hkv.
Qed.

Lemma last_key_none (l : Ladder P) : last_key l = None -> l = [].
Proof.
  induction l as [|[k v] r IH]; simpl; [reflexivity|].
  destruct r as [|kv r']; [discriminate|]. intros Hr. apply IH in Hr. discriminate.
Qed.

Lemma last_key_spec (l : Ladder P) m :
  sorted_keys l -> last_key l = Some m ->
  (exists v, In (m, v) l) /\ (forall kv, In kv l -> kv.1 = m \/ cmp kv.1 m = Lt).
Proof.
  induction l as [|[k v] r IH]; simpl; [discriminate|].
  intros [Hf Hs]. destruct r as [|kv' r'].
  - intros Hm. injection Hm as <-. split; [exists v; left; reflexivity|].
    intros kv [<-|[]]. left. reflexivity.
  - intros Hm. destruct (IH Hs Hm) as [[v' Hv'] Hall]. split.
    + exists v'. right. exact Hv'.
    + intros kv [<-|Hin]; [|exact (Hall kv Hin)]. right. simpl.
      exact (proj1 (Stdlib.Lists.List.Forall_forall _ _) Hf (m, v') Hv').
Qed.

Lemma cmp_lt_gt (x y : P) : cmp x y = Lt -> cmp y x = Gt.
Proof. intros Hl. rewrite cmp_antisym, Hl. reflexivity. Qed.

Lemma first_key_spec (l : Ladder P) m :
  sorted_keys l -> first_key l = Some m ->
  (exists v, In (m, v) l) /\ (forall kv, In kv l -> kv.1 = m \/ cmp kv.1 m = Gt).
Proof.
  destruct l as [|[k v] r]; simpl; [discriminate|].
  intros [Hf Hs] Hm. injection Hm as <-. split; [exists v; left; reflexivity|].
  intros kv [<-|Hin]; [left; reflexivity|]. right.
  apply cmp_lt_gt. exact (proj1 (Stdlib.Lists.List.Forall_forall _ _) Hf kv Hin).
Qed.

Lemma filter_single_self (x : string) : filter (fun i => i <> x) [x] = [].
Proof. rewrite filter_cons_False by (intros Hc; exact (Hc eq_refl)). reflexivity. Qed.

Lemma retain_push (l : Ladder P) k x :
  ~ In x (ladder_ids l) -> slots_nonempty l -> ladder_retain (ladder_push l k x) k x = l.
Proof.
  unfold ladder_ids, slots_nonempty.
  induction l as [|[k0 v0] r IH]; intros Hx Hn.
  - cbn [ladder_push ladder_retain]. rewrite cmp_refl, filter_single_self. reflexivity.
  - inversion Hn as [|? ? Hv0 Hr]; subst.
    cbn [ladder_push]. destruct (cmp k k0) eqn:Hc; cbn [ladder_retain].
    + rewrite Hc, filter_app, filter_single_self, app_nil_r.
      assert (Hf : filter (fun i => i <> x) v0 = v0).
      { apply filter_keep. intros y Hy ->. apply Hx. simpl. apply in_or_app. left.
        exact Hy. }
      rewrite Hf. destruct v0; [contradiction|reflexivity].
    + rewrite cmp_refl, filter_single_self. reflexivity.
    + rewrite Hc. f_equal. apply IH; [|exact Hr].
      intros Hin. apply Hx. simpl. apply in_or_app. right. exact Hin.
Qed.

Lemma found_first (m : gmap string (Order P)) x v :
  forall o, m !! x = Some o -> exists r, found_orders m (x :: v) = o :: r.
Proof. intros o Ho. simpl. rewrite Ho. eexists. reflexivity. Qed.

Lemma u32_mul3_pos (K : Z) : 0 < K < 2 ^ 32 -> 0 < u32_wrap (K * 3).
Proof.
  intros HK. unfold u32_wrap.
  assert (Hb : 0 <= (K * 3) mod 2 ^ 32 < 2 ^ 32) by (apply Z.mod_pos_bound; lia).
  destruct (Z.eq_dec ((K * 3) mod 2 ^ 32) 0) as [E|E]; [|lia].
  apply Z.mod_divide in E; [|lia]. destruct E as [c Hc]. exfalso.
  assert (Hc12 : c = 1 \/ c = 2) by lia. destruct Hc12; subst c; lia.
Qed.

Lemma last_key_cons (kv : P * list string) t : t <> [] -> last_key (kv :: t) = last_key t.
Proof. destruct kv, t as [|kv' t]; [contradiction|reflexivity]. Qed.

Lemma last_key_snoc (r : Ladder P) k v : last_key (r ++ [(k, v)]) = Some k.
Proof.
  induction r as [|kv r IH]; [reflexivity|].
  change ((kv :: r) ++ [(k, v)]) with (kv :: (r ++ [(k, v)])).
  rewrite last_key_cons by (destruct r; discriminate). exact IH.
Qed.

(** The first slot [side_prices] renders is the slot of the best key, and
    [best_of] is [None] when there is none. *)
Lemma side_prices_best (b : OrderBook P) sd :
  match side_prices b sd with
  | [] => best_of b sd = None
  | (k, v) :: _ => best_of b sd = Some k /\ In (k, v) (ladder_of b sd)
  end.
Proof.
  destruct sd; unfold best_of, get_best_bid_ask; simpl.
  - generalize (bids_by_price b) as l. intros l.
    induction l as [|kv r _] using rev_ind; [reflexivity|].
    destruct kv as [k v]. rewrite rev_app_distr. simpl.
    split; [apply last_key_snoc|apply in_or_app; right; left; reflexivity].
  - destruct (asks_by_price b) as [|[k v] r]; simpl; [reflexivity|].
    split; [reflexivity|left; reflexivity].
Qed.

End L.

(** The book seen through its index and through its ladders describes the
    same resting orders. *)
Theorem index_ladders_agree_ord {P : Type} `{OrdLaws P} (s : string) (ops : list (Op P)) :
  let b := run (OrderBook_new s) ops in
  (forall x, is_Some (orders b !! x) <-> In x (all_ids b)) /\
  (forall x o, orders b !! x = Some o ->
     id o = x /\ exists v, In (price o, v) (ladder_of b (side o)) /\ In x v).
Proof.
  intros b.
  destruct (reachable_inv (P := P) s ops) as (_ & _ & _ & _ & Hok & _).
  pose proof (complete_reach (P := P) s ops) as Hc.
  pose proof (ids_reach (P := P) s ops) as Hi. fold b in Hok, Hc, Hi.
  split.
  - intros x. split.
    + intros [o Ho]. destruct (Hc x o Ho) as [v [Hv Hx]].
      exact (in_all_ids b _ _ _ _ Hv Hx).
    + intros Hin. destruct (orders b !! x) eqn:Hx; [eexists; reflexivity|].
      exfalso. exact (not_in_ladders b x Hok Hx Hin).
  - intros x o Hx. split; [exact (Hi x o Hx)|exact (Hc x o Hx)].
Qed.

(** The best price of each side is the price of a resting order of that
    side, and no resting order of that side has a better price; a side has
    no best price exactly when it has no resting order. *)
Theorem best_price_extremal_ord {P : Type} `{OrdLaws P} (s : string) (ops : list (Op P)) (sd : Side) :
  let b := run (OrderBook_new s) ops in
  (best_of b sd = None <-> forall x o, orders b !! x = Some o -> side o <> sd) /\
  (forall p, best_of b sd = Some p ->
     (exists x o, orders b !! x = Some o /\ side o = sd /\ price o = p) /\
     (forall x o, orders b !! x = Some o -> side o = sd ->
        price o = p \/ cmp (price o) p = worse sd)).
Proof.
  intros b.
  destruct (reachable_inv (P := P) s ops) as (Sb & Sa & Nb & Na & Hok & _).
  pose proof (complete_reach (P := P) s ops) as Hc. fold b in Sb, Sa, Nb, Na, Hok, Hc.
  assert (Hslot : forall k v, In (k, v) (ladder_of b sd) ->
            exists x o, orders b !! x = Some o /\ side o = sd /\ price o = k).
  { intros k v Hkv.
    assert (Hv : v <> []).
    { unfold slots_nonempty in Nb, Na. destruct sd; simpl in Hkv;
        [exact (proj1 (Stdlib.Lists.List.Forall_forall _ _) Nb (k, v) Hkv)
        |exact (proj1 (Stdlib.Lists.List.Forall_forall _ _) Na (k, v) Hkv)]. }
    destruct v as [|x v]; [contradiction|].
    destruct (Hok sd k (x :: v) x Hkv (or_introl eq_refl)) as [o [Ho [Hs Hp]]].
    exists x, o. auto. }
  assert (Hspec : forall p, best_of b sd = Some p ->
            (exists v, In (p, v) (ladder_of b sd)) /\
            forall kv, In kv (ladder_of b sd) -> kv.1 = p \/ cmp kv.1 p = worse sd).
  { intros p Hp. destruct sd; unfold best_of, get_best_bid_ask in Hp; simpl in Hp |- *.
    - exact (last_key_spec _ _ Sb Hp).
    - exact (first_key_spec _ _ Sa Hp). }
  split.
  - split.
    + intros Hn x o Hx Hs.
      destruct (Hc x o Hx) as [v [Hv _]]. rewrite Hs in Hv.
      pose proof (side_prices_best b sd) as Hb.
      destruct (side_prices b sd) as [|[k' v'] r] eqn:E.
      * apply (proj2 (ProjFacts.side_prices_in b sd (price o, v))) in Hv.
        rewrite E in Hv. exact Hv.
      * destruct Hb as [Hb _]. rewrite Hn in Hb. discriminate.
    + intros Hno. pose proof (side_prices_best b sd) as Hb.
      destruct (side_prices b sd) as [|[k v] r] eqn:E; [exact Hb|].
      destruct Hb as [_ Hkv]. destruct (Hslot k v Hkv) as [x [o [Ho [Hs _]]]].
      exfalso. exact (Hno x o Ho Hs).
  - intros p Hp. destruct (Hspec p Hp) as [[v Hv] Hall]. split; [exact (Hslot p v Hv)|].
    intros x o Hx Hs. destruct (Hc x o Hx) as [v' [Hv' _]]. rewrite Hs in Hv'.
    exact (Hall _ Hv').
Qed.

(** With at least one level requested ([max_levels] is a [u32]), the first
    level of the market-by-price and of the market-by-order view of a side
    is at the best price of that side, and both views are empty exactly
    when the side has no best price. *)
Theorem top_level_is_best_ord {P : Type} `{OrdLaws P} (s : string) (ops : list (Op P))
    (sd : Side) (K now : Z) :
  0 < K < 2 ^ 32 ->
  let b := run (OrderBook_new s) ops in
  match get_mbp_side b sd K now with
  | [] => best_of b sd = None
  | e :: _ => best_of b sd = Some (mbp_price e)
  end /\
  match get_mbo_side b sd K now with
  | [] => best_of b sd = None
  | e :: _ => best_of b sd = Some (mbo_price e)
  end.
Proof.
  intros HK b.
  destruct (reachable_inv (P := P) s ops) as (Sb & Sa & Nb & Na & Hok & _).
  fold b in Sb, Sa, Nb, Na, Hok.
  pose proof (side_prices_best b sd) as Hb.
  unfold get_mbp_side, get_mbo_side.
  destruct (side_prices b sd) as [|[k v] r] eqn:E.
  - rewrite take_nil. simpl. rewrite take_nil. split; exact Hb.
  - destruct Hb as [Hbest Hkv].
    assert (Hv : v <> []).
    { unfold slots_nonempty in Nb, Na. destruct sd; simpl in Hkv;
        [exact (proj1 (Stdlib.Lists.List.Forall_forall _ _) Nb (k, v) Hkv)
        |exact (proj1 (Stdlib.Lists.List.Forall_forall _ _) Na (k, v) Hkv)]. }
    destruct v as [|x v]; [contradiction|].
    destruct (Hok sd k (x :: v) x Hkv (or_introl eq_refl)) as [o [Ho [_ Hp]]].
    replace (Z.to_nat K) with (S (Z.to_nat K - 1)) by lia. simpl.
    rewrite Ho. simpl. split; [exact Hbest|].
    destruct (Z.leb_spec K 0) as [Hle|_]; [lia|]. simpl.
    pose proof (u32_mul3_pos K HK) as H3.
    replace (Z.to_nat (u32_wrap (K * 3))) with (S (Z.to_nat (u32_wrap (K * 3)) - 1)) by lia.
    simpl. rewrite Hp. exact Hbest.
Qed.

(** Adding an order and removing its id right away succeeds and leaves the
    index and the ladders exactly as removing that id from the original
    book would; when the id was not indexed, the book's index and ladders
    are restored. *)
Theorem add_remove_roundtrip_ord {P : Type} `{OrdLaws P} (s : string) (ops : list (Op P))
    (o : Order P) :
  let b := run (OrderBook_new s) ops in
  let r := remove_order (fst (add_order b o)) (id o) in
  snd r = true /\
  orders (fst r) = delete (id o) (orders b) /\
  bids_by_price (fst r) = bids_by_price (fst (remove_order b (id o))) /\
  asks_by_price (fst r) = asks_by_price (fst (remove_order b (id o))) /\
  (orders b !! id o = None ->
     orders (fst r) = orders b /\ bids_by_price (fst r) = bids_by_price b /\
     asks_by_price (fst r) = asks_by_price b).
Proof.
  intros b r.
  pose proof (reachable_inv (P := P) s ops) as Hi. fold b in Hi.
  destruct (add_prep_inv b o Hi) as [Hpi Hnone].
  set (b' := add_prep b o) in *.
  destruct Hpi as (Sb & Sa & Nb & Na & Hok & _).
  assert (Hnot : ~ In (id o) (all_ids b')) by exact (not_in_ladders b' (id o) Hok Hnone).
  assert (Hr : r = (mkBook (symbol b') (orders b') (bids_by_price b') (asks_by_price b')
                      (u64_wrap (u64_wrap (sequence b' + 1) + 1)), true)).
  { subst r. rewrite add_order_eq. fold b'. unfold remove_order.
    rewrite add_fresh_orders, lookup_insert_eq.
    unfold add_fresh, bump, with_ladder, with_orders, ladder_of.
    unfold all_ids in Hnot.
    destruct (side o); simpl; rewrite delete_insert_id by exact Hnone;
      rewrite retain_push; try assumption; try reflexivity;
      intros Hin; apply Hnot; apply in_or_app; auto. }
  assert (Hb' : orders b' = delete (id o) (orders b) /\
                bids_by_price b' = bids_by_price (fst (remove_order b (id o))) /\
                asks_by_price b' = asks_by_price (fst (remove_order b (id o)))).
  { subst b'. unfold add_prep. destruct (orders b !! id o) eqn:Hx.
    - split; [apply remove_orders|auto].
    - unfold remove_order. rewrite Hx. simpl.
      split; [symmetry; apply delete_id; exact Hx|auto]. }
  rewrite Hr. simpl. destruct Hb' as (Ho & Hbb & Hba).
  split; [reflexivity|]. split; [exact Ho|]. split; [exact Hbb|]. split; [exact Hba|].
  intros Hx. unfold remove_order in Hbb, Hba. rewrite Hx in Hbb, Hba.
  rewrite delete_id in Ho by exact Hx. auto.
Qed.

End BookMore.

(** ** The f64 book

    [OrderedFloat]'s comparison is a total order on the floats that are
    neither NaN nor -0.0, and on every float it is antisymmetric with a
    transitive [Lt]. The first gives the results of [BookFacts],
    [ProjFacts] and [BookMore] on the f64 books built from such prices,
    through [map_book oval]; the second keeps the ladder keys sorted on
    every f64 book. *)
Module FloatBook.
Import Book BookExt OrdinaryFloat.

Lemma cmp3_eq a b : cmp3 a b = Eq <-> a = b.
Proof.
  destruct a as [[a1 a2] a3], b as [[b1 b2] b3]. unfold cmp3.
  destruct (Z.compare_spec a1 b1); [|split; [discriminate|intros E; injection E; lia]..].
  destruct (Z.compare_spec a2 b2); [|split; [discriminate|intros E; injection E; lia]..].
  destruct (Z.compare_spec a3 b3); [subst; split; reflexivity|split; [discriminate|intros E; injection E; lia]..].
Qed.

Lemma cmp3_antisym a b : cmp3 b a = CompOpp (cmp3 a b).
Proof.
  destruct a as [[a1 a2] a3], b as [[b1 b2] b3]. unfold cmp3.
  destruct (Z.compare_spec a1 b1), (Z.compare_spec b1 a1); try lia; try reflexivity;
  destruct (Z.compare_spec a2 b2), (Z.compare_spec b2 a2); try lia; try reflexivity;
  destruct (Z.compare_spec a3 b3), (Z.compare_spec b3 a3); try lia; reflexivity.
Qed.

Lemma cmp3_lt_trans a b c : cmp3 a b = Lt -> cmp3 b c = Lt -> cmp3 a c = Lt.
Proof.
  destruct a as [[a1 a2] a3], b as [[b1 b2] b3], c as [[c1 c2] c3]. unfold cmp3.
  destruct (Z.compare_spec a1 b1), (Z.compare_spec b1 c1), (Z.compare_spec a1 c1);
    try discriminate; try lia; auto;
  destruct (Z.compare_spec a2 b2), (Z.compare_spec b2 c2), (Z.compare_spec a2 c2);
    try discriminate; try lia; auto;
  destruct (Z.compare_spec a3 b3), (Z.compare_spec b3 c3), (Z.compare_spec a3 c3);
    try discriminate; try lia; auto.
Qed.

Lemma SFcompare_key x y : x <> S754_nan -> y <> S754_nan ->
  SFcompare x y = Some (cmp3 (sf_key x) (sf_key y)).
Proof.
  intros Hx Hy.
  destruct x as [[]|[]| |[] mx ex]; try congruence;
  destruct y as [[]|[]| |[] my ey]; try congruence; try reflexivity;
  unfold SFcompare, sf_key, cmp3; cbn.
  - rewrite Z.compare_opp.
    destruct (Z.compare_spec ey ex) as [E|E|E];
      [subst; rewrite Z.compare_refl
      |rewrite (proj2 (Z.compare_gt_iff ex ey) E)
      |rewrite (proj2 (Z.compare_lt_iff ex ey) E)]; reflexivity.
Qed.

Lemma cmp_float_key x y : ordinary x = true -> ordinary y = true ->
  cmp x y = cmp3 (sf_key (Prim2SF x)) (sf_key (Prim2SF y)).
Proof.
  intros Hx Hy. unfold cmp, OrderedFloat_Ord. rewrite FloatAxioms.compare_spec.
  unfold ordinary in Hx, Hy.
  rewrite SFcompare_key by (intros E; rewrite E in *; discriminate). cbn. destruct (cmp3 _ _); reflexivity.
Qed.

Lemma sf_key_inj x y : ordinary x = true -> ordinary y = true ->
  sf_key (Prim2SF x) = sf_key (Prim2SF y) -> x = y.
Proof.
  intros Hx Hy Hk. apply FloatAxioms.Prim2SF_inj. unfold ordinary in Hx, Hy.
  destruct (Prim2SF x) as [[]|[]| |[] mx ex]; try discriminate;
  destruct (Prim2SF y) as [[]|[]| |[] my ey]; try discriminate; try reflexivity;
  simpl in Hk; injection Hk; intros; f_equal; lia.
Qed.

#[export] Instance OFloat_OrdLaws : OrdLaws OFloat.
Proof.
  split.
  - intros [x Hx] [y Hy]. unfold cmp, OFloat_Ord. simpl. rewrite (cmp_float_key x y Hx Hy), cmp3_eq.
    split.
    + intros Hk. apply (sig_eq_pi _). simpl. exact (sf_key_inj x y Hx Hy Hk).
    + intros E. injection E as ->. reflexivity.
  - intros [x Hx] [y Hy]. unfold cmp, OFloat_Ord. simpl.
    rewrite (cmp_float_key x y Hx Hy), (cmp_float_key y x Hy Hx). apply cmp3_antisym.
  - intros [x Hx] [y Hy] [z Hz]. unfold cmp, OFloat_Ord. simpl.
    rewrite (cmp_float_key x y Hx Hy), (cmp_float_key y z Hy Hz), (cmp_float_key x z Hx Hz).
    apply cmp3_lt_trans.
Qed.

Lemma float_cmp_key x y : Prim2SF x <> S754_nan -> Prim2SF y <> S754_nan ->
  cmp x y = cmp3 (sf_key (Prim2SF x)) (sf_key (Prim2SF y)).
Proof.
  intros Hx Hy. unfold cmp, OrderedFloat_Ord. rewrite FloatAxioms.compare_spec.
  rewrite SFcompare_key by assumption. cbn. destruct (cmp3 _ _); reflexivity.
Qed.

Lemma float_cmp_nan_l x y : Prim2SF x = S754_nan -> cmp x y = Eq.
Proof.
  intros Hx. unfold cmp, OrderedFloat_Ord. rewrite FloatAxioms.compare_spec, Hx. reflexivity.
Qed.

Lemma float_cmp_nan_r x y : Prim2SF y = S754_nan -> cmp x y = Eq.
Proof.
  intros Hy. unfold cmp, OrderedFloat_Ord. rewrite FloatAxioms.compare_spec, Hy.
  destruct (Prim2SF x); reflexivity.
Qed.

Lemma float_cmp_antisym (x y : float) : cmp y x = CompOpp (cmp x y).
Proof.
  destruct (decide (Prim2SF x = S754_nan)) as [Hx|Hx];
    [rewrite (float_cmp_nan_l x y), (float_cmp_nan_r y x) by exact Hx; reflexivity|].
  destruct (decide (Prim2SF y = S754_nan)) as [Hy|Hy];
    [rewrite (float_cmp_nan_l y x), (float_cmp_nan_r x y) by exact Hy; reflexivity|].
  rewrite !float_cmp_key by assumption. apply cmp3_antisym.
Qed.

Lemma float_cmp_lt_trans (x y z : float) : cmp x y = Lt -> cmp y z = Lt -> cmp x z = Lt.
Proof.
  destruct (decide (Prim2SF x = S754_nan)) as [Hx|Hx];
    [rewrite (float_cmp_nan_l x y) by exact Hx; discriminate|].
  destruct (decide (Prim2SF y = S754_nan)) as [Hy|Hy];
    [rewrite (float_cmp_nan_l y z) by exact Hy; discriminate|].
  destruct (decide (Prim2SF z = S754_nan)) as [Hz|Hz];
    [rewrite (float_cmp_nan_r y z) by exact Hz; discriminate|].
  rewrite !float_cmp_key by assumption. apply cmp3_lt_trans.
Qed.

Section Transfer.
Context {P Q : Type} `{Ord P} `{Ord Q} (f : P -> Q).
Hypothesis Hf : forall a b, cmp (f a) (f b) = cmp a b.

Lemma ladder_push_map (l : Ladder P) k x :
  map_ladder f (ladder_push l k x) = ladder_push (map_ladder f l) (f k) x.
Proof.
  induction l as [|[k' v] r IH]; simpl; [reflexivity|].
  rewrite Hf. destruct (cmp k k'); simpl; [reflexivity|reflexivity|rewrite IH; reflexivity].
Qed.

Lemma ladder_retain_map (l : Ladder P) k x :
  map_ladder f (ladder_retain l k x) = ladder_retain (map_ladder f l) (f k) x.
Proof.
  induction l as [|[k' v] r IH]; simpl; [reflexivity|].
  rewrite Hf. destruct (cmp k k'); simpl; [|reflexivity|rewrite IH; reflexivity].
  destruct (filter _ v); reflexivity.
Qed.

Lemma ladder_of_map (b : OrderBook P) sd :
  ladder_of (map_book f b) sd = map_ladder f (ladder_of b sd).
Proof. destruct sd; reflexivity. Qed.

Lemma orders_map (b : OrderBook P) : orders (map_book f b) = map_order f <$> orders b.
Proof. reflexivity. Qed.

Lemma lookup_map_book (b : OrderBook P) x :
  orders (map_book f b) !! x = map_order f <$> orders b !! x.
Proof. apply lookup_fmap. Qed.

Lemma remove_map (b : OrderBook P) x :
  remove_order (map_book f b) x =
  (map_book f (fst (remove_order b x)), snd (remove_order b x)).
Proof.
  unfold remove_order. rewrite lookup_map_book.
  destruct (orders b !! x) as [o|]; simpl; [|reflexivity].
  unfold map_book, bump, with_ladder, with_orders, ladder_of.
  destruct (side o); simpl; rewrite fmap_delete, ladder_retain_map; reflexivity.
Qed.

Lemma add_map (b : OrderBook P) o :
  add_order (map_book f b) (map_order f o) =
  (map_book f (fst (add_order b o)), snd (add_order b o)).
Proof.
  unfold add_order. simpl id. rewrite lookup_map_book.
  set (b0 := match orders b !! id o with Some _ => fst (remove_order b (id o)) | None => b end).
  assert (Hb0 : match map_order f <$> orders b !! id o with
                | Some _ => fst (remove_order (map_book f b) (id o))
                | None => map_book f b end = map_book f b0).
  { subst b0. destruct (orders b !! id o); simpl; [rewrite remove_map|]; reflexivity. }
  rewrite Hb0. unfold map_book, bump, with_ladder, with_orders, ladder_of. simpl.
  destruct (side o); simpl; rewrite fmap_insert, ladder_push_map; reflexivity.
Qed.

Lemma update_map (b : OrderBook P) x q now :
  update_order (map_book f b) x q now =
  (map_book f (fst (update_order b x q now)), snd (update_order b x q now)).
Proof.
  unfold update_order. destruct (Z.eqb q 0); [apply remove_map|].
  rewrite lookup_map_book. destruct (orders b !! x) as [o|]; simpl; [|reflexivity].
  unfold map_book, bump, with_orders. simpl. rewrite fmap_insert. reflexivity.
Qed.

Lemma apply_map (b : OrderBook P) op :
  apply_op (map_book f b) (map_op f op) =
  (map_book f (fst (apply_op b op)), snd (apply_op b op)).
Proof. destruct op; simpl; [apply add_map|apply update_map|apply remove_map]. Qed.

Lemma run_map (b : OrderBook P) ops :
  run (map_book f b) (map (map_op f) ops) = map_book f (run b ops).
Proof.
  revert b. induction ops as [|op r IH]; intros b; simpl; [reflexivity|].
  rewrite apply_map. simpl. apply IH.
Qed.

Lemma new_map s : map_book f (OrderBook_new s) = OrderBook_new s.
Proof. unfold map_book, OrderBook_new. simpl. rewrite fmap_empty. reflexivity. Qed.

Lemma ladder_ids_map (l : Ladder P) : ladder_ids (map_ladder f l) = ladder_ids l.
Proof. unfold ladder_ids, map_ladder. rewrite map_map. reflexivity. Qed.

Lemma all_ids_map (b : OrderBook P) : all_ids (map_book f b) = all_ids b.
Proof. unfold all_ids. simpl. rewrite !ladder_ids_map. reflexivity. Qed.

Lemma In_map_ladder (l : Ladder P) k v :
  In (k, v) (map_ladder f l) <-> exists k', k = f k' /\ In (k', v) l.
Proof.
  unfold map_ladder. rewrite in_map_iff. split.
  - intros [[k' v'] [E Hin]]. injection E as <- <-. eauto.
  - intros [k' [-> Hin]]. exists (k', v). auto.
Qed.

Lemma last_key_map (l : Ladder P) : last_key (map_ladder f l) = f <$> last_key l.
Proof.
  induction l as [|[k v] r IH]; [reflexivity|].
  destruct r as [|kv r]; [reflexivity|]. exact IH.
Qed.

Lemma first_key_map (l : Ladder P) : first_key (map_ladder f l) = f <$> first_key l.
Proof. destruct l as [|[k v] r]; reflexivity. Qed.

Lemma side_prices_map (b : OrderBook P) sd :
  side_prices (map_book f b) sd = map_ladder f (side_prices b sd).
Proof. destruct sd; simpl; [unfold map_ladder; rewrite map_rev|]; reflexivity. Qed.

Lemma found_orders_map (m : gmap string (Order P)) ids :
  found_orders (map_order f <$> m) ids = map (map_order f) (found_orders m ids).
Proof.
  induction ids as [|i r IH]; simpl; [reflexivity|].
  rewrite lookup_fmap. destruct (m !! i); simpl; rewrite IH; reflexivity.
Qed.

Lemma mbp_levels_map m sd (l : Ladder P) c now :
  mbp_levels (map_order f <$> m) sd (map_ladder f l) c now =
  map (map_mbp f) (mbp_levels m sd l c now).
Proof.
  revert c. induction l as [|[k ids] r IH]; intros c; simpl; [reflexivity|].
  rewrite found_orders_map. destruct (found_orders m ids) as [|o os]; simpl; [apply IH|].
  rewrite !map_map, IH, length_map. reflexivity.
Qed.

Lemma get_mbp_side_map (b : OrderBook P) sd K now :
  get_mbp_side (map_book f b) sd K now = map (map_mbp f) (get_mbp_side b sd K now).
Proof.
  unfold get_mbp_side. rewrite side_prices_map. unfold map_ladder. rewrite firstn_map.
  apply mbp_levels_map.
Qed.

Lemma mbo_orders_map (m : gmap string (Order P)) ids now :
  mbo_orders (map_order f <$> m) ids now = map (map_mbo f) (mbo_orders m ids now).
Proof.
  induction ids as [|i r IH]; simpl; [reflexivity|].
  rewrite lookup_fmap. destruct (m !! i); simpl; rewrite IH; reflexivity.
Qed.

Lemma mbo_levels_map m (l : Ladder P) c K now :
  mbo_levels (map_order f <$> m) (map_ladder f l) c K now =
  map (map_mbo f) (mbo_levels m l c K now).
Proof.
  revert c. induction l as [|[k ids] r IH]; intros c; simpl; [reflexivity|].
  destruct (Z.leb K c); [reflexivity|]. rewrite map_app, mbo_orders_map, IH. reflexivity.
Qed.

Lemma get_mbo_side_map (b : OrderBook P) sd K now :
  get_mbo_side (map_book f b) sd K now = map (map_mbo f) (get_mbo_side b sd K now).
Proof.
  unfold get_mbo_side. rewrite side_prices_map, orders_map, mbo_levels_map, firstn_map.
  reflexivity.
Qed.

End Transfer.

Section Weak.
Context {P : Type} `{Ord P}.
Hypothesis Hanti : forall x y : P, cmp y x = CompOpp (cmp x y).
Hypothesis Htrans : forall x y z : P, cmp x y = Lt -> cmp y z = Lt -> cmp x z = Lt.

Lemma push_keys_w (l : Ladder P) k x kv :
  In kv (ladder_push l k x) -> kv.1 = k \/ exists v, In (kv.1, v) l.
Proof.
  induction l as [|[k' v] r IH]; simpl.
  - intros [<-|[]]. left; reflexivity.
  - destruct (cmp k k') eqn:Hc; simpl.
    + intros [<-|Hin]; right; [exists v; left; reflexivity|exists kv.2; right; destruct kv; exact Hin].
    + intros [<-|[<-|Hin]]; [left; reflexivity|right; exists v; left; reflexivity|].
      right. exists kv.2. right. destruct kv. exact Hin.
    + intros [<-|Hin]; [right; exists v; left; reflexivity|].
      destruct (IH Hin) as [Hk|[v' Hv']]; [left; exact Hk|right; exists v'; right; exact Hv'].
Qed.

Lemma push_sorted_w (l : Ladder P) k x :
  sorted_keys l -> sorted_keys (ladder_push l k x).
Proof.
  induction l as [|[k' v] r IH]; simpl.
  - intros _. split; [constructor|exact I].
  - intros [Hf Hs]. destruct (cmp k k') eqn:Hc; simpl.
    + split; assumption.
    + split; [|split; assumption].
      constructor; [exact Hc|].
      apply (BookFacts.sorted_keys_forall r (fun y => cmp k y = Lt)). intros kv Hin.
      apply (Htrans _ k'); [exact Hc|].
      apply (BookFacts.forall_keys r (fun y => cmp k' y = Lt) Hf kv.1 kv.2). destruct kv; exact Hin.
    + split; [|apply IH; exact Hs].
      apply (BookFacts.sorted_keys_forall (ladder_push r k x) (fun y => cmp k' y = Lt)).
      intros kv Hin. destruct (push_keys_w r k x kv Hin) as [Hk|[v' Hv']].
      * rewrite Hk, Hanti, Hc. reflexivity.
      * exact (BookFacts.forall_keys r (fun y => cmp k' y = Lt) Hf _ _ Hv').
Qed.

Lemma retain_sorted_w (l : Ladder P) k x :
  sorted_keys l -> sorted_keys (ladder_retain l k x).
Proof.
  induction l as [|[k' v] r IH]; simpl; [auto|].
  intros [Hf Hs]. destruct (cmp k k'); simpl.
  - destruct (filter _ v); simpl; [exact Hs|split; assumption].
  - split; assumption.
  - split; [|apply IH; exact Hs].
    apply (BookFacts.sorted_keys_forall (ladder_retain r k x) (fun y => cmp k' y = Lt)). intros kv Hin.
    destruct (BookFacts.retain_keys r k x kv Hin) as [v' Hv'].
    exact (BookFacts.forall_keys r (fun y => cmp k' y = Lt) Hf _ _ Hv').
Qed.

Lemma remove_sorted_w (b : OrderBook P) x : ladders_sorted b -> ladders_sorted (fst (remove_order b x)).
Proof.
  intros [Hb Ha]. unfold remove_order. destruct (orders b !! x) as [o|]; simpl; [|split; assumption].
  destruct (side o); split; simpl; try assumption; apply retain_sorted_w; assumption.
Qed.

Lemma add_sorted_w (b : OrderBook P) o : ladders_sorted b -> ladders_sorted (fst (add_order b o)).
Proof.
  intros Hs. unfold add_order.
  assert (H0 : ladders_sorted (match orders b !! id o with
                               | Some _ => fst (remove_order b (id o)) | None => b end))
    by (destruct (orders b !! id o); [apply remove_sorted_w|]; exact Hs).
  destruct H0 as [Hb Ha].
  destruct (side o); split; simpl; try assumption; apply push_sorted_w; assumption.
Qed.

Lemma update_sorted_w (b : OrderBook P) x q now :
  ladders_sorted b -> ladders_sorted (fst (update_order b x q now)).
Proof.
  intros Hs. unfold update_order. destruct (Z.eqb q 0); [apply remove_sorted_w; exact Hs|].
  destruct (orders b !! x); exact Hs.
Qed.

Lemma run_sorted_w (b : OrderBook P) ops : ladders_sorted b -> ladders_sorted (run b ops).
Proof.
  revert b. induction ops as [|[o|x q now|x] r IH]; intros b Hs; simpl; [exact Hs| | |];
    apply IH; [apply add_sorted_w|apply update_sorted_w|apply remove_sorted_w]; exact Hs.
Qed.

Lemma side_prices_SS_w (b : OrderBook P) sd :
  ladders_sorted b ->
  StronglySorted (fun kv1 kv2 => ProjFacts.better sd kv1.1 kv2.1) (side_prices b sd).
Proof.
  intros [Sb Sa]. unfold ProjFacts.better. destruct sd; simpl.
  - pose proof (ProjFacts.SS_rev _ _ (ProjFacts.sorted_keys_SS _ Sb)) as HS.
    revert HS. apply StronglySorted_ind; [constructor|]. intros a l _ IH HF.
    constructor; [exact IH|]. eapply Forall_impl; [exact HF|].
    intros kv Hkv. rewrite Hanti, Hkv. reflexivity.
  - apply ProjFacts.sorted_keys_SS. exact Sa.
Qed.

End Weak.

Lemma zsum_app l1 l2 : zsum (l1 ++ l2) = zsum l1 + zsum l2.
Proof. induction l1 as [|a r IH]; simpl; lia. Qed.

(** Wrapped prefix sums of [u64] quantities that never decrease: the sum
    never reached 2^64. *)
Lemma wrap_mono_sum (qs : list Z) :
  Forall (fun q => 0 <= q < 2 ^ 64) qs ->
  (forall i, (S i < length qs)%nat ->
     u64_wrap (zsum (take (S i) qs)) <= u64_wrap (zsum (take (S (S i)) qs))) ->
  zsum qs < 2 ^ 64.
Proof.
  intros HF Hm.
  assert (HQ : forall n q, qs !! n = Some q -> 0 <= q < 2 ^ 64).
  { intros n q Hn. rewrite Forall_lookup in HF. exact (HF n q Hn). }
  assert (Hs : forall n q, qs !! n = Some q -> zsum (take (S n) qs) = zsum (take n qs) + q).
  { intros n q Hn. rewrite (take_S_r _ _ _ Hn), zsum_app. simpl. lia. }
  assert (Hall : forall n, (n <= length qs)%nat -> 0 <= zsum (take n qs) < 2 ^ 64).
  { induction n as [|n IH]; intros Hn; [simpl; lia|].
    destruct (lookup_lt_is_Some_2 qs n ltac:(lia)) as [q Hq].
    rewrite (Hs n q Hq). pose proof (HQ n q Hq). specialize (IH ltac:(lia)).
    destruct n as [|n]; [simpl; lia|].
    split; [lia|].
    specialize (Hm n ltac:(lia)). rewrite (Hs (S n) q Hq) in Hm.
    unfold u64_wrap in Hm. rewrite (Z.mod_small (zsum (take (S n) qs))) in Hm by lia.
    destruct (Z.ltb_spec (zsum (take (S n) qs) + q) (2 ^ 64)) as [Hl|Hl]; [exact Hl|].
    exfalso. rewrite (Zmod_eq_full (zsum (take (S n) qs) + q) (2 ^ 64)) in Hm by lia.
    assert (Hd : (zsum (take (S n) qs) + q) / 2 ^ 64 = 1).
    { symmetry. apply Z.div_unique with (zsum (take (S n) qs) + q - 2 ^ 64); lia. }
    rewrite Hd in Hm. lia. }
  pose proof (Hall (length qs) ltac:(lia)) as Hl. rewrite take_ge in Hl by lia. lia.
Qed.

Section WeakMBP.
Context {P : Type} `{Ord P}.
Hypothesis Hanti : forall x y : P, cmp y x = CompOpp (cmp x y).
Hypothesis Htrans : forall x y z : P, cmp x y = Lt -> cmp y z = Lt -> cmp x z = Lt.

Lemma mbp_side_spec_w (s : string) (ops : list (Op P)) (sd : Side) (K now : Z) :
  let b := run (OrderBook_new s) ops in
  let res := get_mbp_side b sd K now in
  (length res <= Z.to_nat K)%nat /\
  (forall i e1 e2, res !! i = Some e1 -> res !! S i = Some e2 ->
     cmp (mbp_price e1) (mbp_price e2) = match sd with Bid => Gt | Ask => Lt end) /\
  (forall i e, res !! i = Some e ->
     mbp_total_quantity e = u64_wrap (zsum (map mbp_quantity (take (S i) res)))) /\
  (zsum (map mbp_quantity res) < 2 ^ 64 <->
     forall i e1 e2, res !! i = Some e1 -> res !! S i = Some e2 ->
     mbp_total_quantity e1 <= mbp_total_quantity e2).
Proof.
  intros b res.
  assert (Hi : ladders_sorted b) by (apply run_sorted_w; [exact Hanti|exact Htrans|split; exact I]).
  assert (Htot : forall i e, res !! i = Some e ->
     mbp_total_quantity e = u64_wrap (zsum (map mbp_quantity (take (S i) res)))).
  { intros i e He. exact (ProjFacts.mbp_levels_totals _ _ _ 0 now i e He). }
  pose proof (ProjFacts.mbp_levels_quantities (orders b) sd (take (Z.to_nat K) (side_prices b sd)) 0 now)
    as HQ. fold (get_mbp_side b sd K now) in HQ. fold res in HQ.
  assert (HQ0 : Forall (fun q => 0 <= q) (map mbp_quantity res))
    by (eapply Forall_impl; [exact HQ|]; intros q Hq; cbv beta in *; lia).
  split; [|split; [|split; [exact Htot|split]]].
  - unfold res, get_mbp_side. etransitivity; [apply ProjFacts.mbp_levels_length|].
    rewrite length_take. lia.
  - intros i e1 e2 H1 H2.
    assert (HS : StronglySorted (ProjFacts.better sd) (map mbp_price res)).
    { apply ProjFacts.mbp_levels_SS. apply (ProjFacts.SS_sub _ _ _ (sublist_take _ _)).
      apply side_prices_SS_w; assumption. }
    apply (ProjFacts.SS_consec _ _ i _ _ HS); rewrite ProjFacts.lookup_map;
      [rewrite H1|rewrite H2]; reflexivity.
  - intros Hlt i e1 e2 H1 H2. rewrite (Htot i e1 H1), (Htot (S i) e2 H2).
    assert (Hm : forall n, 0 <= zsum (take n (map mbp_quantity res)) < 2 ^ 64).
    { intros n. split; [apply ProjFacts.zsum_nonneg, (ProjFacts.Forall_sub _ _ _ (sublist_take _ _)), HQ0|].
      pose proof (ProjFacts.zsum_take_le _ n HQ0). lia. }
    rewrite <- !firstn_map. unfold u64_wrap.
    rewrite !Z.mod_small by apply Hm.
    apply ProjFacts.zsum_take_mono; [exact HQ0|lia].
  - intros Hmono. apply wrap_mono_sum; [exact HQ|].
    intros i Hi'. rewrite length_map in Hi'.
    destruct (lookup_lt_is_Some_2 res i ltac:(lia)) as [e1 H1].
    destruct (lookup_lt_is_Some_2 res (S i) ltac:(lia)) as [e2 H2].
    rewrite !firstn_map, <- (Htot i e1 H1), <- (Htot (S i) e2 H2).
    exact (Hmono i e1 e2 H1 H2).
Qed.

End WeakMBP.

(** Claim C5 (as amended). On every f64 book reached from a fresh book by
    adds, updates and removals, whatever the prices (NaN and -0.0
    included), the MBP side for [max_levels = K] has at most [K] entries,
    strictly ordered by price priority (bids strictly descending, asks
    strictly ascending, in [OrderedFloat]'s order), and each entry's
    cumulative quantity is the running sum of the level quantities up to
    and including it, in [u64] arithmetic. The cumulative quantities are
    non-decreasing exactly when the level quantities sum to less than
    2^64; beyond that the [u64] running sum wraps. *)
Theorem mbp_side_spec (s : string) (ops : list (Op float)) (sd : Side) (K now : Z) :
  let b := run (OrderBook_new s) ops in
  let res := get_mbp_side b sd K now in
  (length res <= Z.to_nat K)%nat /\
  (forall i e1 e2, res !! i = Some e1 -> res !! S i = Some e2 ->
     cmp (mbp_price e1) (mbp_price e2) = match sd with Bid => Gt | Ask => Lt end) /\
  (forall i e, res !! i = Some e ->
     mbp_total_quantity e = u64_wrap (zsum (map mbp_quantity (take (S i) res)))) /\
  (zsum (map mbp_quantity res) < 2 ^ 64 <->
     forall i e1 e2, res !! i = Some e1 -> res !! S i = Some e2 ->
     mbp_total_quantity e1 <= mbp_total_quantity e2).
Proof. apply mbp_side_spec_w; [exact float_cmp_antisym|exact float_cmp_lt_trans]. Qed.

Lemma proj_cmp (a b : OFloat) : cmp (oval a) (oval b) = cmp a b.
Proof. reflexivity. Qed.

Lemma lift_order (o : Order float) : ordinary (price o) = true ->
  exists o' : Order OFloat, o = map_order oval o'.
Proof.
  intros Ho. exists (mkOrder (id o) (exist _ (price o) Ho) (quantity o) (side o)
                             (timestamp o) (original_quantity o)).
  destruct o; reflexivity.
Qed.

Lemma lift_ops (ops : list (Op float)) : ops_ordinary ops = true ->
  exists ops' : list (Op OFloat), ops = map (map_op oval) ops'.
Proof.
  induction ops as [|op r IH]; intros Hops; [exists []; reflexivity|].
  unfold ops_ordinary in Hops. simpl in Hops. apply andb_prop in Hops as [Hop Hr].
  destruct (IH Hr) as [r' ->].
  destruct op as [o|x q now|x].
  - destruct (lift_order o Hop) as [o' ->]. exists (OpAdd o' :: r'). reflexivity.
  - exists (OpUpdate x q now :: r'). reflexivity.
  - exists (OpRemove x :: r'). reflexivity.
Qed.

Lemma lift_run (s : string) (ops : list (Op float)) : ops_ordinary ops = true ->
  exists ops' : list (Op OFloat),
    run (OrderBook_new s) ops = map_book oval (run (OrderBook_new s) ops').
Proof.
  intros Hops. destruct (lift_ops ops Hops) as [ops' ->]. exists ops'.
  rewrite <- (new_map oval s) at 1. apply (run_map oval proj_cmp).
Qed.

(** Claim C3 (as amended). On every f64 book reached from a fresh book by
    adds, updates and removals whose added prices are neither NaN nor
    -0.0: an id in the ladder of side [s] at key [k] is indexed with side
    [s] and price [k]; the ids of both ladders together have no duplicate,
    so an id occupies exactly one slot, once; and no key of either ladder
    holds an empty slot. *)
Theorem reachable_book_invariant (s : string) (ops : list (Op float)) :
  ops_ordinary ops = true ->
  let b := run (OrderBook_new s) ops in
  (forall sd k v x, In (k, v) (ladder_of b sd) -> In x v ->
     exists o, orders b !! x = Some o /\ side o = sd /\ price o = k) /\
  NoDup (all_ids b) /\
  (forall sd k v, In (k, v) (ladder_of b sd) -> v <> []).
Proof.
  intros Hops b. destruct (lift_run s ops Hops) as [ops' Hb]. subst b. rewrite Hb.
  destruct (BookFacts.reachable_book_invariant_ord (P := OFloat) s ops') as (H1 & H2 & H3).
  split; [|split].
  - intros sd k v x Hin Hx. rewrite ladder_of_map, In_map_ladder in Hin.
    destruct Hin as [k' [-> Hin]]. destruct (H1 sd k' v x Hin Hx) as [o [Ho [Hs Hp]]].
    exists (map_order oval o). rewrite lookup_map_book, Ho.
    split; [reflexivity|]. simpl. rewrite Hp. auto.
  - rewrite all_ids_map. exact H2.
  - intros sd k v Hin. rewrite ladder_of_map, In_map_ladder in Hin.
    destruct Hin as [k' [_ Hin]]. exact (H3 sd k' v Hin).
Qed.

(** Claim C4 (as amended). Upsert: on an f64 book reached from a fresh book
    by adds, updates and removals whose added prices are neither NaN nor
    -0.0, adding [o1] and then [o2] with the same id, both priced neither
    NaN nor -0.0, leaves [o2] as the only resting order with that id: the
    index maps the id to [o2] (its price and quantity), the id rests in
    the slot of [o2]'s side at [o2]'s price, and it occurs exactly once
    over both ladders. *)
Theorem add_order_upsert (s : string) (ops : list (Op float)) (o1 o2 : Order float) :
  ops_ordinary ops = true -> ordinary (price o1) = true -> ordinary (price o2) = true ->
  id o1 = id o2 ->
  let b := fst (add_order (fst (add_order (run (OrderBook_new s) ops) o1)) o2) in
  orders b !! id o2 = Some o2 /\
  (exists v, In (price o2, v) (ladder_of b (side o2)) /\ In (id o2) v) /\
  length (filter (fun y => y = id o2) (all_ids b)) = 1%nat.
Proof.
  intros Hops H1 H2 Hid b. subst b.
  destruct (lift_run s ops Hops) as [ops' ->].
  destruct (lift_order o1 H1) as [o1' ->]. destruct (lift_order o2 H2) as [o2' ->].
  rewrite (add_map oval proj_cmp). cbn [fst]. rewrite (add_map oval proj_cmp). cbn [fst].
  destruct (BookFacts.add_order_upsert_ord (P := OFloat) s ops' o1' o2' Hid) as (A1 & A2 & A3).
  split; [|split].
  - rewrite lookup_map_book. simpl id. rewrite A1. reflexivity.
  - destruct A2 as [v [Hv Hx]]. exists v. simpl. rewrite ladder_of_map, In_map_ladder.
    split; [exists (price o2'); split; [reflexivity|exact Hv]|exact Hx].
  - rewrite all_ids_map. exact A3.
Qed.

Section Transfer2.
Context {P Q : Type} `{Ord P} `{Ord Q} (f : P -> Q).
Hypothesis Hf : forall a b, cmp (f a) (f b) = cmp a b.

Lemma filter_mbo_map (l : list (MBOLevel P)) k :
  filter (fun e => cmp (mbo_price e) (f k) = Eq) (map (map_mbo f) l) =
  map (map_mbo f) (filter (fun e => cmp (mbo_price e) k = Eq) l).
Proof.
  induction l as [|e r IH]; [reflexivity|]. simpl. rewrite !filter_cons. simpl.
  rewrite Hf. destruct (decide (cmp (mbo_price e) k = Eq)); simpl; rewrite IH; reflexivity.
Qed.

Lemma lookup_map_some {A B : Type} (g : A -> B) (l : list A) i e :
  map g l !! i = Some e -> exists e', l !! i = Some e' /\ e = g e'.
Proof.
  rewrite ProjFacts.lookup_map. destruct (l !! i) as [e'|]; simpl; [|discriminate].
  intros E. injection E as <-. eauto.
Qed.
End Transfer2.

(** Claim C6 (as amended). On every f64 book reached from a fresh book by
    adds, updates and removals whose added prices are neither NaN nor
    -0.0, the MBO side for [max_levels = K] renders at most [3 * K] orders
    ([truncate((K * 3) as usize)], a [u32] product, never exceeds
    [3 * K]); their prices are taken from at most [K] price levels;
    consecutive entries are in price priority (a bid is never followed by
    a higher bid, an ask never by a lower ask); and the ids rendered at
    any one price are a prefix of that ladder slot, which keeps ids in the
    order they were added. *)
Theorem mbo_side_spec (s : string) (ops : list (Op float)) (sd : Side) (K now : Z) :
  ops_ordinary ops = true ->
  let b := run (OrderBook_new s) ops in
  let res := get_mbo_side b sd K now in
  (length res <= 3 * Z.to_nat K)%nat /\
  (exists ks : list float, (length ks <= Z.to_nat K)%nat /\ Forall (fun e => In (mbo_price e) ks) res) /\
  (forall i e1 e2, res !! i = Some e1 -> res !! S i = Some e2 ->
     cmp (mbo_price e1) (mbo_price e2) <> match sd with Bid => Lt | Ask => Gt end) /\
  (forall k v, In (k, v) (ladder_of b sd) ->
     map mbo_order_id (filter (fun e => cmp (mbo_price e) k = Eq) res) `prefix_of` v).
Proof.
  intros Hops b res. destruct (lift_run s ops Hops) as [ops' Hb].
  subst res b. rewrite Hb, (get_mbo_side_map oval).
  destruct (ProjFacts.mbo_side_spec_ord (P := OFloat) s ops' sd K now) as (A1 & A2 & A3 & A4).
  split; [|split; [|split]].
  - rewrite length_map. exact A1.
  - destruct A2 as [ks [Hl Hks]]. exists (map oval ks). rewrite length_map. split; [exact Hl|].
    apply Stdlib.Lists.List.Forall_map. eapply Stdlib.Lists.List.Forall_impl; [|exact Hks].
    intros e He. simpl. apply in_map. exact He.
  - intros i e1 e2 H1 H2.
    destruct (lookup_map_some _ _ _ _ H1) as [e1' [H1' ->]].
    destruct (lookup_map_some _ _ _ _ H2) as [e2' [H2' ->]].
    exact (A3 i e1' e2' H1' H2').
  - intros k v Hin. rewrite ladder_of_map, In_map_ladder in Hin.
    destruct Hin as [k' [-> Hin]].
    rewrite (filter_mbo_map oval proj_cmp), map_map.
    exact (A4 k' v Hin).
Qed.

Lemma best_of_map {P Q : Type} `{Ord P} `{Ord Q} (f : P -> Q) (b : OrderBook P) sd :
  BookExt.best_of (map_book f b) sd = f <$> BookExt.best_of b sd.
Proof.
  destruct sd; unfold BookExt.best_of, get_best_bid_ask; simpl;
    [apply last_key_map|apply first_key_map].
Qed.

(** On an f64 book reached from a fresh book by adds, updates and removals
    whose added prices are neither NaN nor -0.0, the book seen through its
    index and through its ladders describes the same resting orders. *)
Theorem index_ladders_agree (s : string) (ops : list (Op float)) :
  ops_ordinary ops = true ->
  let b := run (OrderBook_new s) ops in
  (forall x, is_Some (orders b !! x) <-> In x (all_ids b)) /\
  (forall x o, orders b !! x = Some o ->
     id o = x /\ exists v, In (price o, v) (ladder_of b (side o)) /\ In x v).
Proof.
  intros Hops b. destruct (lift_run s ops Hops) as [ops' Hb]. subst b. rewrite Hb.
  destruct (BookMore.index_ladders_agree_ord (P := OFloat) s ops') as [A1 A2].
  split.
  - intros x. rewrite lookup_map_book, all_ids_map, <- A1. apply fmap_is_Some.
  - intros x o Hx. rewrite lookup_map_book in Hx.
    destruct (orders (run (OrderBook_new s) ops') !! x) as [o'|] eqn:E; [|discriminate].
    injection Hx as <-. destruct (A2 x o' E) as [Hid [v [Hv Hin]]].
    split; [exact Hid|]. exists v. split; [|exact Hin].
    rewrite ladder_of_map, In_map_ladder. exists (price o'). auto.
Qed.

(** On an f64 book reached from a fresh book by adds, updates and removals
    whose added prices are neither NaN nor -0.0, the best price of each
    side is the price of a resting order of that side, and no resting
    order of that side has a better price; a side has no best price
    exactly when it has no resting order. *)
Theorem best_price_extremal (s : string) (ops : list (Op float)) (sd : Side) :
  ops_ordinary ops = true ->
  let b := run (OrderBook_new s) ops in
  (BookExt.best_of b sd = None <-> forall x o, orders b !! x = Some o -> side o <> sd) /\
  (forall p, BookExt.best_of b sd = Some p ->
     (exists x o, orders b !! x = Some o /\ side o = sd /\ price o = p) /\
     (forall x o, orders b !! x = Some o -> side o = sd ->
        price o = p \/ cmp (price o) p = BookExt.worse sd)).
Proof.
  intros Hops b. destruct (lift_run s ops Hops) as [ops' Hb]. subst b. rewrite Hb.
  set (b' := run (OrderBook_new s) ops').
  destruct (BookMore.best_price_extremal_ord (P := OFloat) s ops' sd) as [A1 A2]. fold b' in A1, A2.
  rewrite best_of_map. split.
  - rewrite fmap_None, A1. split.
    + intros Hn x o Hx. rewrite lookup_map_book in Hx.
      destruct (orders b' !! x) as [o'|] eqn:E; [|discriminate].
      injection Hx as <-. exact (Hn x o' E).
    + intros Hn x o' E. apply (Hn x (map_order oval o')). rewrite lookup_map_book, E. reflexivity.
  - intros p Hp. destruct (BookExt.best_of b' sd) as [p'|] eqn:Ep; [|discriminate].
    injection Hp as <-. destruct (A2 p' eq_refl) as [[x [o [Ho [Hs Hpr]]]] Hall]. split.
    + exists x, (map_order oval o). rewrite lookup_map_book, Ho. simpl. rewrite Hpr. auto.
    + intros y o1 Hy Hs1. rewrite lookup_map_book in Hy.
      destruct (orders b' !! y) as [o'|] eqn:E; [|discriminate].
      injection Hy as <-. simpl. destruct (Hall y o' E Hs1) as [->|Hw]; [left; reflexivity|].
      right. rewrite proj_cmp. exact Hw.
Qed.

(** On an f64 book reached from a fresh book by adds, updates and removals
    whose added prices are neither NaN nor -0.0, with at least one level
    requested ([max_levels] is a [u32]), the first level of the
    market-by-price and of the market-by-order view of a side is at the
    best price of that side, and both views are empty exactly when the
    side has no best price. *)
Theorem top_level_is_best (s : string) (ops : list (Op float)) (sd : Side) (K now : Z) :
  ops_ordinary ops = true -> 0 < K < 2 ^ 32 ->
  let b := run (OrderBook_new s) ops in
  match get_mbp_side b sd K now with
  | [] => BookExt.best_of b sd = None
  | e :: _ => BookExt.best_of b sd = Some (mbp_price e)
  end /\
  match get_mbo_side b sd K now with
  | [] => BookExt.best_of b sd = None
  | e :: _ => BookExt.best_of b sd = Some (mbo_price e)
  end.
Proof.
  intros Hops HK b. destruct (lift_run s ops Hops) as [ops' Hb]. subst b. rewrite Hb.
  rewrite (get_mbp_side_map oval), (get_mbo_side_map oval), best_of_map.
  destruct (BookMore.top_level_is_best_ord (P := OFloat) s ops' sd K now HK) as [A1 A2].
  split.
  - destruct (get_mbp_side _ sd K now); simpl; rewrite A1; reflexivity.
  - destruct (get_mbo_side _ sd K now); simpl; rewrite A2; reflexivity.
Qed.

(** On an f64 book reached from a fresh book by adds, updates and removals
    whose added prices are neither NaN nor -0.0, adding an order whose
    price is neither and removing its id right away succeeds and leaves
    the index and the ladders exactly as removing that id from the
    original book would; when the id was not indexed, the book's index and
    ladders are restored. *)
Theorem add_remove_roundtrip (s : string) (ops : list (Op float)) (o : Order float) :
  ops_ordinary ops = true -> ordinary (price o) = true ->
  let b := run (OrderBook_new s) ops in
  let r := remove_order (fst (add_order b o)) (id o) in
  snd r = true /\
  orders (fst r) = delete (id o) (orders b) /\
  bids_by_price (fst r) = bids_by_price (fst (remove_order b (id o))) /\
  asks_by_price (fst r) = asks_by_price (fst (remove_order b (id o))) /\
  (orders b !! id o = None ->
     orders (fst r) = orders b /\ bids_by_price (fst r) = bids_by_price b /\
     asks_by_price (fst r) = asks_by_price b).
Proof.
  intros Hops Ho b r. destruct (lift_run s ops Hops) as [ops' Hb].
  destruct (lift_order o Ho) as [o' ->]. subst r b. rewrite Hb.
  set (b' := run (OrderBook_new s) ops').
  destruct (BookMore.add_remove_roundtrip_ord (P := OFloat) s ops' o') as (A1 & A2 & A3 & A4 & A5).
  fold b' in A1, A2, A3, A4, A5.
  rewrite (add_map oval proj_cmp). cbn [fst]. simpl id.
  rewrite !(remove_map oval proj_cmp). cbn [fst snd].
  rewrite !lookup_map_book, fmap_None. unfold map_book. cbn [orders bids_by_price asks_by_price].
  split; [exact A1|]. split; [rewrite A2, fmap_delete; reflexivity|].
  split; [rewrite A3; reflexivity|]. split; [rewrite A4; reflexivity|].
  intros Hn. destruct (A5 Hn) as (B1 & B2 & B3). rewrite B1, B2, B3. auto.
Qed.

End FloatBook.

(** ** The market simulation *)
Module ActivityFacts.
Import Book BookFacts BookExt Activity.

Lemma key_of_ids (m : gmap string (Order float)) (ids : list string) i x :
  ids ≡ₚ (map_to_list m).*1 -> ids !! i = Some x -> is_Some (m !! x).
Proof.
  intros Hp Hi. apply list_elem_of_lookup_2 in Hi.
  apply list_elem_of_In in Hi. apply (Permutation_in _ Hp) in Hi.
  apply list_elem_of_In, list_elem_of_fmap in Hi as [[y o] [Hy Hin]].
  simpl in Hy. subst y. apply elem_of_map_to_list in Hin. exists o. exact Hin.
Qed.

Lemma run_app_ops {P : Type} `{Ord P} (b : OrderBook P) ops1 ops2 :
  run b (ops1 ++ ops2) = run (run b ops1) ops2.
Proof. revert b. induction ops1 as [|op r IH]; intros b; simpl; [reflexivity|apply IH]. Qed.

(** What the generator hands to [execute_activity]: an activity names the
    book's symbol; on an empty book it is always a new order; a new order
    carries a price, a side and a quantity in [1000..=10000]; an update
    names an indexed order and a positive quantity; a cancellation names an
    indexed order. *)
Theorem generated_activity_spec (b : OrderBook float) (now : Z) (a : OrderActivity) :
  generate_random_activity b now a ->
  Activity.symbol a = Book.symbol b /\
  (orders b = ∅ -> activity_type a = Add) /\
  (activity_type a = Add ->
     exists p q sd, Activity.price a = Some p /\ Activity.quantity a = Some q /\
       1000 <= q <= 10000 /\ Activity.side a = Some sd) /\
  (activity_type a = Update ->
     is_Some (orders b !! order_id a) /\ exists q, Activity.quantity a = Some q /\ 0 < q) /\
  (activity_type a = Cancel -> is_Some (orders b !! order_id a)).
Proof.
  induction 1 as [now r bit v q u _ _ _ Hq _
                 |now r bit ids i x o delta _ _ _ Hne _ _ Ho _
                 |now r bit ids i x now' a _ _ _ _ _ _ _ _ _ IH
                 |now r bit ids i x _ _ _ Hne Hp Hi
                 |now r bit now' a _ _ _ _ _ IH].
  - unfold add_activity. simpl. split; [reflexivity|].
    split; [reflexivity|]. split; [|split; [discriminate|discriminate]].
    intros _. do 3 eexists. repeat split; eauto; lia.
  - unfold update_activity. simpl. split; [reflexivity|].
    split; [intros He; contradiction|].
    destruct (Z.ltb_spec 0 (Z.max (i64_wrap (u64_as_i64 (Book.quantity o) + delta)) 0)) as [Hpos|Hz];
      simpl.
    + split; [discriminate|]. split; [|discriminate].
      intros _. split; [rewrite Ho; eexists; reflexivity|]. eexists. split; [reflexivity|exact Hpos].
    + split; [discriminate|]. split; [discriminate|].
      intros _. rewrite Ho. eexists. reflexivity.
  - exact IH.
  - unfold cancel_activity. simpl. split; [reflexivity|].
    split; [intros He; contradiction|]. split; [discriminate|]. split; [discriminate|].
    intros _. exact (key_of_ids _ _ _ _ Hp Hi).
  - exact IH.
Qed.

Lemma generated_applies_op (b : OrderBook float) now a :
  generate_random_activity b now a -> forall t,
  exists op, execute_activity b a t = fst (apply_op b op) /\ snd (apply_op b op) = true.
Proof.
  induction 1 as [now r bit v q u
                 |now r bit ids i x o delta _ _ _ _ _ _ Ho _
                 |now r bit ids i x now' a _ _ _ _ _ _ _ _ _ IH
                 |now r bit ids i x _ _ _ _ Hp Hi
                 |now r bit now' a _ _ _ _ _ IH]; intros t.
  - unfold add_activity, execute_activity.
    cbn [activity_type Activity.price Activity.quantity Activity.side order_id].
    eexists (OpAdd _). split; [reflexivity|]. reflexivity.
  - unfold update_activity, execute_activity.
    destruct (Z.ltb_spec 0 (Z.max (i64_wrap (u64_as_i64 (Book.quantity o) + delta)) 0)) as [Hpos|Hz];
      cbn [activity_type Activity.quantity order_id].
    + eexists (OpUpdate x _ t). split; [reflexivity|].
      cbv beta iota delta [apply_op]. unfold update_order.
      destruct (Z.eqb_spec (Z.max (i64_wrap (u64_as_i64 (Book.quantity o) + delta)) 0) 0);
        [lia|]. rewrite Ho. reflexivity.
    + exists (OpRemove x). split; [reflexivity|].
      cbv beta iota delta [apply_op]. unfold remove_order. rewrite Ho. destruct (Book.side o); reflexivity.
  - apply IH.
  - unfold cancel_activity, execute_activity. cbn [activity_type order_id].
    exists (OpRemove x). split; [reflexivity|].
    destruct (key_of_ids _ _ _ _ Hp Hi) as [o Ho].
    cbv beta iota delta [apply_op]. unfold remove_order. rewrite Ho. destruct (Book.side o); reflexivity.
  - apply IH.
Qed.

(** Every activity the generator returns, executed on the book it was
    generated from, is an applied mutation: an add, or an update or a
    removal of an indexed order, which reports success. *)
Theorem generated_activity_applies (b : OrderBook float) (now t : Z) (a : OrderActivity) :
  generate_random_activity b now a ->
  exists op, execute_activity b a t = fst (apply_op b op) /\ snd (apply_op b op) = true.
Proof. intros Hg. exact (generated_applies_op b now a Hg t). Qed.

Lemma applies_of_success {P : Type} `{Ord P} (b : OrderBook P) op :
  snd (apply_op b op) = true -> applies b op = true.
Proof.
  intros Hs. destruct op as [o|x q now|x]; simpl; [reflexivity| |];
    apply bool_decide_eq_true; destruct (orders b !! x) eqn:Hx; try (eexists; reflexivity);
    exfalso; revert Hs; cbv beta iota delta [apply_op].
  - unfold update_order, remove_order. rewrite Hx. destruct (Z.eqb q 0); discriminate.
  - unfold remove_order. rewrite Hx. discriminate.
Qed.

Lemma simulate_loop_run (b : OrderBook float) acts b' :
  simulate_loop b acts b' ->
  exists ops, b' = run b ops /\ length ops = length acts /\
    applied_count b ops = Z.of_nat (length acts).
Proof.
  induction 1 as [b|b t t' a acts b' Hg _ IH].
  - exists []. auto.
  - destruct (generated_applies_op b t a Hg t') as [op [Hop Hs]].
    destruct IH as [ops [Hb [Hl Hc]]]. rewrite Hop in Hb, Hc.
    exists (op :: ops). split; [exact Hb|]. split; [simpl; rewrite Hl; reflexivity|].
    simpl. rewrite (applies_of_success b op Hs), Hc. lia.
Qed.

(** A round of market simulation is a sequence of adds, updates and
    removals, one per returned activity, each of which applies; so a round
    performs between one and eight applied mutations. *)
Theorem simulate_activity_mutations (b : OrderBook float) (acts : list OrderActivity)
    (b' : OrderBook float) :
  simulate_activity b acts b' ->
  exists ops, b' = run b ops /\ length ops = length acts /\
    applied_count b ops = Z.of_nat (length acts) /\ 1 <= applied_count b ops <= 8.
Proof.
  intros [Hn Hl]. destruct (simulate_loop_run _ _ _ Hl) as [ops [Hb [Hlen Hc]]].
  exists ops. split; [exact Hb|]. split; [exact Hlen|]. split; [exact Hc|]. lia.
Qed.

End ActivityFacts.

(** * The stream managers *)

Module AssocFacts.
Section A.
Context {K V : Type} `{EqDecision K}.

Lemma lookup_insert_same (l : list (K * V)) k v :
  Assoc.lookup (Assoc.insert l k v) k = Some v.
Proof.
  induction l as [|[k' v'] r IH]; simpl.
  - rewrite decide_True by reflexivity. reflexivity.
  - destruct (decide (k = k')) as [->|Hne]; simpl.
    + rewrite decide_True by reflexivity. reflexivity.
    + rewrite decide_False by exact Hne. exact IH.
Qed.

Lemma lookup_insert_other (l : list (K * V)) k k' v :
  k' <> k -> Assoc.lookup (Assoc.insert l k v) k' = Assoc.lookup l k'.
Proof.
  intros Hne. induction l as [|[k0 v0] r IH]; simpl.
  - rewrite decide_False by exact Hne. reflexivity.
  - destruct (decide (k = k0)) as [->|Hne0]; simpl.
    + rewrite !decide_False by exact Hne. reflexivity.
    + destruct (decide (k' = k0)); [reflexivity|exact IH].
Qed.

Lemma lookup_remove_same (l : list (K * V)) k : Assoc.lookup (AssocExt.remove l k) k = None.
Proof.
  unfold AssocExt.remove. induction l as [|[k0 v0] r IH]; [reflexivity|].
  destruct (decide (k0 = k)) as [->|Hne].
  - rewrite filter_cons_False by (simpl; tauto). exact IH.
  - rewrite filter_cons_True by (simpl; exact Hne). simpl.
    rewrite decide_False by congruence. exact IH.
Qed.

Lemma lookup_remove_other (l : list (K * V)) k k' :
  k' <> k -> Assoc.lookup (AssocExt.remove l k) k' = Assoc.lookup l k'.
Proof.
  intros Hne. unfold AssocExt.remove. induction l as [|[k0 v0] r IH]; [reflexivity|].
  destruct (decide (k0 = k)) as [->|Hne0].
  - rewrite filter_cons_False by (simpl; tauto). simpl.
    rewrite decide_False by exact Hne. exact IH.
  - rewrite filter_cons_True by (simpl; exact Hne0). simpl.
    destruct (decide (k' = k0)); [reflexivity|exact IH].
Qed.

Lemma contains_key_lookup (l : list (K * V)) k :
  Assoc.contains_key l k = true -> exists v, Assoc.lookup l k = Some v.
Proof. unfold Assoc.contains_key. destruct (Assoc.lookup l k); [eauto|discriminate]. Qed.

Lemma contains_key_none (l : list (K * V)) k :
  Assoc.contains_key l k = false -> Assoc.lookup l k = None.
Proof. unfold Assoc.contains_key. destruct (Assoc.lookup l k); [discriminate|reflexivity]. Qed.

Lemma lookup_In (l : list (K * V)) k v : Assoc.lookup l k = Some v -> In (k, v) l.
Proof.
  induction l as [|[k0 v0] r IH]; simpl; [discriminate|].
  destruct (decide (k = k0)) as [->|_]; [intros [= ->]; left; reflexivity|].
  intros H. right. exact (IH H).
Qed.

Lemma insert_keys (l : list (K * V)) k v :
  Assoc.lookup l k <> None -> map fst (Assoc.insert l k v) = map fst l.
Proof.
  induction l as [|[k0 v0] r IH]; simpl; [congruence|].
  destruct (decide (k = k0)); simpl; [reflexivity|]. intros H. f_equal. exact (IH H).
Qed.

Lemma lookup_keys (l l' : list (K * V)) k :
  map fst l = map fst l' -> Assoc.lookup l k = None <-> Assoc.lookup l' k = None.
Proof.
  revert l'. induction l as [|[k0 v0] r IH]; intros [|[k1 v1] r'] Hk; simpl in *;
    try discriminate; [tauto|].
  injection Hk as -> Hk. destruct (decide (k = k1)); [split; discriminate|]. exact (IH r' Hk).
Qed.

End A.

Lemma lookup_push_same {K W : Type} `{EqDecision K} (l : list (K * list W)) k x :
  Assoc.lookup (Assoc.push l k x) k = Some (default [] (Assoc.lookup l k) ++ [x]).
Proof.
  induction l as [|[k' v] r IH]; simpl.
  - rewrite decide_True by reflexivity. reflexivity.
  - destruct (decide (k = k')) as [->|Hne]; simpl.
    + rewrite decide_True by reflexivity. reflexivity.
    + rewrite decide_False by exact Hne. exact IH.
Qed.

Lemma lookup_push_other {K W : Type} `{EqDecision K} (l : list (K * list W)) k k' x :
  k' <> k -> Assoc.lookup (Assoc.push l k x) k' = Assoc.lookup l k'.
Proof.
  intros Hne. induction l as [|[k0 v0] r IH]; simpl.
  - rewrite decide_False by exact Hne. reflexivity.
  - destruct (decide (k = k0)) as [->|Hne0]; simpl.
    + rewrite !decide_False by exact Hne. reflexivity.
    + destruct (decide (k' = k0)); [reflexivity|exact IH].
Qed.

End AssocFacts.

Module RegistryMore.
Import Registry RegistryExt AssocFacts.

(** [StreamManager::unregister_client] removes the client and every one of
    its subscriptions, keeps every other client and every subscription of
    another client under its symbol, prunes the symbols left without
    subscriptions and leaves the books alone. *)
Theorem unregister_client_spec (sm : StreamManager) (cid : Z) :
  let sm' := unregister_client sm cid in
  Assoc.lookup (clients sm') cid = None /\
  (forall k, k <> cid -> Assoc.lookup (clients sm') k = Assoc.lookup (clients sm) k) /\
  (forall k s, (exists v, In (k, v) (subscriptions sm') /\ In s v) <->
               (exists v, In (k, v) (subscriptions sm) /\ In s v) /\ client_id s <> cid) /\
  (forall k v, In (k, v) (subscriptions sm') -> v <> []) /\
  order_books sm' = order_books sm.
Proof.
  cbv zeta. unfold unregister_client, Assoc.retain. cbn [clients subscriptions order_books].
  split; [apply lookup_remove_same|]. split; [intros k Hk; apply lookup_remove_other, Hk|].
  split; [|split; [|reflexivity]].
  - intros k s. split.
    + intros [v [Hin Hs]]. apply list_elem_of_In, list_elem_of_filter in Hin as [_ Hin].
      apply list_elem_of_In, in_map_iff in Hin as [[k0 v0] [[= <- <-] Hin]].
      apply list_elem_of_In, list_elem_of_filter in Hs as [Hc Hs].
      split; [exists v0; split; [exact Hin|apply list_elem_of_In, Hs]|exact Hc].
    + intros [[v [Hin Hs]] Hc]. exists (filter (fun s => client_id s <> cid) v).
      assert (Hs' : In s (filter (fun s => client_id s <> cid) v))
        by (apply list_elem_of_In, list_elem_of_filter; split; [exact Hc|apply list_elem_of_In, Hs]).
      split; [|exact Hs'].
      apply list_elem_of_In, list_elem_of_filter. split.
      * simpl. destruct (filter _ v); [contradiction|reflexivity].
      * apply list_elem_of_In, in_map_iff. exists (k, v). auto.
  - intros k v Hin. apply list_elem_of_In, list_elem_of_filter in Hin as [Hne _].
    simpl in Hne. intros ->. discriminate.
Qed.

Lemma filter_same_length {A : Type} (Q : A -> Prop) `{forall y, Decision (Q y)} (l : list A) :
  length (filter Q l) = length l -> forall y, In y l -> Q y.
Proof.
  intros Hl y Hy. destruct (decide (Q y)) as [|Hn]; [assumption|].
  pose proof (length_filter_lt Q l y (proj2 (list_elem_of_In l y) Hy) Hn). lia.
Qed.

Lemma unsubscribe_go_spec (l : list (string * list Subscription)) cid sid :
  (snd (unsubscribe_go l cid sid) = true <->
     exists k v s, In (k, v) l /\ In s v /\ matches cid sid s = true) /\
  (snd (unsubscribe_go l cid sid) = false -> fst (unsubscribe_go l cid sid) = l) /\
  (forall k v s, In (k, v) l -> In s v -> matches cid sid s = false ->
     exists v', In (k, v') (fst (unsubscribe_go l cid sid)) /\ In s v').
Proof.
  induction l as [|[k v] r IH]; simpl.
  - split; [split; [discriminate|intros (k & v & s & [] & _)]|].
    split; [reflexivity|intros k v s []].
  - set (v' := filter (fun s => matches cid sid s = false) v).
    assert (Hkeep : forall s, In s v -> matches cid sid s = false -> In s v').
    { intros s Hs Hm. apply list_elem_of_In, list_elem_of_filter.
      split; [exact Hm|apply list_elem_of_In, Hs]. }
    destruct (Nat.eqb (length v') (length v)) eqn:Hlen; simpl.
    + apply Nat.eqb_eq in Hlen.
      pose proof (filter_same_length _ v Hlen) as Hall.
      assert (Hv : v' = v) by (apply BookMore.filter_keep, Hall).
      destruct IH as [IH1 [IH2 IH3]].
      destruct (unsubscribe_go r cid sid) as [r' found]; simpl in *.
      split; [|split].
      * rewrite IH1. split.
        -- intros (k0 & v0 & s & Hin & Hs & Hm). exists k0, v0, s. auto.
        -- intros (k0 & v0 & s & [[= <- <-]|Hin] & Hs & Hm).
           ++ rewrite (Hall s Hs) in Hm. discriminate.
           ++ exists k0, v0, s. auto.
      * intros Hf. rewrite Hv, (IH2 Hf). reflexivity.
      * intros k0 v0 s [[= <- <-]|Hin] Hs Hm.
        -- exists v'. split; [left; reflexivity|apply Hkeep; assumption].
        -- destruct (IH3 k0 v0 s Hin Hs Hm) as [v1 [Hv1 Hs1]]. exists v1. auto.
    + split; [|split].
      * split; [intros _|reflexivity].
        assert (Hex : exists s, In s v /\ matches cid sid s = true).
        { destruct (existsb (matches cid sid) v) eqn:He.
          - apply existsb_exists in He. exact He.
          - exfalso. apply Nat.eqb_neq in Hlen. apply Hlen. f_equal.
            apply BookMore.filter_keep. intros y Hy.
            destruct (matches cid sid y) eqn:Hm; [|reflexivity].
            exfalso. assert (Ht : existsb (matches cid sid) v = true)
              by (apply existsb_exists; eauto). congruence. }
        destruct Hex as [s [Hs Hm]]. exists k, v, s. auto.
      * discriminate.
      * intros k0 v0 s [[= <- <-]|Hin] Hs Hm.
        -- exists v'. split; [left; reflexivity|apply Hkeep; assumption].
        -- exists v0. split; [right; exact Hin|exact Hs].
Qed.

(** [StreamManager::unsubscribe] returns [true] exactly when some
    subscription of the client has the stream id; on [false] the
    subscriptions are untouched; every other subscription stays under its
    symbol, and the books and clients are never touched. *)
Theorem unsubscribe_result (sm : StreamManager) (cid : Z) (sid : string) :
  let r := unsubscribe sm cid sid in
  (snd r = true <-> exists k v s, In (k, v) (subscriptions sm) /\ In s v /\
                                 client_id s = cid /\ stream_id s = sid) /\
  (snd r = false -> subscriptions (fst r) = subscriptions sm) /\
  (forall k v s, In (k, v) (subscriptions sm) -> In s v ->
     ~ (client_id s = cid /\ stream_id s = sid) ->
     exists v', In (k, v') (subscriptions (fst r)) /\ In s v') /\
  order_books (fst r) = order_books sm /\ clients (fst r) = clients sm.
Proof.
  cbv zeta. unfold unsubscribe.
  destruct (unsubscribe_go_spec (subscriptions sm) cid sid) as [H1 [H2 H3]].
  destruct (unsubscribe_go (subscriptions sm) cid sid) as [l found]; simpl in *.
  assert (Hm : forall s, matches cid sid s = true <-> client_id s = cid /\ stream_id s = sid)
    by (intros s; unfold matches; apply bool_decide_eq_true).
  split; [|split; [exact H2|split; [|split; reflexivity]]].
  - rewrite H1. split; intros (k & v & s & Hin & Hs & Hx); exists k, v, s;
      split; [exact Hin| |exact Hin|]; split; [exact Hs|apply Hm, Hx|exact Hs|apply Hm, Hx].
  - intros k v s Hin Hs Hn. apply (H3 k v s Hin Hs).
    destruct (matches cid sid s) eqn:E; [|reflexivity]. exfalso. apply Hn, Hm, E.
Qed.

Lemma subscribe_book (sm : StreamManager) rng now sym :
  let sm1 := if Assoc.contains_key (order_books sm) sym then sm
             else initialize_symbol sm sym rng now in
  Assoc.lookup (order_books sm1) sym =
    Some (match Assoc.lookup (order_books sm) sym with
          | Some ob => ob
          | None => Book.initialize_with_sample_data (Book.OrderBook_new sym) rng now
          end) /\
  subscriptions sm1 = subscriptions sm /\ clients sm1 = clients sm.
Proof.
  cbv zeta. destruct (Assoc.contains_key (order_books sm) sym) eqn:Hc.
  - destruct (contains_key_lookup _ _ Hc) as [ob Hob]. rewrite Hob. auto.
  - rewrite (contains_key_none _ _ Hc). simpl. rewrite lookup_insert_same. auto.
Qed.

(** [StreamManager::subscribe] for a registered client: the symbol's book
    is the existing one or a freshly seeded one, the subscription is
    appended under the symbol whatever the send does; on an open channel
    the call returns [Ok] and appends exactly one snapshot of that book at
    its current sequence; on a closed one it returns the error and changes
    no channel, but the subscription stays recorded. *)
Theorem subscribe_registered_client (sm : StreamManager) rng now cid sid sym dt ml c :
  Assoc.lookup (clients sm) cid = Some c ->
  let ob := match Assoc.lookup (order_books sm) sym with
            | Some ob => ob
            | None => Book.initialize_with_sample_data (Book.OrderBook_new sym) rng now
            end in
  let r := subscribe sm rng now cid sid sym dt ml in
  Assoc.lookup (order_books (fst r)) sym = Some ob /\
  subscriptions (fst r) = Assoc.push (subscriptions sm) sym (Subscription_new sid sym dt ml cid) /\
  (ch_open c = true ->
     snd r = Ok tt /\
     Assoc.lookup (clients (fst r)) cid =
       Some (mkChan true (ch_queue c ++
               [MarketData sid sym (market_data ob dt (default 20 ml) now) (Book.sequence ob) now]))) /\
  (ch_open c = false ->
     snd r = Err "Failed to send initial snapshot" /\ clients (fst r) = clients sm).
Proof.
  intros Hc. cbv zeta. unfold subscribe.
  destruct (subscribe_book sm rng now sym) as [Hb [Hs Hcl]]. cbv zeta in Hb, Hs, Hcl.
  set (sm1 := if Assoc.contains_key (order_books sm) sym then sm
              else initialize_symbol sm sym rng now) in *.
  cbn [order_books subscriptions clients]. rewrite Hb, Hcl, Hc, Hs.
  unfold ch_send. destruct (ch_open c) eqn:Ho; cbn [fst snd order_books subscriptions clients].
  - split; [exact Hb|]. split; [reflexivity|]. split; [|discriminate].
    intros _. split; [reflexivity|]. apply lookup_insert_same.
  - split; [exact Hb|]. split; [reflexivity|]. split; [discriminate|]. auto.
Qed.

Lemma send_updates_lookup cl sym ob now subs cid :
  Assoc.lookup (send_updates cl sym ob now subs) cid =
    match Assoc.lookup cl cid with
    | Some c =>
        Some (if ch_open c
              then mkChan true (ch_queue c ++ map (update_message sym ob now)
                                  (filter (fun s => client_id s = cid) subs))
              else c)
    | None => None
    end.
Proof.
  revert cl. induction subs as [|s r IH]; intros cl; simpl.
  - destruct (Assoc.lookup cl cid) as [[o q]|]; [|reflexivity].
    destruct o; simpl; [rewrite app_nil_r|]; reflexivity.
  - rewrite IH. destruct (decide (client_id s = cid)) as [Heq|Hne].
    + rewrite filter_cons_True by exact Heq. subst cid.
      destruct (Assoc.lookup cl (client_id s)) as [[o q]|] eqn:Hl; simpl; [|rewrite Hl; reflexivity].
      unfold ch_send; simpl. destruct o; simpl.
      * rewrite lookup_insert_same. simpl. rewrite <- app_assoc. reflexivity.
      * rewrite Hl. reflexivity.
    + rewrite filter_cons_False by exact Hne.
      destruct (Assoc.lookup cl (client_id s)) as [c0|]; [|reflexivity].
      destruct (ch_send c0 _); [|reflexivity].
      rewrite lookup_insert_other by (intros E; apply Hne; symmetry; exact E). reflexivity.
Qed.

(** The send loop of [start_market_simulation] for one symbol: every
    registered client with an open channel receives, in order, one update
    per subscription it holds in the symbol's list, built from the book
    after the round of activity; a closed channel receives nothing and an
    unregistered client stays unregistered. *)
Theorem send_updates_fanout cl sym ob now subs cid :
  (forall c, Assoc.lookup cl cid = Some c ->
     Assoc.lookup (send_updates cl sym ob now subs) cid =
       Some (if ch_open c
             then mkChan true (ch_queue c ++ map (update_message sym ob now)
                                 (filter (fun s => client_id s = cid) subs))
             else c)) /\
  (Assoc.lookup cl cid = None -> Assoc.lookup (send_updates cl sym ob now subs) cid = None).
Proof.
  split; [intros c Hc|intros Hc]; rewrite send_updates_lookup, Hc; reflexivity.
Qed.

Lemma lookup_of_key {K V : Type} `{EqDecision K} (l : list (K * V)) k :
  In k (map fst l) -> Assoc.lookup l k <> None.
Proof.
  induction l as [|[k0 v0] r IH]; simpl; [tauto|].
  intros Hk. destruct (decide (k = k0)); [discriminate|].
  apply IH. destruct Hk as [<-|Hk]; [contradiction|exact Hk].
Qed.

Lemma market_pass_spec rest sm sm' :
  market_pass rest sm sm' ->
  (forall sym, In sym (map fst rest) -> Assoc.lookup (order_books sm) sym <> None) ->
  subscriptions sm' = subscriptions sm /\
  map fst (order_books sm') = map fst (order_books sm) /\
  (forall cid, Assoc.lookup (clients sm) cid = None -> Assoc.lookup (clients sm') cid = None) /\
  (forall cid c, Assoc.lookup (clients sm) cid = Some c ->
     exists msgs,
       Assoc.lookup (clients sm') cid =
         Some (if ch_open c then mkChan true (ch_queue c ++ msgs) else c) /\
       Forall (fun m => exists sym v s, Assoc.lookup (subscriptions sm) sym = Some v /\
                 In s v /\ client_id s = cid /\ update_stream m = Some (stream_id s)) msgs).
Proof.
  induction 1 as [sm|sym b rest sm acts b' now sm' _ _ IH]; intros Hkeys.
  - split; [reflexivity|]. split; [reflexivity|]. split; [auto|].
    intros cid c Hc. exists []. rewrite Hc. split; [|constructor].
    destruct c as [[] q]; simpl; [rewrite app_nil_r|]; reflexivity.
  - assert (Hsym : Assoc.lookup (order_books sm) sym <> None) by (apply Hkeys; left; reflexivity).
    assert (Hk1 : map fst (Assoc.insert (order_books sm) sym b') = map fst (order_books sm))
      by (apply insert_keys, Hsym).
    destruct IH as [IH1 [IH2 [IH3 IH4]]].
    { intros sym' Hin. cbn [order_books].
      intros Hn. apply (lookup_keys _ _ sym' Hk1) in Hn. revert Hn. apply Hkeys. right. exact Hin. }
    cbn [order_books subscriptions clients] in IH1, IH2, IH3, IH4.
    split; [exact IH1|]. split; [rewrite IH2; exact Hk1|]. split.
    + intros cid Hc. apply IH3. rewrite send_updates_lookup, Hc. reflexivity.
    + intros cid c Hc.
      assert (Hl0 : Assoc.lookup (send_updates (clients sm) sym b' now
                      (default [] (Assoc.lookup (subscriptions sm) sym))) cid =
        Some (if ch_open c
              then mkChan true (ch_queue c ++ map (update_message sym b' now)
                     (filter (fun s => client_id s = cid)
                        (default [] (Assoc.lookup (subscriptions sm) sym))))
              else c)) by (rewrite send_updates_lookup, Hc; reflexivity).
      destruct (IH4 cid _ Hl0) as [msgs [Hl Hf]].
      set (u := map (update_message sym b' now)
                  (filter (fun s => client_id s = cid)
                     (default [] (Assoc.lookup (subscriptions sm) sym)))) in *.
      assert (Hu : Forall (fun m => exists sym v s, Assoc.lookup (subscriptions sm) sym = Some v /\
                 In s v /\ client_id s = cid /\ update_stream m = Some (stream_id s)) u).
      { subst u. apply Stdlib.Lists.List.Forall_forall. intros m Hm.
        apply in_map_iff in Hm as [s [<- Hs]].
        apply list_elem_of_In, list_elem_of_filter in Hs as [Hcs Hs].
        destruct (Assoc.lookup (subscriptions sm) sym) as [v|] eqn:Hv; simpl in Hs;
          [|inversion Hs].
        exists sym, v, s. split; [exact Hv|]. split; [apply list_elem_of_In, Hs|].
        split; [exact Hcs|reflexivity]. }
      destruct (ch_open c) eqn:Ho.
      * exists (u ++ msgs). simpl in Hl. rewrite Hl, <- app_assoc.
        split; [reflexivity|]. apply Forall_app. split; [exact Hu|exact Hf].
      * exists msgs. rewrite Ho in Hl. split; [exact Hl|exact Hf].
Qed.

(** One tick of [start_market_simulation]: the subscriptions and the set of
    symbols are unchanged, no client is added, a closed channel receives
    nothing, and an open channel only receives [MarketData] updates, each
    for a stream the client is subscribed to. *)
Theorem market_tick_spec (sm sm' : StreamManager) :
  market_tick sm sm' ->
  subscriptions sm' = subscriptions sm /\
  map fst (order_books sm') = map fst (order_books sm) /\
  (forall cid, Assoc.lookup (clients sm) cid = None -> Assoc.lookup (clients sm') cid = None) /\
  (forall cid c, Assoc.lookup (clients sm) cid = Some c ->
     exists msgs,
       Assoc.lookup (clients sm') cid =
         Some (if ch_open c then mkChan true (ch_queue c ++ msgs) else c) /\
       Forall (fun m => exists sym v s, Assoc.lookup (subscriptions sm) sym = Some v /\
                 In s v /\ client_id s = cid /\ update_stream m = Some (stream_id s)) msgs).
Proof.
  intros H. apply (market_pass_spec _ _ _ H). intros sym Hin. apply lookup_of_key, Hin.
Qed.

End RegistryMore.

Module SSEMore.
Import SSE SSEExt AssocFacts.

Definition hit (cid : Z) (sid : string) (s : SSESubscription) : bool :=
  bool_decide (client_id s = cid /\ stream_id s = sid).

Lemma held_cons k v l cid sid :
  held ((k, v) :: l) cid sid = ((if existsb (hit cid sid) v then 1 else 0) + held l cid sid)%nat.
Proof.
  unfold held. destruct (existsb (hit cid sid) v) eqn:E.
  - rewrite filter_cons_True by exact E. reflexivity.
  - rewrite filter_cons_False by (unfold hit in E; simpl; congruence). reflexivity.
Qed.

Lemma existsb_filter {A : Type} (f : A -> bool) (Q : A -> Prop) `{forall y, Decision (Q y)} v :
  existsb f (filter Q v) = true -> existsb f v = true.
Proof.
  intros He. apply existsb_exists in He as [x [Hx Hf]].
  apply list_elem_of_In, list_elem_of_filter in Hx as [_ Hx].
  apply existsb_exists. exists x. split; [apply list_elem_of_In, Hx|exact Hf].
Qed.

Lemma held_push l sym (sub : SSESubscription) cid sid :
  (held (Assoc.push l sym sub) cid sid <= held l cid sid + (if hit cid sid sub then 1 else 0))%nat.
Proof.
  induction l as [|[k v] r IH]; simpl.
  - rewrite held_cons. simpl. destruct (hit cid sid sub); unfold held; simpl; lia.
  - destruct (decide (sym = k)) as [->|Hne]; rewrite !held_cons.
    + rewrite existsb_app. simpl. rewrite orb_false_r.
      destruct (existsb (hit cid sid) v), (hit cid sid sub); simpl; lia.
    + lia.
Qed.

Lemma remove_go_frame l cid sid :
  map fst (remove_go l cid sid) = map fst l /\
  (forall c s, held (remove_go l cid sid) c s <= held l c s)%nat /\
  held (remove_go l cid sid) cid sid = (held l cid sid - 1)%nat /\
  (forall k v s, In (k, v) l -> In s v -> ~ (client_id s = cid /\ stream_id s = sid) ->
     exists v', In (k, v') (remove_go l cid sid) /\ In s v').
Proof.
  induction l as [|[k v] r IH]; simpl.
  - split; [reflexivity|]. split; [intros; lia|]. split; [reflexivity|intros k v s []].
  - set (v' := filter (fun s => bool_decide (client_id s = cid /\ stream_id s = sid) = false) v).
    assert (Hle : forall c s, ((if existsb (hit c s) v' then 1 else 0) <=
                               (if existsb (hit c s) v then 1 else 0))%nat).
    { intros c s. destruct (existsb (hit c s) v') eqn:E; [|lia].
      rewrite (existsb_filter _ _ v E). lia. }
    assert (Hno : existsb (hit cid sid) v' = false).
    { destruct (existsb (hit cid sid) v') eqn:E; [|reflexivity].
      apply existsb_exists in E as [x [Hx Hh]].
      apply list_elem_of_In, list_elem_of_filter in Hx as [Hx _]. unfold hit in Hh. congruence. }
    assert (Hkeep : forall s, In s v -> ~ (client_id s = cid /\ stream_id s = sid) -> In s v').
    { intros s Hs Hn. apply list_elem_of_In, list_elem_of_filter. split; [|apply list_elem_of_In, Hs].
      apply bool_decide_eq_false. exact Hn. }
    destruct IH as [IH1 [IH2 [IH3 IH4]]].
    destruct (negb (Nat.eqb (length v') (length v))) eqn:Hlen; simpl.
    + split; [reflexivity|].
      split; [intros c s; rewrite !held_cons; specialize (Hle c s); lia|].
      split.
      * rewrite !held_cons, Hno. destruct (existsb (hit cid sid) v) eqn:Hv; [lia|].
        exfalso. apply negb_true_iff, Nat.eqb_neq in Hlen. apply Hlen. f_equal.
        apply BookMore.filter_keep. intros y Hy. apply bool_decide_eq_false. intros Hh.
        assert (Ht : existsb (hit cid sid) v = true)
          by (apply existsb_exists; exists y; split; [exact Hy|apply bool_decide_eq_true, Hh]).
        congruence.
      * intros k0 v0 s [[= <- <-]|Hin] Hs Hn.
        -- exists v'. split; [left; reflexivity|apply Hkeep; assumption].
        -- exists v0. split; [right; exact Hin|exact Hs].
    + split; [f_equal; exact IH1|].
      split; [intros c s; rewrite !held_cons; specialize (Hle c s); specialize (IH2 c s); lia|].
      split.
      * rewrite !held_cons, Hno, IH3. apply negb_false_iff, Nat.eqb_eq in Hlen.
        assert (Hv : existsb (hit cid sid) v = false).
        { destruct (existsb (hit cid sid) v) eqn:Hv; [|reflexivity].
          apply existsb_exists in Hv as [x [Hx Hh]].
          pose proof (RegistryMore.filter_same_length _ v Hlen x Hx) as Hf.
          unfold hit in Hh. simpl in Hf. congruence. }
        rewrite Hv. lia.
      * intros k0 v0 s [[= <- <-]|Hin] Hs Hn.
        -- exists v'. split; [left; reflexivity|apply Hkeep; assumption].
        -- destruct (IH4 k0 v0 s Hin Hs Hn) as [v1 [Hv1 Hs1]]. exists v1. auto.
Qed.

Definition nonempty_entry (_ : string) (v : list SSESubscription) : bool :=
  negb (Nat.eqb (length v) 0).

Lemma held_retain l c s : held (Assoc.retain nonempty_entry l) c s = held l c s.
Proof.
  unfold Assoc.retain. induction l as [|[k v] r IH]; [reflexivity|].
  destruct v as [|x v].
  - rewrite filter_cons_False by (simpl; discriminate). rewrite held_cons. simpl. exact IH.
  - rewrite filter_cons_True by reflexivity. rewrite !held_cons, IH. reflexivity.
Qed.

Lemma retain_nonempty_keeps l k v : In (k, v) l -> v <> [] -> In (k, v) (Assoc.retain nonempty_entry l).
Proof.
  intros Hin Hv. unfold Assoc.retain. apply list_elem_of_In, list_elem_of_filter.
  split; [|apply list_elem_of_In, Hin]. simpl. destruct v; [contradiction|reflexivity].
Qed.

Lemma remove_subscription_spec sm cid sid :
  let sm' := remove_subscription sm cid sid in
  order_books sm' = order_books sm /\ clients sm' = clients sm /\
  client_streams sm' = client_streams sm /\
  (forall c s, held (subscriptions sm') c s <= held (subscriptions sm) c s)%nat /\
  held (subscriptions sm') cid sid = (held (subscriptions sm) cid sid - 1)%nat /\
  (forall k v s, In (k, v) (subscriptions sm) -> In s v ->
     ~ (client_id s = cid /\ stream_id s = sid) ->
     exists v', In (k, v') (subscriptions sm') /\ In s v').
Proof.
  cbv zeta. unfold remove_subscription. cbn [order_books clients client_streams subscriptions].
  fold nonempty_entry.
  destruct (remove_go_frame (subscriptions sm) cid sid) as [_ [H2 [H3 H4]]].
  split; [reflexivity|]. split; [reflexivity|]. split; [reflexivity|].
  split; [intros c s; rewrite held_retain; apply H2|].
  split; [rewrite held_retain; exact H3|].
  intros k v s Hin Hs Hn. destruct (H4 k v s Hin Hs Hn) as [v' [Hv' Hs']].
  exists v'. split; [|exact Hs']. apply retain_nonempty_keeps; [exact Hv'|].
  intros ->. destruct Hs'.
Qed.

Lemma fold_remove streams cid (sm0 : SSEStreamManager) :
  let smf := fold_left (fun s sid => remove_subscription s cid sid) streams sm0 in
  order_books smf = order_books sm0 /\ clients smf = clients sm0 /\
  client_streams smf = client_streams sm0 /\
  (forall c s, held (subscriptions smf) c s <= held (subscriptions sm0) c s)%nat /\
  (forall s, held (subscriptions smf) cid s <=
               held (subscriptions sm0) cid s - length (filter (fun x => x = s) streams))%nat /\
  (forall k v s, In (k, v) (subscriptions sm0) -> In s v -> client_id s <> cid ->
     exists v', In (k, v') (subscriptions smf) /\ In s v').
Proof.
  revert sm0. induction streams as [|sid r IH]; intros sm0; cbv zeta; simpl.
  - split; [reflexivity|]. split; [reflexivity|]. split; [reflexivity|].
    split; [intros; lia|]. split; [intros; lia|]. intros k v s Hin Hs _. exists v. auto.
  - destruct (remove_subscription_spec sm0 cid sid) as [R1 [R2 [R3 [R4 [R5 R6]]]]].
    cbv zeta in R1, R2, R3, R4, R5, R6.
    destruct (IH (remove_subscription sm0 cid sid)) as [I1 [I2 [I3 [I4 [I5 I6]]]]].
    split; [congruence|]. split; [congruence|]. split; [congruence|].
    split; [intros c s; specialize (I4 c s); specialize (R4 c s); lia|].
    split.
    + intros s. specialize (I5 s). specialize (R4 cid s).
      destruct (decide (sid = s)) as [->|Hne].
      * rewrite filter_cons_True by reflexivity. simpl. lia.
      * rewrite filter_cons_False by exact Hne. lia.
    + intros k v s Hin Hs Hc.
      destruct (R6 k v s Hin Hs (fun H => Hc (proj1 H))) as [v' [Hv' Hs']].
      exact (I6 k v' s Hv' Hs' Hc).
Qed.

Lemma tracked_push cs cid sid c s :
  tracked (Assoc.push cs cid sid) c s =
    (tracked cs c s + (if bool_decide (cid = c /\ sid = s) then 1 else 0))%nat.
Proof.
  unfold tracked. destruct (decide (c = cid)) as [->|Hne].
  - rewrite lookup_push_same. simpl. rewrite filter_app, length_app.
    destruct (decide (sid = s)) as [->|Hs].
    + rewrite bool_decide_true by auto. rewrite filter_cons_True by reflexivity. reflexivity.
    + rewrite bool_decide_false by tauto. rewrite filter_cons_False by exact Hs. reflexivity.
  - rewrite lookup_push_other by exact Hne.
    rewrite bool_decide_false by (intros [-> _]; apply Hne; reflexivity). lia.
Qed.

Lemma tracked_none cs cid s : Assoc.lookup cs cid = None -> tracked cs cid s = 0%nat.
Proof. unfold tracked. intros ->. reflexivity. Qed.

Lemma tracked_other cs cs' cid c s :
  c <> cid -> Assoc.lookup cs' c = Assoc.lookup cs c -> tracked cs' c s = tracked cs c s.
Proof. unfold tracked. intros _ ->. reflexivity. Qed.

Lemma subscribe_one_lists sm rng now cid sym dt ml :
  let sm' := fst (subscribe_one sm rng now cid sym dt ml) in
  subscriptions sm' =
    Assoc.push (subscriptions sm) sym (mkSub (stream_name sym dt ml) sym dt ml cid) /\
  client_streams sm' = Assoc.push (client_streams sm) cid (stream_name sym dt ml).
Proof.
  cbv zeta. unfold subscribe_one.
  destruct (Assoc.contains_key (order_books sm) sym); cbn [order_books subscriptions clients
    client_streams initialize_symbol]; repeat case_match; split; reflexivity.
Qed.

Lemma subscribe_one_tracked sm rng now cid sym dt ml :
  all_tracked sm -> all_tracked (fst (subscribe_one sm rng now cid sym dt ml)).
Proof.
  intros Ht c s. destruct (subscribe_one_lists sm rng now cid sym dt ml) as [Hs Hc].
  rewrite Hs, Hc, tracked_push. specialize (Ht c s).
  pose proof (held_push (subscriptions sm) sym (mkSub (stream_name sym dt ml) sym dt ml cid) c s)
    as Hp.
  unfold hit in Hp. cbn [client_id stream_id] in Hp. lia.
Qed.

Lemma subscribe_to_streams_tracked defs sm rng now cid :
  all_tracked sm -> all_tracked (fst (subscribe_to_streams sm rng now cid defs)).
Proof.
  revert sm. induction defs as [|[[sym dt] ml] r IH]; intros sm Ht; simpl; [exact Ht|].
  pose proof (subscribe_one_tracked sm rng now cid sym dt ml Ht) as H1.
  destruct (subscribe_one sm rng now cid sym dt ml) as [sm' [u|e]]; simpl in *; [|exact H1].
  apply IH, H1.
Qed.

Lemma unregister_parts sm cid :
  let sm' := unregister_client sm cid in
  order_books sm' = order_books sm /\
  client_streams sm' = AssocExt.remove (client_streams sm) cid /\
  clients sm' = AssocExt.remove (clients sm) cid /\
  (forall c s, held (subscriptions sm') c s <= held (subscriptions sm) c s)%nat /\
  (forall s, held (subscriptions sm') cid s <=
               held (subscriptions sm) cid s - tracked (client_streams sm) cid s)%nat /\
  (forall k v s, In (k, v) (subscriptions sm) -> In s v -> client_id s <> cid ->
     exists v', In (k, v') (subscriptions sm') /\ In s v').
Proof.
  cbv zeta. unfold unregister_client, tracked.
  destruct (Assoc.lookup (client_streams sm) cid) as [streams|]; cbn [default].
  - destruct (fold_remove streams cid (mkSM (order_books sm) (subscriptions sm) (clients sm)
               (AssocExt.remove (client_streams sm) cid))) as [F1 [F2 [F3 [F4 [F5 F6]]]]].
    cbv zeta in F1, F2, F3, F4, F5, F6. cbn [order_books subscriptions clients client_streams] in *.
    rewrite F1, F2, F3. split; [reflexivity|]. split; [reflexivity|]. split; [reflexivity|].
    split; [exact F4|]. split; [exact F5|exact F6].
  - cbn [order_books subscriptions clients client_streams].
    split; [reflexivity|]. split; [reflexivity|]. split; [reflexivity|].
    split; [intros; lia|]. split; [intros; simpl; lia|].
    intros k v s Hin Hs _. exists v. auto.
Qed.

Lemma unregister_tracked sm cid : all_tracked sm -> all_tracked (unregister_client sm cid).
Proof.
  intros Ht c s. destruct (unregister_parts sm cid) as [_ [Hcs [_ [H4 [H5 _]]]]].
  cbv zeta in *. rewrite Hcs. destruct (decide (c = cid)) as [->|Hne].
  - rewrite (tracked_none _ _ s (lookup_remove_same _ _)).
    specialize (H5 s). specialize (Ht cid s). lia.
  - rewrite (tracked_other (client_streams sm) _ cid c s Hne (lookup_remove_other _ _ _ Hne)).
    specialize (H4 c s). specialize (Ht c s). lia.
Qed.

Lemma reach_tracked sm : reachable sm -> all_tracked sm.
Proof.
  induction 1 as [obs|sm cid c _ IH Hn|sm rng now cid defs _ IH|sm cid _ IH|sm obs cl _ IH].
  - intros c s. unfold held. simpl. lia.
  - intros c' s. unfold register_client. cbn [subscriptions client_streams].
    destruct (decide (c' = cid)) as [->|Hne].
    + unfold tracked. rewrite lookup_insert_same. simpl.
      specialize (IH cid s). rewrite (tracked_none _ _ s Hn) in IH. lia.
    + rewrite (tracked_other (client_streams sm) _ cid c' s Hne
                 (lookup_insert_other _ _ _ _ Hne)). apply IH.
  - apply subscribe_to_streams_tracked, IH.
  - apply unregister_tracked, IH.
  - exact IH.
Qed.

Lemma held_pos l k v s :
  In (k, v) l -> In s v -> (1 <= held l (client_id s) (stream_id s))%nat.
Proof.
  induction l as [|[k0 v0] r IH]; [intros []|]. intros [[= -> ->]|Hin] Hs; rewrite held_cons.
  - assert (Hx : existsb (hit (client_id s) (stream_id s)) v = true).
    { apply existsb_exists. exists s. split; [exact Hs|]. apply bool_decide_eq_true. auto. }
    rewrite Hx. lia.
  - specialize (IH Hin Hs). lia.
Qed.

(** [SSEStreamManager::unregister_client] on any manager the server can
    reach: afterwards no subscription of the client is left under any
    symbol, every subscription of another client is still under its
    symbol, the client and its tracked streams are gone and the other
    clients' channels and tracked streams are untouched. This rests on
    the invariant that every subscription is tracked in [client_streams]. *)
Theorem sse_unregister_removes_all (sm : SSEStreamManager) (cid : Z) :
  reachable sm ->
  let sm' := unregister_client sm cid in
  (forall k v s, In (k, v) (subscriptions sm') -> In s v -> client_id s <> cid) /\
  (forall k v s, In (k, v) (subscriptions sm) -> In s v -> client_id s <> cid ->
     exists v', In (k, v') (subscriptions sm') /\ In s v') /\
  Assoc.lookup (clients sm') cid = None /\
  Assoc.lookup (client_streams sm') cid = None /\
  (forall c, c <> cid ->
     Assoc.lookup (clients sm') c = Assoc.lookup (clients sm) c /\
     Assoc.lookup (client_streams sm') c = Assoc.lookup (client_streams sm) c).
Proof.
  intros Hr. cbv zeta. pose proof (reach_tracked sm Hr) as Ht.
  destruct (unregister_parts sm cid) as [_ [Hcs [Hcl [_ [H5 H6]]]]]. cbv zeta in *.
  rewrite Hcs, Hcl. split; [|split; [exact H6|]].
  - intros k v s Hin Hs Hc. pose proof (held_pos _ k v s Hin Hs) as Hp.
    rewrite Hc in Hp. specialize (H5 (stream_id s)). specialize (Ht cid (stream_id s)). lia.
  - split; [apply lookup_remove_same|]. split; [apply lookup_remove_same|].
    intros c Hc. split; apply lookup_remove_other, Hc.
Qed.

(** [register_client] followed by [unregister_client] of the same id
    leaves the subscriptions exactly as they were: registering resets the
    id's tracked streams to the empty list, so the subscriptions the id
    held before are no longer found by the cleanup. *)
Theorem sse_register_unregister (sm : SSEStreamManager) (cid : Z) (c : Channel) :
  let sm' := unregister_client (register_client sm cid c) cid in
  subscriptions sm' = subscriptions sm /\
  Assoc.lookup (clients sm') cid = None /\ Assoc.lookup (client_streams sm') cid = None.
Proof.
  cbv zeta. unfold unregister_client, register_client.
  cbn [order_books subscriptions clients client_streams]. rewrite lookup_insert_same.
  cbn [fold_left order_books subscriptions clients client_streams].
  split; [reflexivity|]. split; apply lookup_remove_same.
Qed.

Lemma sse_subscribe_book (sm : SSEStreamManager) rng now sym :
  let sm1 := if Assoc.contains_key (order_books sm) sym then sm
             else initialize_symbol sm sym rng now in
  (exists ob, Assoc.lookup (order_books sm1) sym = Some ob) /\
  subscriptions sm1 = subscriptions sm /\ clients sm1 = clients sm /\
  client_streams sm1 = client_streams sm.
Proof.
  cbv zeta. destruct (Assoc.contains_key (order_books sm) sym) eqn:Hc.
  - destruct (contains_key_lookup _ _ Hc) as [ob Hob]. eauto.
  - simpl. rewrite lookup_insert_same. eauto.
Qed.

Lemma subscribe_one_registered sm rng now cid sym dt ml c :
  Assoc.lookup (clients sm) cid = Some c ->
  let r := subscribe_one sm rng now cid sym dt ml in
  (ch_open c = true ->
     snd r = Ok tt /\
     exists m, Assoc.lookup (clients (fst r)) cid = Some (mkChan true (ch_queue c ++ [m])) /\
               message_stream m = Some (stream_name sym dt ml)) /\
  (ch_open c = false ->
     snd r = Err "Failed to send initial snapshot" /\ clients (fst r) = clients sm).
Proof.
  intros Hc. cbv zeta. unfold subscribe_one.
  destruct (sse_subscribe_book sm rng now sym) as [[ob Hb] [_ [Hcl _]]]. cbv zeta in Hb, Hcl.
  set (sm1 := if Assoc.contains_key (order_books sm) sym then sm
              else initialize_symbol sm sym rng now) in *.
  cbn [order_books subscriptions clients client_streams]. rewrite Hb, Hcl, Hc.
  unfold ch_send. destruct (ch_open c) eqn:Ho; cbn [fst snd order_books clients].
  - split; [|discriminate]. intros _. split; [reflexivity|].
    eexists. split; [apply lookup_insert_same|reflexivity].
  - split; [discriminate|]. auto.
Qed.

(** [subscribe_to_streams] for a registered client with an open channel:
    it returns [Ok], the client receives one initial snapshot per stream
    definition, in order, each for the stream id [format!] builds from the
    definition, and these stream ids are appended to the client's tracked
    streams. *)
Theorem sse_subscribe_open (sm : SSEStreamManager) rng now cid defs c :
  Assoc.lookup (clients sm) cid = Some c -> ch_open c = true ->
  let r := subscribe_to_streams sm rng now cid defs in
  snd r = Ok tt /\
  (exists msgs,
     Assoc.lookup (clients (fst r)) cid = Some (mkChan true (ch_queue c ++ msgs)) /\
     map message_stream msgs = map (fun '(sym, dt, ml) => Some (stream_name sym dt ml)) defs) /\
  default [] (Assoc.lookup (client_streams (fst r)) cid) =
    default [] (Assoc.lookup (client_streams sm) cid) ++
      map (fun '(sym, dt, ml) => stream_name sym dt ml) defs.
Proof.
  intros Hc Ho. cbv zeta. revert sm c Hc Ho.
  induction defs as [|[[sym dt] ml] r IH]; intros sm c Hc Ho; simpl.
  - split; [reflexivity|]. split; [|rewrite app_nil_r; reflexivity].
    exists []. rewrite Hc, app_nil_r. destruct c as [o q]; simpl in *. rewrite Ho. auto.
  - destruct (subscribe_one_registered sm rng now cid sym dt ml c Hc) as [Hop _].
    destruct (Hop Ho) as [Hok [m [Hm Hms]]].
    destruct (subscribe_one_lists sm rng now cid sym dt ml) as [_ Hcs].
    destruct (subscribe_one sm rng now cid sym dt ml) as [sm1 [u|e]]; simpl in *; [|discriminate].
    destruct (IH sm1 _ Hm eq_refl) as [H1 [[msgs [H2 H3]] H4]].
    split; [exact H1|]. split.
    + exists (m :: msgs). simpl in H2. rewrite <- app_assoc in H2. split; [exact H2|].
      simpl. rewrite Hms, H3. reflexivity.
    + rewrite H4, Hcs, lookup_push_same. simpl. rewrite <- app_assoc. reflexivity.
Qed.

(** [subscribe_to_streams] for a registered client whose channel is
    closed: it returns the error at the first definition, after recording
    that definition's subscription and tracked stream; no channel changes
    and the remaining definitions are not subscribed. *)
Theorem sse_subscribe_closed (sm : SSEStreamManager) rng now cid sym dt ml rest c :
  Assoc.lookup (clients sm) cid = Some c -> ch_open c = false ->
  let r := subscribe_to_streams sm rng now cid ((sym, dt, ml) :: rest) in
  snd r = Err "Failed to send initial snapshot" /\ clients (fst r) = clients sm /\
  subscriptions (fst r) =
    Assoc.push (subscriptions sm) sym (mkSub (stream_name sym dt ml) sym dt ml cid) /\
  client_streams (fst r) = Assoc.push (client_streams sm) cid (stream_name sym dt ml).
Proof.
  intros Hc Ho. cbv zeta. simpl.
  destruct (subscribe_one_registered sm rng now cid sym dt ml c Hc) as [_ Hcl].
  destruct (Hcl Ho) as [He Hcc].
  destruct (subscribe_one_lists sm rng now cid sym dt ml) as [Hs Hcs].
  destruct (subscribe_one sm rng now cid sym dt ml) as [sm1 [u|e]]; simpl in *; [discriminate|].
  rewrite He. auto.
Qed.

End SSEMore.

(** * Stream queries *)

Module QueryFacts.
Import Query.

Lemma app_String a s t : String a s +:+ t = String a (s +:+ t).
Proof. reflexivity. Qed.

Lemma app_Empty t : "" +:+ t = t.
Proof. reflexivity. Qed.

Lemma app_Empty_r s : s +:+ "" = s.
Proof. induction s as [|a s IH]; [reflexivity|]. rewrite app_String, IH. reflexivity. Qed.

Lemma app_assoc_str s t u : (s +:+ t) +:+ u = s +:+ (t +:+ u).
Proof. induction s as [|a s IH]; [reflexivity|]. rewrite !app_String, IH. reflexivity. Qed.

Lemma split_on_nonempty c s : split_on c s <> [].
Proof.
  induction s as [|a r IH]; simpl; [discriminate|].
  destruct (decide (a = c)); [discriminate|]. destruct (split_on c r); discriminate.
Qed.

Lemma split_on_length c s : length (split_on c s) = S (count_char c s).
Proof.
  induction s as [|a r IH]; simpl; [reflexivity|].
  destruct (decide (a = c)); simpl; [rewrite IH; reflexivity|].
  destruct (split_on c r) as [|w ws]; simpl in *; [discriminate|exact IH].
Qed.

Lemma stream_entry_some q d : exists e, stream_entry q d = Some e.
Proof.
  unfold stream_entry. pose proof (split_on_nonempty ":" (trim d)) as H.
  destruct (split_on ":" (trim d)); [contradiction|eauto].
Qed.

Lemma omap_total {A B : Type} (f : A -> option B) (l : list A) :
  (forall x, exists y, f x = Some y) -> length (omap f l) = length l.
Proof.
  intros Hf. induction l as [|x r IH]; [reflexivity|].
  change (omap f (x :: r)) with (match f x with Some y => y :: omap f r | None => omap f r end).
  destruct (Hf x) as [y Hy]. rewrite Hy. simpl. rewrite IH. reflexivity.
Qed.

(** [parse_streams] never drops a comma-separated piece: with [streams]
    set it returns one definition per piece of [streams] (so an empty or
    blank piece still yields a definition, with an empty symbol); otherwise,
    with [symbols] set, one per piece of [symbols]; with neither, none. *)
Theorem parse_streams_count (q : StreamQuery) :
  length (parse_streams q) =
    match streams q with
    | Some s => S (count_char "," s)
    | None => match symbols q with Some s => S (count_char "," s) | None => 0%nat end
    end.
Proof.
  unfold parse_streams. destruct (streams q) as [s|].
  - rewrite omap_total by apply stream_entry_some. apply split_on_length.
  - destruct (symbols q) as [s|]; [|reflexivity]. rewrite length_map. apply split_on_length.
Qed.

(** [sse_handler] always subscribes the new client to at least one
    stream; it falls back to [BTCUSD_MBP_20] exactly when the query sets
    neither [streams] nor [symbols], and otherwise subscribes what
    [parse_streams] returns. *)
Theorem handler_streams_spec (q : StreamQuery) :
  handler_streams q <> [] /\
  (parse_streams q = [] <-> streams q = None /\ symbols q = None) /\
  (streams q = None /\ symbols q = None -> handler_streams q = [("BTCUSD", MBP, 20)]) /\
  (streams q <> None \/ symbols q <> None -> handler_streams q = parse_streams q).
Proof.
  pose proof (parse_streams_count q) as Hc.
  assert (He : parse_streams q = [] <-> streams q = None /\ symbols q = None).
  { split.
    - intros E. rewrite E in Hc. simpl in Hc.
      destruct (streams q); [discriminate|]. destruct (symbols q); [discriminate|]. auto.
    - intros [Hs Hy]. unfold parse_streams. rewrite Hs, Hy. reflexivity. }
  unfold handler_streams. split; [|split; [exact He|split]].
  - destruct (parse_streams q); discriminate.
  - intros H. apply He in H. rewrite H. reflexivity.
  - intros H. assert (Hn : parse_streams q <> [])
      by (intros E; apply He in E as [E1 E2]; destruct H; contradiction).
    destruct (parse_streams q); [contradiction|reflexivity].
Qed.

(** The round trip of the stream definition format. *)

Lemma split_on_plain c s : all_chars (fun a => negb (bool_decide (a = c))) s = true ->
  split_on c s = [s].
Proof.
  induction s as [|a r IH]; simpl; [reflexivity|].
  intros H. apply andb_true_iff in H as [Ha Hr].
  rewrite decide_False by (intros E; rewrite bool_decide_true in Ha; [discriminate|exact E]).
  rewrite (IH Hr). reflexivity.
Qed.

Lemma split_on_sep c s t : all_chars (fun a => negb (bool_decide (a = c))) s = true ->
  split_on c (s +:+ String c t) = s :: split_on c t.
Proof.
  induction s as [|a r IH]; intros H.
  - rewrite app_Empty. simpl. rewrite decide_True by reflexivity. reflexivity.
  - simpl in H. apply andb_true_iff in H as [Ha Hr]. rewrite app_String. simpl.
    rewrite decide_False by (intros E; rewrite bool_decide_true in Ha; [discriminate|exact E]).
    rewrite (IH Hr). reflexivity.
Qed.

Lemma all_chars_app f s t : all_chars f (s +:+ t) = all_chars f s && all_chars f t.
Proof.
  induction s as [|a r IH]; [reflexivity|]. rewrite app_String. simpl. rewrite IH.
  apply andb_assoc.
Qed.

Lemma all_chars_impl f g s :
  (forall a, f a = true -> g a = true) -> all_chars f s = true -> all_chars g s = true.
Proof.
  intros Hfg. induction s as [|a r IH]; simpl; [reflexivity|].
  intros H. apply andb_true_iff in H as [Ha Hr]. rewrite (Hfg a Ha), (IH Hr). reflexivity.
Qed.

Lemma rev_app_app s t u : String.rev_app (String.rev_app s t) u = String.rev_app t (s +:+ u).
Proof.
  revert t. induction s as [|a r IH]; intros t; simpl; [reflexivity|].
  rewrite IH. reflexivity.
Qed.

Lemma rev_rev s : String.rev (String.rev s) = s.
Proof. unfold String.rev. rewrite rev_app_app. simpl. apply app_Empty_r. Qed.

Lemma all_chars_rev_app f s t :
  all_chars f (String.rev_app s t) = all_chars f s && all_chars f t.
Proof.
  revert t. induction s as [|a r IH]; intros t; simpl; [reflexivity|].
  rewrite IH. simpl. destruct (f a), (all_chars f r), (all_chars f t); reflexivity.
Qed.

(** A byte that continues a multi-byte UTF-8 character. *)
Definition cont_byte (a : ascii) : bool :=
  (128 <=? Ascii.nat_of_ascii a)%nat && (Ascii.nat_of_ascii a <=? 191)%nat.

Lemma ws2_cont a b : ws2 a b = true -> cont_byte b = true.
Proof.
  unfold ws2, cont_byte. cbv zeta.
  generalize (Ascii.nat_of_ascii a) (Ascii.nat_of_ascii b). intros x y H.
  repeat (rewrite orb_true_iff in H || rewrite andb_true_iff in H || rewrite Nat.eqb_eq in H).
  rewrite andb_true_iff, !Nat.leb_le. lia.
Qed.

Lemma ws3_cont a b c : ws3 a b c = true -> cont_byte b = true /\ cont_byte c = true.
Proof.
  unfold ws3, cont_byte. cbv zeta.
  generalize (Ascii.nat_of_ascii a) (Ascii.nat_of_ascii b) (Ascii.nat_of_ascii c).
  intros x y z H.
  repeat (rewrite orb_true_iff in H || rewrite andb_true_iff in H ||
          rewrite Nat.eqb_eq in H || rewrite Nat.leb_le in H).
  rewrite !andb_true_iff, !Nat.leb_le. lia.
Qed.

Lemma ws2_not a b : cont_byte b = false -> ws2 a b = false.
Proof. intros H. destruct (ws2 a b) eqn:E; [apply ws2_cont in E; congruence|reflexivity]. Qed.

Lemma ws3_not2 a b c : cont_byte b = false -> ws3 a b c = false.
Proof. intros H. destruct (ws3 a b c) eqn:E; [apply ws3_cont in E; intuition congruence|reflexivity]. Qed.

Lemma ws3_not3 a b c : cont_byte c = false -> ws3 a b c = false.
Proof. intros H. destruct (ws3 a b c) eqn:E; [apply ws3_cont in E; intuition congruence|reflexivity]. Qed.

Lemma trim_start_length s : (String.length (trim_start s) <= String.length s)%nat.
Proof.
  assert (Hn : forall n s, (String.length s <= n)%nat -> (String.length (trim_start s) <= String.length s)%nat);
    [|exact (Hn _ s (le_n _))].
  clear s. induction n as [|n IH]; intros s Hs.
  - destruct s; simpl in *; lia.
  - destruct s as [|a r]; [simpl; lia|]. cbn [trim_start].
    destruct (Ascii.is_space a).
    { assert (H := IH r ltac:(simpl in Hs; lia)). simpl. lia. }
    destruct r as [|b r2]; [simpl; lia|].
    destruct (ws2 a b).
    { assert (H := IH r2 ltac:(simpl in Hs; lia)). simpl. lia. }
    destruct r2 as [|c r3]; [simpl; lia|].
    destruct (ws3 a b c); [|simpl; lia].
    assert (H := IH r3 ltac:(simpl in Hs; lia)). simpl. lia.
Qed.

Lemma trim_start_shorter a s t : trim_start s = String a t -> (String.length t < String.length s)%nat.
Proof.
  intros H. pose proof (trim_start_length s) as Hl. rewrite H in Hl. simpl in Hl. lia.
Qed.

(** A symbol that does not start with white space still does not when a
    colon follows it. *)
Lemma trim_start_sep sym t :
  trim_start sym = sym -> trim_start (sym +:+ String ":" t) = sym +:+ String ":" t.
Proof.
  intros H. destruct sym as [|a r].
  - destruct t as [|b [|c r]]; reflexivity.
  - rewrite app_String. cbn [trim_start] in H |- *.
    destruct (Ascii.is_space a) eqn:E1.
    { apply trim_start_shorter in H. lia. }
    destruct r as [|b r2].
    + rewrite app_Empty. cbn. rewrite ws2_not by reflexivity.
      destruct t as [|c r3]; [reflexivity|]. rewrite ws3_not2 by reflexivity. reflexivity.
    + destruct (ws2 a b) eqn:E2.
      { apply trim_start_shorter in H. simpl in H. lia. }
      rewrite app_String. cbn [trim_start]. rewrite ?E1, ?E2.
      destruct r2 as [|c r3].
      * rewrite app_Empty. rewrite ws3_not3 by reflexivity. reflexivity.
      * destruct (ws3 a b c) eqn:E3.
        { apply trim_start_shorter in H. simpl in H. lia. }
        rewrite app_String. rewrite ?E3. reflexivity.
Qed.

Lemma rev_app_app2 s t u : String.rev_app (s +:+ t) u = String.rev_app t (String.rev_app s u).
Proof.
  revert u. induction s as [|a r IH]; intros u; [reflexivity|].
  rewrite app_String. simpl. apply IH.
Qed.

Lemma rev_snoc u x : String.rev (u +:+ String x "") = String x (String.rev u).
Proof. unfold String.rev. rewrite rev_app_app2. reflexivity. Qed.

Lemma trim_rev_start_keep x w :
  Ascii.is_space x = false -> cont_byte x = false -> trim_rev_start (String x w) = String x w.
Proof.
  intros H1 H2. cbn [trim_rev_start]. rewrite H1.
  destruct w as [|y [|z r]]; [reflexivity| |].
  - rewrite (ws2_not y x H2). reflexivity.
  - rewrite (ws2_not y x H2), (ws3_not3 z y x H2). reflexivity.
Qed.

Lemma last_char f s :
  s <> "" -> all_chars f s = true -> exists u x, s = u +:+ String x "" /\ f x = true.
Proof.
  induction s as [|a r IH]; intros Hne H; [contradiction|].
  simpl in H. apply andb_true_iff in H as [Ha Hr].
  destruct r as [|b r'].
  - exists "", a. split; [reflexivity|exact Ha].
  - destruct (IH ltac:(discriminate) Hr) as [u [x [Eu Hx]]].
    exists (String a u), x. rewrite Eu. split; [reflexivity|exact Hx].
Qed.

(** [trim] leaves a string alone that does not start with white space and
    ends in a byte that is neither ASCII white space nor a continuation
    byte. *)
Lemma trim_keep s u x :
  trim_start s = s -> s = u +:+ String x "" ->
  Ascii.is_space x = false -> cont_byte x = false -> trim s = s.
Proof.
  intros H Es H1 H2. unfold trim. rewrite H, Es, rev_snoc, trim_rev_start_keep by assumption.
  rewrite <- rev_snoc. apply rev_rev.
Qed.

(** A byte a decimal rendering may end in. *)
Definition end_char (a : ascii) : bool := negb (Ascii.is_space a) && negb (cont_byte a).

Lemma pretty_N_go_app x s : pretty_N_go x s = pretty_N_go x "" +:+ s.
Proof.
  revert s. induction (N.lt_wf_0 x) as [x _ IH]; intros s.
  destruct (decide (x = 0%N)) as [->|Hx]; [reflexivity|].
  rewrite !(pretty_N_go_step x) by lia.
  assert (Hlt : (x `div` 10 < x)%N) by (apply N.div_lt; lia).
  rewrite (IH _ Hlt (String _ s)), (IH _ Hlt (String _ "")).
  rewrite app_assoc_str. reflexivity.
Qed.

Lemma digits_go_app acc s t :
  digits_go acc (s +:+ t) = match digits_go acc s with Some v => digits_go v t | None => None end.
Proof.
  revert acc. induction s as [|a r IH]; intros acc; [reflexivity|].
  rewrite app_String. simpl. destruct (Ascii.is_nat a); [apply IH|reflexivity].
Qed.

Lemma is_nat_char d : (d < 10)%N -> Ascii.is_nat (pretty_N_char d) = Some (N.to_nat d).
Proof.
  intros Hd.
  assert (Hc : d = 0%N \/ d = 1%N \/ d = 2%N \/ d = 3%N \/ d = 4%N \/ d = 5%N \/ d = 6%N \/
               d = 7%N \/ d = 8%N \/ d = 9%N) by lia.
  repeat destruct Hc as [->|Hc]; try reflexivity. subst. reflexivity.
Qed.

Lemma digits_pretty_N x : digits_go 0 (pretty_N_go x "") = Some (Z.of_N x).
Proof.
  induction (N.lt_wf_0 x) as [x _ IH].
  destruct (decide (x = 0%N)) as [->|Hx]; [reflexivity|].
  rewrite pretty_N_go_step by lia. rewrite pretty_N_go_app, digits_go_app.
  rewrite IH by (apply N.div_lt; lia). simpl.
  rewrite is_nat_char by (apply N.mod_lt; lia). f_equal.
  rewrite N_nat_Z, N2Z.inj_div, N2Z.inj_mod.
  pose proof (Z.div_mod (Z.of_N x) 10 ltac:(lia)). lia.
Qed.

Lemma pretty_N_chars (g : ascii -> bool) x :
  (forall d, g (pretty_N_char d) = true) -> all_chars g (pretty_N_go x "") = true.
Proof.
  intros Hg. induction (N.lt_wf_0 x) as [x _ IH].
  destruct (decide (x = 0%N)) as [->|Hx]; [reflexivity|].
  rewrite pretty_N_go_step by lia. rewrite pretty_N_go_app, all_chars_app.
  rewrite IH by (apply N.div_lt; lia). simpl. rewrite Hg. reflexivity.
Qed.

Lemma pretty_N_go_nonempty x : x <> 0%N -> pretty_N_go x "" <> "".
Proof.
  intros Hx. rewrite pretty_N_go_step by lia. rewrite pretty_N_go_app.
  destruct (pretty_N_go (x `div` 10) ""); discriminate.
Qed.

Lemma pretty_Z_parts ml : 0 <= ml ->
  digits_go 0 (pretty ml) = Some ml /\ pretty ml <> "" /\
  (forall g : ascii -> bool, (forall d, g (pretty_N_char d) = true) -> all_chars g (pretty ml) = true).
Proof.
  intros Hml. destruct ml as [|p|p]; [| |lia].
  - split; [reflexivity|]. split; [discriminate|].
    intros g Hg. pose proof (Hg 0%N) as H0. simpl in H0 |- *. rewrite H0. reflexivity.
  - change (pretty (Z.pos p)) with (pretty (N.pos p)). unfold pretty, pretty_N.
    rewrite decide_False by discriminate.
    split; [apply digits_pretty_N|]. split; [apply pretty_N_go_nonempty; discriminate|].
    intros g Hg. apply pretty_N_chars, Hg.
Qed.

Lemma plain_pretty_char d : plain_char (pretty_N_char d) = true.
Proof. unfold pretty_N_char. repeat case_match; reflexivity. Qed.

Lemma end_pretty_char d : end_char (pretty_N_char d) = true.
Proof. unfold pretty_N_char. repeat case_match; reflexivity. Qed.

Lemma parse_u32_digits s v :
  digits_go 0 s = Some v -> s <> "" -> v <= 2 ^ 32 - 1 -> parse_u32 s = Some v.
Proof.
  intros Hd Hs Hv. destruct s as [|a r]; [contradiction|]. unfold parse_u32.
  destruct (decide (a = "+"%char)) as [->|Hn]; [discriminate Hd|].
  rewrite Hd. apply Z.leb_le in Hv. rewrite Hv. reflexivity.
Qed.

Lemma parse_u32_pretty ml : 0 <= ml < 2 ^ 32 -> parse_u32 (pretty ml) = Some ml.
Proof.
  intros Hml. destruct (pretty_Z_parts ml ltac:(lia)) as [Hd [Hn _]].
  apply parse_u32_digits; [exact Hd|exact Hn|lia].
Qed.

(** A stream definition that renders back: symbol and type free of the
    separators, the symbol not starting with white space, the level count
    in the [u32] range. *)
Definition def_ok (d : string * string * Z) : Prop :=
  let '(sym, tok, ml) := d in
  all_chars plain_char sym = true /\ trim_start sym = sym /\
  all_chars plain_char tok = true /\ 0 <= ml < 2 ^ 32.

Lemma colon_app t : ":" +:+ t = String ":" t.
Proof. reflexivity. Qed.

Lemma plain_impl (g : ascii -> bool) s :
  (forall a, plain_char a = true -> g a = true) -> all_chars plain_char s = true ->
  all_chars g s = true.
Proof. intros H. apply all_chars_impl, H. Qed.

Lemma render_chars (g : ascii -> bool) d :
  def_ok d -> (forall a, plain_char a = true -> g a = true) -> g ":"%char = true ->
  all_chars g (render_def d) = true.
Proof.
  destruct d as [[sym tok] ml]. intros [Hs [_ [Ht Hm]]] Hg Hc. unfold render_def.
  destruct (pretty_Z_parts ml ltac:(lia)) as [_ [_ Hp]].
  assert (Hp' : all_chars g (pretty ml) = true)
    by (apply Hp; intros d; apply Hg, plain_pretty_char).
  rewrite !colon_app. rewrite all_chars_app. simpl. rewrite all_chars_app. simpl.
  rewrite (plain_impl g sym Hg Hs), (plain_impl g tok Hg Ht), Hp', Hc.
  reflexivity.
Qed.

Lemma entry_render q d : def_ok d ->
  stream_entry q (render_def d) =
    Some (let '(sym, tok, ml) := d in (sym, parse_data_type tok, ml)).
Proof.
  intros Hok. destruct d as [[sym tok] ml]. destruct Hok as [Hs [Hs0 [Ht Hm]]].
  destruct (pretty_Z_parts ml ltac:(lia)) as [_ [Hne Hp]].
  assert (Hpe : all_chars end_char (pretty ml) = true) by (apply Hp, end_pretty_char).
  assert (Hpp : all_chars plain_char (pretty ml) = true) by (apply Hp, plain_pretty_char).
  destruct (last_char _ _ Hne Hpe) as [u [x [Eu Hx]]].
  unfold stream_entry.
  rewrite (trim_keep (render_def (sym, tok, ml)) (sym +:+ String ":" (tok +:+ String ":" u)) x).
  2: { unfold render_def. rewrite !colon_app. apply trim_start_sep, Hs0. }
  2: { unfold render_def. rewrite !colon_app, Eu.
       repeat (rewrite app_assoc_str || rewrite app_String). reflexivity. }
  2: { unfold end_char in Hx. destruct (Ascii.is_space x); [discriminate|reflexivity]. }
  2: { unfold end_char in Hx. destruct (cont_byte x); [|reflexivity].
       rewrite andb_false_r in Hx. discriminate. }
  assert (Hcolon : forall s, all_chars plain_char s = true ->
                    all_chars (fun a => negb (bool_decide (a = ":"%char))) s = true).
  { intros s. apply plain_impl. intros a Ha. unfold plain_char in Ha.
    destruct (bool_decide (a = ":"%char)); [|reflexivity].
    rewrite andb_false_r in Ha. discriminate. }
  unfold render_def. rewrite !colon_app.
  rewrite (split_on_sep _ _ _ (Hcolon _ Hs)), (split_on_sep _ _ _ (Hcolon _ Ht)).
  rewrite (split_on_plain _ _ (Hcolon _ Hpp)). cbn [default].
  rewrite parse_u32_pretty by exact Hm. reflexivity.
Qed.

Lemma split_render defs :
  defs <> [] -> Forall def_ok defs -> split_on "," (render_defs defs) = map render_def defs.
Proof.
  assert (Hg : forall d, def_ok d ->
            all_chars (fun a => negb (bool_decide (a = ","%char))) (render_def d) = true).
  { intros d Hd. apply render_chars; [exact Hd| |reflexivity].
    intros a Ha. unfold plain_char in Ha.
    destruct (bool_decide (a = ","%char)); [|reflexivity]. discriminate. }
  induction defs as [|d r IH]; intros Hne Hf; [contradiction|].
  inversion Hf as [|? ? Hd Hr]; subst.
  destruct r as [|d' r'].
  - simpl. apply split_on_plain, Hg, Hd.
  - change (render_defs (d :: d' :: r')) with (render_def d +:+ "," +:+ render_defs (d' :: r')).
    rewrite (app_String "," "" _), app_Empty, (split_on_sep _ _ _ (Hg d Hd)).
    rewrite (IH ltac:(discriminate) Hr). reflexivity.
Qed.

(** [parse_streams] reads back stream definitions written in the
    [symbol:type:levels] form and joined by commas: each symbol as
    written, each type compared case-insensitively with MBO (anything else
    is MBP), each level count as written, whatever the other query
    parameters are; symbols and types free of commas and colons, symbols
    not starting with white space, level counts in the [u32] range. *)
Theorem parse_streams_roundtrip (q : StreamQuery) (defs : list (string * string * Z)) :
  streams q = Some (render_defs defs) -> defs <> [] -> Forall def_ok defs ->
  parse_streams q = map (fun '(sym, tok, ml) => (sym, parse_data_type tok, ml)) defs.
Proof.
  intros Hq Hne Hf. unfold parse_streams. rewrite Hq, (split_render defs Hne Hf).
  clear Hq Hne. induction defs as [|d r IH]; [reflexivity|].
  inversion Hf as [|? ? Hd Hr]; subst.
  change (omap (stream_entry q) (map render_def (d :: r))) with
    (match stream_entry q (render_def d) with
     | Some y => y :: omap (stream_entry q) (map render_def r)
     | None => omap (stream_entry q) (map render_def r) end).
  rewrite (entry_render q d Hd), (IH Hr). destruct d as [[sym tok] ml]. reflexivity.
Qed.

End QueryFacts.

(** * Concrete checks, on integer prices *)

Module Checks.
Import Book BookFacts Samples.


Lemma reachable_book_invariant_witness :
  OrdinaryFloat.ops_ordinary ops_small_f = true /\
  let b := run (OrderBook_new "XYZ") ops_small_f in
  (forall sd k v x, In (k, v) (ladder_of b sd) -> In x v ->
     exists o, orders b !! x = Some o /\ side o = sd /\ price o = k) /\
  NoDup (all_ids b) /\
  (forall sd k v, In (k, v) (ladder_of b sd) -> v <> []).
Proof.
  split; [reflexivity|].
  apply (FloatBook.reachable_book_invariant "XYZ" ops_small_f). reflexivity.
Defined.

Lemma add_order_upsert_witness :
  OrdinaryFloat.ops_ordinary ops_small_f = true /\
  OrdinaryFloat.ordinary (price o_b1f) = true /\
  OrdinaryFloat.ordinary (price o_b1f') = true /\
  id o_b1f = id o_b1f' /\
  let b := fst (add_order (fst (add_order (run (OrderBook_new "XYZ") ops_small_f) o_b1f)) o_b1f') in
  orders b !! id o_b1f' = Some o_b1f' /\
  (exists v, In (price o_b1f', v) (ladder_of b (side o_b1f')) /\ In (id o_b1f') v) /\
  length (filter (fun y => y = id o_b1f') (all_ids b)) = 1%nat.
Proof.
  split; [reflexivity|]. split; [reflexivity|]. split; [reflexivity|]. split; [reflexivity|].
  apply (FloatBook.add_order_upsert "XYZ" ops_small_f o_b1f o_b1f'); reflexivity.
Defined.

Lemma nan_neq_9975 : PrimFloat.nan <> 99.75%float.
Proof. intros E. apply (f_equal Prim2SF) in E. vm_compute in E. discriminate. Qed.

(** Claim C3 as stated covers every reachable book. After a bid [b1] at
    99.75 and a bid [bn] with a NaN price, [bn] shares the 99.75 slot (a
    NaN compares [Equal] to every key) while the index holds it at its NaN
    price. *)
Lemma reachable_book_nan_counterexample :
  let b := run (OrderBook_new "XYZ") ops_nan in
  ladder_of b Bid = [(99.75%float, ["b1"; "bn"])] /\
  orders b !! "bn" = Some o_bn /\
  ~ (forall sd k v x, In (k, v) (ladder_of b sd) -> In x v ->
       exists o, orders b !! x = Some o /\ side o = sd /\ price o = k).
Proof.
  intros b.
  assert (HL : ladder_of b Bid = [(99.75%float, ["b1"; "bn"])]) by (vm_compute; reflexivity).
  assert (HO : orders b !! "bn" = Some o_bn) by (vm_compute; reflexivity).
  split; [exact HL|]. split; [exact HO|].
  intros H. destruct (H Bid 99.75%float ["b1"; "bn"] "bn") as [o [Ho [_ Hp]]].
  - rewrite HL. left. reflexivity.
  - right. left. reflexivity.
  - rewrite HO in Ho. injection Ho as <-. exact (nan_neq_9975 Hp).
Qed.

(** Claim C4 as stated covers every book and every pair of orders. On a
    book with a bid [a] at 99.75, adding [X] at 99.5 and then [X] at a NaN
    price leaves [X] indexed at the NaN price but resting in the 99.75
    slot: no slot of the bid ladder is at the second order's price. *)
Lemma add_order_upsert_nan_counterexample :
  let b := fst (add_order (fst (add_order (run (OrderBook_new "XYZ") ops_a) o_x1)) o_xn) in
  id o_x1 = id o_xn /\
  ladder_of b Bid = [(99.75%float, ["a"; "X"])] /\
  orders b !! "X" = Some o_xn /\
  ~ exists v, In (price o_xn, v) (ladder_of b (side o_xn)) /\ In (id o_xn) v.
Proof.
  intros b.
  assert (HL : ladder_of b Bid = [(99.75%float, ["a"; "X"])]) by (vm_compute; reflexivity).
  split; [reflexivity|]. split; [exact HL|]. split; [vm_compute; reflexivity|].
  intros [v [Hv _]]. change (side o_xn) with Bid in Hv. rewrite HL in Hv.
  destruct Hv as [E|[]]. apply (f_equal fst) in E. cbn in E. exact (nan_neq_9975 (eq_sym E)).
Qed.

(** Claim C6 as stated covers every book. On the book of
    [reachable_book_nan_counterexample], the MBO bid side for one level
    renders both orders of the 99.75 slot, at two distinct prices. *)
Lemma mbo_side_nan_counterexample :
  let res := get_mbo_side (run (OrderBook_new "XYZ") ops_nan) Bid 1 0 in
  map mbo_price res = [99.75%float; PrimFloat.nan] /\
  ~ exists ks : list float, (length ks <= Z.to_nat 1)%nat /\ Forall (fun e => In (mbo_price e) ks) res.
Proof.
  intros res.
  assert (HM : map mbo_price res = [99.75%float; PrimFloat.nan]) by (vm_compute; reflexivity).
  split; [exact HM|].
  intros [ks [Hl HF]].
  assert (HF' : Forall (fun p => In p ks) (map mbo_price res))
    by (apply Stdlib.Lists.List.Forall_map; exact HF).
  rewrite HM in HF'. inversion HF' as [|? ? H1 HF2]; subst. inversion HF2 as [|? ? H2 _]; subst.
  destruct ks as [|k [|k' r]]; simpl in Hl, H1, H2; [contradiction| |lia].
  destruct H1 as [E1|[]]. destruct H2 as [E2|[]]. rewrite E1 in E2. exact (nan_neq_9975 (eq_sym E2)).
Qed.

(** Claim C2 as stated counts each add once; two adds of the same id on a
    fresh book are two applied mutations, yet leave the sequence at 3. *)
Lemma sequence_upsert_counterexample :
  let ops := [OpAdd o_b1; OpAdd o_b1'] in
  sequence (OrderBook_new (P := Z) "XYZ") + applied_count (OrderBook_new "XYZ") ops = 2 /\
  sequence (run (OrderBook_new "XYZ") ops) = 3.
Proof. split; reflexivity. Qed.

Lemma update_order_frame_witness :
  let b := run (OrderBook_new "XYZ") ops_small in
  orders b !! "b1" = Some o_b1 /\ 900 <> 0 /\
  let (b', r) := update_order b "b1" 900 42 in
  r = true /\
  orders b' = <["b1" := update_quantity o_b1 900 42]> (orders b) /\
  (forall y, y <> "b1" -> orders b' !! y = orders b !! y) /\
  (exists o', orders b' !! "b1" = Some o' /\ quantity o' = 900 /\ timestamp o' = 42 /\
     id o' = id o_b1 /\ price o' = price o_b1 /\ side o' = side o_b1 /\
     original_quantity o' = original_quantity o_b1) /\
  bids_by_price b' = bids_by_price b /\ asks_by_price b' = asks_by_price b /\
  symbol b' = symbol b /\ sequence b' = u64_wrap (sequence b + 1).
Proof.
  split; [vm_compute; reflexivity|]. split; [lia|].
  apply (update_order_frame (P := Z)); [vm_compute; reflexivity|lia].
Defined.

(** Claim C8 as stated puts every ask strictly above the reference price;
    the first ask, [ask_0], rests exactly at 100.0. *)
Lemma sample_ask_at_reference_counterexample :
  let b := initialize_with_sample_data (OrderBook_new "XYZ") rng0 0 in
  orders b !! "ask_0" = Some (sample_ask rng0 0 0) /\
  side (sample_ask rng0 0 0) = Ask /\
  price (sample_ask rng0 0 0) = base_price /\
  cmp (price (sample_ask rng0 0 0)) base_price = Eq.
Proof. vm_compute. repeat split. Qed.

Lemma sample_book_spec_witness :
  rng_ok rng0 /\
  (let b := initialize_with_sample_data (OrderBook_new "XYZ") rng0 1000 in
   map snd (bids_by_price b) = map (fun i => [fmt_id "bid_" i]) (rev (seq 0 30)) /\
   NoDup (map fst (bids_by_price b)) /\
   Forall (fun kv => cmp kv.1 base_price = Lt) (bids_by_price b) /\
   map snd (asks_by_price b) = map (fun i => [fmt_id "ask_" i]) (seq 0 30) /\
   NoDup (map fst (asks_by_price b)) /\
   first_key (asks_by_price b) = Some base_price /\
   Forall (fun kv => cmp kv.1 base_price = Gt) (tail (asks_by_price b)) /\
   dom (orders b) = list_to_set (all_ids b) /\
   ladder_index_ok b /\
   (forall x o, orders b !! x = Some o ->
      1000 - 60000 < timestamp o <= 1000 /\ 1000 <= quantity o <= 10000 /\
      original_quantity o = quantity o)).
Proof.
  assert (Hr : rng_ok rng0) by (intros k lo hi Hlt; unfold rng0; lia).
  split; [exact Hr|].
  exact (SampleFacts.sample_book_spec "XYZ" rng0 1000 Hr).
Defined.

(** Claim C5 as stated makes the cumulative quantity non-decreasing; with
    two bid levels of 2^63 each (both valid [u64] quantities) the [u64]
    running sum wraps to 0 at the second level. *)
Lemma mbp_cumulative_wraps_counterexample :
  let res := get_mbp_side (run (OrderBook_new "XYZ") big_bids) Bid 2 0 in
  map mbp_quantity res = [2 ^ 63; 2 ^ 63] /\
  map mbp_total_quantity res = [2 ^ 63; 0].
Proof. split; vm_compute; reflexivity. Qed.

(** Claim C1 as stated: client 7 is not registered on an empty manager,
    yet [subscribe] reports success. *)
Lemma subscribe_unknown_counterexample :
  Assoc.lookup (Registry.clients (Registry.mkSM [] [] [])) 7 = None /\
  snd (Registry.subscribe (Registry.mkSM [] [] []) rng0 0 7 "s1" "XYZ" MBP None) = Ok tt.
Proof. split; vm_compute; reflexivity. Qed.

Lemma mbo_side_spec_witness :
  OrdinaryFloat.ops_ordinary ops_small_f = true /\
  let b := run (OrderBook_new "XYZ") ops_small_f in
  let res := get_mbo_side b Ask 2 20 in
  (length res <= 3 * Z.to_nat 2)%nat /\
  (exists ks : list float, (length ks <= Z.to_nat 2)%nat /\ Forall (fun e => In (mbo_price e) ks) res) /\
  (forall i e1 e2, res !! i = Some e1 -> res !! S i = Some e2 ->
     cmp (mbo_price e1) (mbo_price e2) <> Gt) /\
  (forall k v, In (k, v) (ladder_of b Ask) ->
     map mbo_order_id (filter (fun e => cmp (mbo_price e) k = Eq) res) `prefix_of` v).
Proof.
  split; [reflexivity|].
  apply (FloatBook.mbo_side_spec "XYZ" ops_small_f Ask 2 20). reflexivity.
Defined.

End Checks.

(** * Concrete checks of the further properties *)

Module ExtraChecks.
Import Book BookExt Samples.

Lemma top_level_is_best_witness :
  OrdinaryFloat.ops_ordinary ops_small_f = true /\ 0 < 2 < 2 ^ 32 /\
  let b := run (OrderBook_new "XYZ") ops_small_f in
  match get_mbp_side b Bid 2 0 with
  | [] => best_of b Bid = None
  | e :: _ => best_of b Bid = Some (mbp_price e)
  end /\
  match get_mbo_side b Bid 2 0 with
  | [] => best_of b Bid = None
  | e :: _ => best_of b Bid = Some (mbo_price e)
  end.
Proof.
  split; [reflexivity|]. split; [lia|].
  apply (FloatBook.top_level_is_best "XYZ" ops_small_f Bid 2 0); [reflexivity|lia].
Defined.

(** A book to generate from, and the new bid the generator draws on it
    with [r = 0], [price_variation] from [0.5], quantity 1000 and suffix 0. *)
Definition book_xyz : OrderBook float := OrderBook_new "XYZ".
Definition act_add : Activity.OrderActivity :=
  Activity.add_activity book_xyz (Activity.side_of_bit true) 0.5%float 1000 0 0.

Lemma gen_act_add : Activity.generate_random_activity book_xyz 0 act_add.
Proof.
  apply (Activity.gen_add book_xyz 0 0.0%float true 0.5%float 1000 0);
    try split; try reflexivity; lia.
Qed.

Lemma generated_activity_spec_witness :
  Activity.generate_random_activity book_xyz 0 act_add /\
  Activity.symbol act_add = symbol book_xyz /\
  (orders book_xyz = ∅ -> Activity.activity_type act_add = Activity.Add) /\
  (Activity.activity_type act_add = Activity.Add ->
     exists p q sd, Activity.price act_add = Some p /\ Activity.quantity act_add = Some q /\
       1000 <= q <= 10000 /\ Activity.side act_add = Some sd) /\
  (Activity.activity_type act_add = Activity.Update ->
     is_Some (orders book_xyz !! Activity.order_id act_add) /\
     exists q, Activity.quantity act_add = Some q /\ 0 < q) /\
  (Activity.activity_type act_add = Activity.Cancel ->
     is_Some (orders book_xyz !! Activity.order_id act_add)).
Proof.
  split; [exact gen_act_add|].
  exact (ActivityFacts.generated_activity_spec book_xyz 0 act_add gen_act_add).
Defined.

Definition book_xyz' : OrderBook float := Activity.execute_activity book_xyz act_add 0.

(** The order the add rests: id [order_0_0], a bid at 100.0 for 1000. *)
Definition x0 : string := Activity.order_id act_add.
Definition o0 : Order float := mkOrder "order_0_0" 100.0%float 1000 Bid 0 1000.

Lemma book_xyz'_x0 : orders book_xyz' !! x0 = Some o0.
Proof. vm_compute. reflexivity. Qed.

Lemma book_xyz'_keys : (map_to_list (orders book_xyz')).*1 = [x0].
Proof. vm_compute. reflexivity. Qed.

(** On that book, an update drawn with [r = 0.5] and [delta = -500] (new
    quantity 500), and a cancellation drawn with [r = 0.8]. *)
Definition act_upd : Activity.OrderActivity := Activity.update_activity book_xyz' x0 o0 (-500) 1.
Definition act_cxl : Activity.OrderActivity := Activity.cancel_activity book_xyz' x0 2.

Lemma gen_act_upd : Activity.generate_random_activity book_xyz' 1 act_upd.
Proof.
  apply (Activity.gen_update book_xyz' 1 0.5%float true [x0] 0 x0 o0 (-500));
    try split; try reflexivity; try lia;
    try (intros E; pose proof book_xyz'_x0 as H; rewrite E in H; discriminate);
    try (rewrite book_xyz'_keys; reflexivity); exact book_xyz'_x0.
Qed.

Lemma gen_act_cxl : Activity.generate_random_activity book_xyz' 2 act_cxl.
Proof.
  apply (Activity.gen_cancel book_xyz' 2 0.8%float true [x0] 0 x0);
    try split; try reflexivity;
    try (intros E; pose proof book_xyz'_x0 as H; rewrite E in H; discriminate);
    rewrite book_xyz'_keys; reflexivity.
Qed.

Lemma generated_activity_applies_witness :
  (Activity.generate_random_activity book_xyz' 1 act_upd /\
   Activity.activity_type act_upd = Activity.Update /\
   exists op, Activity.execute_activity book_xyz' act_upd 5 = fst (apply_op book_xyz' op) /\
              snd (apply_op book_xyz' op) = true) /\
  (Activity.generate_random_activity book_xyz' 2 act_cxl /\
   Activity.activity_type act_cxl = Activity.Cancel /\
   exists op, Activity.execute_activity book_xyz' act_cxl 5 = fst (apply_op book_xyz' op) /\
              snd (apply_op book_xyz' op) = true).
Proof.
  split; (split; [first [exact gen_act_upd|exact gen_act_cxl]|split; [reflexivity|]]).
  - exact (ActivityFacts.generated_activity_applies book_xyz' 1 5 act_upd gen_act_upd).
  - exact (ActivityFacts.generated_activity_applies book_xyz' 2 5 act_cxl gen_act_cxl).
Defined.

(** A round of three activities from the empty book: the add, the update
    and then a cancellation of the same order. *)
Definition book_upd : OrderBook float := Activity.execute_activity book_xyz' act_upd 1.
Definition act_cxl2 : Activity.OrderActivity := Activity.cancel_activity book_upd x0 2.
Definition book_end : OrderBook float := Activity.execute_activity book_upd act_cxl2 2.

Lemma gen_act_cxl2 : Activity.generate_random_activity book_upd 2 act_cxl2.
Proof.
  assert (Hx : orders book_upd !! x0 = Some (update_quantity o0 500 1)) by (vm_compute; reflexivity).
  apply (Activity.gen_cancel book_upd 2 0.8%float true [x0] 0 x0);
    try split; try reflexivity;
    try (intros E; rewrite E in Hx; discriminate).
Qed.

Lemma sim_round : Activity.simulate_activity book_xyz [act_add; act_upd; act_cxl2] book_end.
Proof.
  split; [simpl; lia|].
  apply (Activity.sim_step book_xyz 0 0); [exact gen_act_add|]. fold book_xyz'.
  apply (Activity.sim_step book_xyz' 1 1); [exact gen_act_upd|]. fold book_upd.
  apply (Activity.sim_step book_upd 2 2); [exact gen_act_cxl2|]. fold book_end.
  apply Activity.sim_done.
Qed.

Lemma sim_act_add : Activity.simulate_activity book_xyz [act_add] book_xyz'.
Proof.
  split; [simpl; lia|].
  apply (Activity.sim_step book_xyz 0 0); [exact gen_act_add|]. apply Activity.sim_done.
Qed.

Lemma simulate_activity_mutations_witness :
  Activity.simulate_activity book_xyz [act_add; act_upd; act_cxl2] book_end /\
  exists ops, book_end = run book_xyz ops /\ length ops = length [act_add; act_upd; act_cxl2] /\
    applied_count book_xyz ops = Z.of_nat (length [act_add; act_upd; act_cxl2]) /\
    1 <= applied_count book_xyz ops <= 8.
Proof.
  split; [exact sim_round|].
  exact (ActivityFacts.simulate_activity_mutations book_xyz _ book_end sim_round).
Defined.

(** A manager with one registered client, 7, on an open channel. *)
Definition sm7 : Registry.StreamManager := Registry.mkSM [] [] [(7, Registry.mkChan true [])].

Lemma subscribe_registered_client_witness :
  Assoc.lookup (Registry.clients sm7) 7 = Some (Registry.mkChan true []) /\
  let ob := match Assoc.lookup (Registry.order_books sm7) "XYZ" with
            | Some ob => ob
            | None => initialize_with_sample_data (OrderBook_new "XYZ") rng0 0
            end in
  let r := Registry.subscribe sm7 rng0 0 7 "s1" "XYZ" MBP None in
  Assoc.lookup (Registry.order_books (fst r)) "XYZ" = Some ob /\
  Registry.subscriptions (fst r) =
    Assoc.push (Registry.subscriptions sm7) "XYZ" (Registry.Subscription_new "s1" "XYZ" MBP None 7) /\
  (Registry.ch_open (Registry.mkChan true []) = true ->
     snd r = Ok tt /\
     Assoc.lookup (Registry.clients (fst r)) 7 =
       Some (Registry.mkChan true (Registry.ch_queue (Registry.mkChan true []) ++
               [Registry.MarketData "s1" "XYZ" (market_data ob MBP (default 20 None) 0)
                  (sequence ob) 0]))) /\
  (Registry.ch_open (Registry.mkChan true []) = false ->
     snd r = Err "Failed to send initial snapshot" /\ Registry.clients (fst r) = Registry.clients sm7).
Proof.
  split; [reflexivity|].
  apply (RegistryMore.subscribe_registered_client sm7 rng0 0 7 "s1" "XYZ" MBP None). reflexivity.
Defined.

Definition sub7' : Registry.Subscription := Registry.mkSub "s1" "XYZ" MBP 20 7.

(** Client 7 subscribed to XYZ, whose book is the fresh one. *)
Definition sm7s : Registry.StreamManager :=
  Registry.mkSM [("XYZ", book_xyz)] [("XYZ", [sub7'])] [(7, Registry.mkChan true [])].

Definition sm7s' : Registry.StreamManager :=
  Registry.mkSM (Assoc.insert (Registry.order_books sm7s) "XYZ" book_xyz')
    (Registry.subscriptions sm7s)
    (RegistryExt.send_updates (Registry.clients sm7s) "XYZ" book_xyz' 0
       (default [] (Assoc.lookup (Registry.subscriptions sm7s) "XYZ"))).

Lemma tick_sm7s : RegistryExt.market_tick sm7s sm7s'.
Proof.
  unfold RegistryExt.market_tick. cbn [Registry.order_books sm7s].
  apply (RegistryExt.pass_step "XYZ" book_xyz [] sm7s [act_add] book_xyz' 0 sm7s' sim_act_add).
  apply RegistryExt.pass_done.
Qed.

Lemma market_tick_spec_witness :
  RegistryExt.market_tick sm7s sm7s' /\
  Registry.subscriptions sm7s' = Registry.subscriptions sm7s /\
  map fst (Registry.order_books sm7s') = map fst (Registry.order_books sm7s) /\
  (forall cid, Assoc.lookup (Registry.clients sm7s) cid = None ->
     Assoc.lookup (Registry.clients sm7s') cid = None) /\
  (forall cid c, Assoc.lookup (Registry.clients sm7s) cid = Some c ->
     exists msgs,
       Assoc.lookup (Registry.clients sm7s') cid =
         Some (if Registry.ch_open c then Registry.mkChan true (Registry.ch_queue c ++ msgs) else c) /\
       Forall (fun m => exists sym v s, Assoc.lookup (Registry.subscriptions sm7s) sym = Some v /\
                 In s v /\ Registry.client_id s = cid /\
                 RegistryExt.update_stream m = Some (Registry.stream_id s)) msgs).
Proof.
  split; [exact tick_sm7s|]. exact (RegistryMore.market_tick_spec sm7s sm7s' tick_sm7s).
Defined.

(** An SSE manager where client 7 registered and subscribed to XYZ. *)
Definition sse7 : SSE.SSEStreamManager :=
  SSEExt.register_client (SSE.mkSM [] [] [] []) 7 (SSE.mkChan true []).
Definition sse7s : SSE.SSEStreamManager :=
  fst (SSE.subscribe_to_streams sse7 rng0 0 7 [("XYZ", MBP, 20)]).

Lemma reach_sse7s : SSEExt.reachable sse7s.
Proof.
  apply SSEExt.reach_subscribe. apply SSEExt.reach_register; [apply SSEExt.reach_new|].
  reflexivity.
Qed.

Lemma sse_unregister_removes_all_witness :
  SSEExt.reachable sse7s /\
  let sm' := SSEExt.unregister_client sse7s 7 in
  (forall k v s, In (k, v) (SSE.subscriptions sm') -> In s v -> SSE.client_id s <> 7) /\
  (forall k v s, In (k, v) (SSE.subscriptions sse7s) -> In s v -> SSE.client_id s <> 7 ->
     exists v', In (k, v') (SSE.subscriptions sm') /\ In s v') /\
  Assoc.lookup (SSE.clients sm') 7 = None /\
  Assoc.lookup (SSE.client_streams sm') 7 = None /\
  (forall c, c <> 7 ->
     Assoc.lookup (SSE.clients sm') c = Assoc.lookup (SSE.clients sse7s) c /\
     Assoc.lookup (SSE.client_streams sm') c = Assoc.lookup (SSE.client_streams sse7s) c).
Proof.
  split; [exact reach_sse7s|]. exact (SSEMore.sse_unregister_removes_all sse7s 7 reach_sse7s).
Defined.

Lemma sse_subscribe_open_witness :
  Assoc.lookup (SSE.clients sse7) 7 = Some (SSE.mkChan true []) /\
  SSE.ch_open (SSE.mkChan true []) = true /\
  let r := SSE.subscribe_to_streams sse7 rng0 0 7 [("XYZ", MBP, 20); ("ABC", MBO, 5)] in
  snd r = Ok tt /\
  (exists msgs,
     Assoc.lookup (SSE.clients (fst r)) 7 =
       Some (SSE.mkChan true (SSE.ch_queue (SSE.mkChan true []) ++ msgs)) /\
     map SSEExt.message_stream msgs =
       map (fun '(sym, dt, ml) => Some (SSE.stream_name sym dt ml)) [("XYZ", MBP, 20); ("ABC", MBO, 5)]) /\
  default [] (Assoc.lookup (SSE.client_streams (fst r)) 7) =
    default [] (Assoc.lookup (SSE.client_streams sse7) 7) ++
      map (fun '(sym, dt, ml) => SSE.stream_name sym dt ml) [("XYZ", MBP, 20); ("ABC", MBO, 5)].
Proof.
  split; [reflexivity|]. split; [reflexivity|].
  apply (SSEMore.sse_subscribe_open sse7 rng0 0 7 [("XYZ", MBP, 20); ("ABC", MBO, 5)]
           (SSE.mkChan true [])); reflexivity.
Defined.

Definition sse7c : SSE.SSEStreamManager :=
  SSEExt.register_client (SSE.mkSM [] [] [] []) 7 (SSE.mkChan false []).

Lemma sse_subscribe_closed_witness :
  Assoc.lookup (SSE.clients sse7c) 7 = Some (SSE.mkChan false []) /\
  SSE.ch_open (SSE.mkChan false []) = false /\
  let r := SSE.subscribe_to_streams sse7c rng0 0 7 [("XYZ", MBP, 20); ("ABC", MBO, 5)] in
  snd r = Err "Failed to send initial snapshot" /\ SSE.clients (fst r) = SSE.clients sse7c /\
  SSE.subscriptions (fst r) =
    Assoc.push (SSE.subscriptions sse7c) "XYZ"
      (SSE.mkSub (SSE.stream_name "XYZ" MBP 20) "XYZ" MBP 20 7) /\
  SSE.client_streams (fst r) = Assoc.push (SSE.client_streams sse7c) 7 (SSE.stream_name "XYZ" MBP 20).
Proof.
  split; [reflexivity|]. split; [reflexivity|].
  apply (SSEMore.sse_subscribe_closed sse7c rng0 0 7 "XYZ" MBP 20 [("ABC", MBO, 5)]
           (SSE.mkChan false [])); reflexivity.
Defined.

(** [trim] drops a trailing no-break space (U+00A0, bytes C2 A0). *)
Lemma trim_nbsp :
  Query.stream_entry (Query.mkQuery None None None None)
    ("X:MBO:5" +:+ String (Ascii.ascii_of_nat 194) (String (Ascii.ascii_of_nat 160) ""))
  = Some ("X", MBO, 5).
Proof. vm_compute. reflexivity. Qed.

Definition defs_mixed : list (string * string * Z) := [("BTCUSD", "mbo", 10); ("ETHUSD", "MBP", 20)].

Lemma parse_streams_roundtrip_witness :
  Query.streams (Query.mkQuery (Some (Query.render_defs defs_mixed)) None (Some "MBO") (Some 3)) =
    Some (Query.render_defs defs_mixed) /\
  defs_mixed <> [] /\ Forall QueryFacts.def_ok defs_mixed /\
  Query.parse_streams (Query.mkQuery (Some (Query.render_defs defs_mixed)) None (Some "MBO") (Some 3)) =
    map (fun '(sym, tok, ml) => (sym, Query.parse_data_type tok, ml)) defs_mixed.
Proof.
  assert (Hf : Forall QueryFacts.def_ok defs_mixed).
  { constructor; [|constructor; [|constructor]];
      (split; [reflexivity|split; [reflexivity|split; [reflexivity|lia]]]). }
  split; [reflexivity|]. split; [discriminate|]. split; [exact Hf|].
  apply (QueryFacts.parse_streams_roundtrip _ defs_mixed); [reflexivity|discriminate|exact Hf].
Defined.

Lemma index_ladders_agree_witness :
  OrdinaryFloat.ops_ordinary ops_small_f = true /\
  let b := run (OrderBook_new "XYZ") ops_small_f in
  (forall x, is_Some (orders b !! x) <-> In x (all_ids b)) /\
  (forall x o, orders b !! x = Some o ->
     id o = x /\ exists v, In (price o, v) (ladder_of b (side o)) /\ In x v).
Proof.
  split; [reflexivity|].
  apply (FloatBook.index_ladders_agree "XYZ" ops_small_f). reflexivity.
Defined.

Lemma best_price_extremal_witness :
  OrdinaryFloat.ops_ordinary ops_small_f = true /\
  let b := run (OrderBook_new "XYZ") ops_small_f in
  (best_of b Ask = None <-> forall x o, orders b !! x = Some o -> side o <> Ask) /\
  (forall p, best_of b Ask = Some p ->
     (exists x o, orders b !! x = Some o /\ side o = Ask /\ price o = p) /\
     (forall x o, orders b !! x = Some o -> side o = Ask ->
        price o = p \/ cmp (price o) p = worse Ask)).
Proof.
  split; [reflexivity|].
  apply (FloatBook.best_price_extremal "XYZ" ops_small_f Ask). reflexivity.
Defined.

Lemma add_remove_roundtrip_witness :
  OrdinaryFloat.ops_ordinary ops_small_f = true /\
  OrdinaryFloat.ordinary (price o_b1f') = true /\
  let b := run (OrderBook_new "XYZ") ops_small_f in
  let r := remove_order (fst (add_order b o_b1f')) (id o_b1f') in
  snd r = true /\
  orders (fst r) = delete (id o_b1f') (orders b) /\
  bids_by_price (fst r) = bids_by_price (fst (remove_order b (id o_b1f'))) /\
  asks_by_price (fst r) = asks_by_price (fst (remove_order b (id o_b1f'))) /\
  (orders b !! id o_b1f' = None ->
     orders (fst r) = orders b /\ bids_by_price (fst r) = bids_by_price b /\
     asks_by_price (fst r) = asks_by_price b).
Proof.
  split; [reflexivity|]. split; [reflexivity|].
  apply (FloatBook.add_remove_roundtrip "XYZ" ops_small_f o_b1f'); reflexivity.
Defined.

End ExtraChecks.
